(** * websvr: request matching, filter chain, sessions, templates, static files

    A shallow embedding of [websvr.js].  Conventions of the model:

    - A JavaScript string is a Rocq [string] holding its UTF-8 bytes.  Request
      lines are ASCII, for which byte offsets and code-unit offsets agree.
    - A JavaScript object used as a dictionary is a [gmap string _] of its own
      properties.  Of the prototype chain, the model has what the objects
      written by hand in the server show of it: the parameters of a match,
      the cookies, the session map and the session objects are object
      literals, on which an assignment under [__proto__] adds no property
      ([Js.set_own]) and a read under a name of [Object.prototype] finds the
      inherited value ([Js.inherited]).  The template pool is read by the
      names of files; names of [Object.prototype] are left out there.
    - [undefined] is [None]; a value that is tested for truthiness keeps the
      test explicit ([truthy_str], [truthy_num], ...).
    - Mutable state is passed explicitly.  A callback that continues a request
      is called in line; the one read whose completion is not awaited
      ([getFile] without a callback) is queued and completed by [drain]. *)

From Stdlib Require Import ZArith Ascii.
From Stdlib Require String.
From stdpp Require Import base option list strings gmap fin_maps.
From Equations Require Import Equations.

Local Open Scope Z_scope.

(** ** JavaScript string primitives *)

Module Js.

(** [s.length] *)
Definition length (s : string) : nat := String.length s.

(** [s.charAt(i)]: the one-character string at [i], or [""] out of range. *)
Definition charAt (s : string) (i : nat) : string :=
  match String.get i s with
  | Some c => String c ""
  | None => ""
  end.

(** [s.substr(i)] *)
Fixpoint substr_from (s : string) (i : nat) {struct i} : string :=
  match i, s with
  | O, _ => s
  | S i', String _ s' => substr_from s' i'
  | S _, EmptyString => ""
  end.

(** [s.substr(0, n)] *)
Fixpoint substr_to (s : string) (n : nat) {struct n} : string :=
  match n, s with
  | S n', String c s' => String c (substr_to s' n')
  | _, _ => ""
  end.

(** Position of the first occurrence of [pat] in [s]. *)
Fixpoint find (s pat : string) : option nat :=
  if String.prefix pat s then Some O
  else match s with
       | EmptyString => None
       | String _ s' => S <$> find s' pat
       end.

(** [s.indexOf(pat)]: the position of the first occurrence, or [-1]. *)
Definition indexOf (s pat : string) : Z :=
  match find s pat with
  | Some n => Z.of_nat n
  | None => -1
  end.

(** [s.split(sep)] for a one-character separator: never the empty list. *)
Fixpoint split (sep : ascii) (s : string) : list string :=
  match s with
  | EmptyString => [""]
  | String c s' =>
      if decide (c = sep) then "" :: split sep s'
      else match split sep s' with
           | seg :: segs => String c seg :: segs
           | [] => [String c ""]
           end
  end.

(** Truthiness of a string and of a number. *)
Definition truthy_str (s : string) : bool := bool_decide (s ≠ "").
Definition truthy_num (z : Z) : bool := bool_decide (z ≠ 0).

(** The property names an object literal inherits from [Object.prototype]:
    reading one of them on [{}] gives a function (for [__proto__], the
    prototype object itself), a truthy value, although the object has no
    such property of its own. *)
Definition prototype_names : list string :=
  ["constructor"; "hasOwnProperty"; "isPrototypeOf"; "propertyIsEnumerable";
   "toLocaleString"; "toString"; "valueOf"; "__proto__"; "__defineGetter__";
   "__defineSetter__"; "__lookupGetter__"; "__lookupSetter__"].

Definition inherited (name : string) : bool :=
  bool_decide (name ∈ prototype_names).

(** [obj[k] = v] on an object literal, as far as its own properties go: the
    property is written, except under the name [__proto__], whose setter
    adds no property (a string or a number is ignored by it; an object
    would become the prototype, which the model does not follow). *)
Definition set_own {V} (k : string) (v : V) (m : gmap string V)
    : gmap string V :=
  if decide (k = "__proto__") then m else <[k := v]> m.

End Js.

(** ** [decodeURIComponent]

    The built-in, after ECMAScript's Decode with an empty reserved set: every
    [%XX] escape is replaced by its byte, and the escapes that stand for a
    character outside ASCII have to spell one well-formed UTF-8 sequence.
    [None] is the [URIError] the built-in throws. *)

Module Uri.

Inductive token :=
| Lit (c : ascii)
| Esc (b : N).

Definition hexval (c : ascii) : option N :=
  let n := N_of_ascii c in
  if ((48 <=? n) && (n <=? 57))%N then Some (n - 48)%N
  else if ((65 <=? n) && (n <=? 70))%N then Some (n - 55)%N
  else if ((97 <=? n) && (n <=? 102))%N then Some (n - 87)%N
  else None.

Fixpoint unescape (s : string) : option (list token) :=
  match s with
  | EmptyString => Some []
  | String "%" (String h (String l rest)) =>
      match hexval h, hexval l with
      | Some a, Some b => cons (Esc (16 * a + b)) <$> unescape rest
      | _, _ => None
      end
  | String "%" _ => None
  | String c rest => cons (Lit c) <$> unescape rest
  end%char.

Definition within (lo hi b : N) : bool := ((lo <=? b) && (b <=? hi))%N.
Definition cont (b : N) : bool := within 128 191 b.

(** Second byte of a three- or four-byte sequence: no overlong form, no
    surrogate, nothing above U+10FFFF. *)
Definition second3 (b b2 : N) : bool :=
  if (b =? 224)%N then within 160 191 b2
  else if (b =? 237)%N then within 128 159 b2
  else cont b2.
Definition second4 (b b2 : N) : bool :=
  if (b =? 240)%N then within 144 191 b2
  else if (b =? 244)%N then within 128 143 b2
  else cont b2.

Definition bytes (bs : list N) (k : list ascii) : list ascii :=
  (ascii_of_N <$> bs) ++ k.

Fixpoint utf8 (ts : list token) : option (list ascii) :=
  match ts with
  | [] => Some []
  | Lit c :: r => cons c <$> utf8 r
  | Esc b :: r =>
      if (b <? 128)%N then cons (ascii_of_N b) <$> utf8 r
      else if within 194 223 b then
        match r with
        | Esc b2 :: r' =>
            if cont b2 then bytes [b; b2] <$> utf8 r' else None
        | _ => None
        end
      else if within 224 239 b then
        match r with
        | Esc b2 :: Esc b3 :: r' =>
            if second3 b b2 && cont b3
            then bytes [b; b2; b3] <$> utf8 r' else None
        | _ => None
        end
      else if within 240 244 b then
        match r with
        | Esc b2 :: Esc b3 :: Esc b4 :: r' =>
            if second4 b b2 && cont b3 && cont b4
            then bytes [b; b2; b3; b4] <$> utf8 r' else None
        | _ => None
        end
      else None
  end.

Definition decodeURIComponent (s : string) : option string :=
  ts ← unescape s; String.string_of_list_ascii <$> utf8 ts.

End Uri.

(** ** Requests and route rules *)

(** Values of JSON shape: parsed bodies, form fields, template models. *)
#[local] Unset Elimination Schemes.
Inductive json :=
| JNull
| JBool (b : bool)
| JNum (z : Z)
| JStr (s : string)
| JArr (l : list json)
| JObj (kv : list (string * json)).
#[local] Set Elimination Schemes.

(** [req.body] *)
Inductive body :=
| BodyUndefined
| BodyText (data : string)
| BodyValue (v : json).

(** A session object: the reserved [__lastAccessTime] and the other keys.
    Session objects are shared between the store and the request that uses
    them, so they live in a heap and are referred to by location. *)
Record session := Session {
  lastAccessTime : option Z;
  sessionData : gmap string json
}.

Definition loc := nat.

(** What a store hands to the callback of [get]: a session object; a value
    that [list[sid]] inherits from [Object.prototype], which is truthy and
    is no session object; or [undefined]. *)
Inductive stored :=
| StoredSession (o : loc)
| StoredInherited (name : string)
| StoredUndefined.

(** [req.session], a [SessionParser]: the id and the session object. *)
Record sessionParser := SessionParser {
  sid : option string;
  val : option loc
}.

Record request := Request {
  url : string;
  headers : gmap string string;
  payload : string;               (* what the data events of the stream deliver *)
  params : gmap string string;
  cookies : option (gmap string string);
  reqBody : body;
  files : option json;
  reqSession : option sessionParser
}.

Definition set_params (p : gmap string string) (r : request) : request :=
  Request (url r) (headers r) (payload r) p (cookies r) (reqBody r) (files r)
    (reqSession r).
Definition set_cookies (c : gmap string string) (r : request) : request :=
  Request (url r) (headers r) (payload r) (params r) (Some c) (reqBody r)
    (files r) (reqSession r).
Definition set_body (b : body) (r : request) : request :=
  Request (url r) (headers r) (payload r) (params r) (cookies r) b (files r)
    (reqSession r).
Definition set_files (f : json) (r : request) : request :=
  Request (url r) (headers r) (payload r) (params r) (cookies r) (reqBody r)
    (Some f) (reqSession r).
Definition set_session (s : sessionParser) (r : request) : request :=
  Request (url r) (headers r) (payload r) (params r) (cookies r) (reqBody r)
    (files r) (Some s).

(** [_.extend(tar, obj)]: every key of [obj] written over [tar]. *)
Definition extend {V} (tar obj : gmap string V) : gmap string V := obj ∪ tar.

(** What [matchString] and [match] return: [false], [true], or the object of
    captured parameters (truthy, also when it is empty). *)
Inductive matched :=
| MFalse
| MTrue
| MParams (p : gmap string string).

Definition truthy (m : matched) : bool :=
  match m with MFalse => false | _ => true end.

Definition of_bool (b : bool) : matched := if b then MTrue else MFalse.

(** [Mapper.prototype.parseUrl] *)
Definition strip_query (reqUrl : string) : string :=
  let idx := Js.indexOf reqUrl "?" in
  if 0 <? idx then Js.substr_to reqUrl (Z.to_nat idx) else reqUrl.

Definition is_param (part : string) : bool :=
  bool_decide (Js.charAt part 0 = ":").

(** The value stored for a parameter segment: [decodeURIComponent(param || '')],
    and [param] itself when that throws (then [param] is a non-empty string). *)
Definition capture (param : option string) : string :=
  let raw := default "" param in
  default raw (Uri.decodeURIComponent raw).

Fixpoint parseUrl_loop (parts urls : list string) (start i : nat)
    (params : gmap string string) : option (gmap string string) :=
  match parts with
  | [] => Some params
  | part :: rest =>
      let param := urls !! (i + start)%nat in
      if is_param part then
        let paramName := Js.substr_from part 1 in
        parseUrl_loop rest urls start (S i)
          (Js.set_own paramName (capture param) params)
      else if decide (Some part ≠ param) then None
      else parseUrl_loop rest urls start (S i) params
  end.

Definition parseUrl (expression reqUrl : string) : option (gmap string string) :=
  let reqUrl := strip_query reqUrl in
  let parts := Js.split "/" expression in
  let start := if decide (Js.charAt expression 0 = "/") then O else 1%nat in
  let urls := Js.split "/" reqUrl in
  parseUrl_loop parts urls start 0 ∅.

(** [Mapper.prototype.matchString] *)
Definition matchString (req : request) (isHandler : bool) (expression : string)
    : matched * request :=
  let reqUrl := url req in
  if Js.indexOf expression "/:" <? 0 then
    let idx := Js.indexOf reqUrl expression in
    if isHandler then
      if (idx =? 0) || (idx =? 1) then
        let lastChar := Js.charAt reqUrl (Z.to_nat idx + Js.length expression) in
        (of_bool (bool_decide (lastChar = "") || bool_decide (lastChar = "/")
                  || bool_decide (lastChar = "?")), req)
      else (MFalse, req)
    else (of_bool (-1 <? idx), req)
  else
    match parseUrl expression reqUrl with
    | Some ps => (MParams ps, set_params (extend (params req) ps) req)
    | None => (MFalse, req)
    end.

(** [Mapper.prototype.match].  An expression is a string, a regular expression
    (its [test]), an array of strings, or absent. *)
Inductive expression :=
| ENone
| EString (s : string)
| ERegExp (test : string → bool)
| EArray (l : list string)
| EOther.

Fixpoint match_array (req : request) (isHandler : bool) (l : list string)
    : matched * request :=
  match l with
  | [] => (MFalse, req)
  | e :: l' =>
      let '(m, req') := matchString req isHandler e in
      if truthy m then (MTrue, req') else match_array req' isHandler l'
  end.

Definition match_expression (expr : expression) (req : request)
    (isHandler : bool) : matched * request :=
  match expr with
  | ENone => (MTrue, req)
  | EString s =>
      if Js.truthy_str s then matchString req isHandler s else (MTrue, req)
  | ERegExp test => (of_bool (test (url req)), req)
  | EArray l => match_array req isHandler l
  | EOther => (MFalse, req)
  end.

(** ** Settings, responses and the state of the server *)

Record settings := MkSettings {
  root : string;
  home : string;
  listDir : bool;
  cache : bool;
  templateCache : bool;
  showError : bool;
  defaultPage : string;
  tmpl404 : string;                (* Settings["404"] *)
  sessionTimeout : Z;
  sessionDomain : string;
  sessionLength : Z;
  serverID : string
}.

Record response := Response {
  statusCode : Z;
  resHeaders : gmap string string;
  setCookie : list string;         (* the Set-Cookie header, when sent *)
  headersSent : bool;
  resBody : string;
  ended : bool;
  resCookies : list string;        (* res.cookies *)
  charset : option string
}.

Definition fresh_response : response :=
  Response 200 ∅ [] false "" false [] None.

(** What a path names on disk. *)
Inductive node :=
| FileNode (mtime : Z) (content : option string)   (* [None]: cannot be read *)
| DirNode
| OtherNode.

Record world := World {
  clock : Z;                             (* [+new Date()] *)
  randoms : nat → nat;                   (* successive [Math.random() * len | 0] *)
  randomPos : nat;
  objs : gmap loc session;              (* the session objects *)
  list_ : option (gmap string loc);     (* [MemoryStore]'s [list] *)
  sweepEvery : option Z;                (* the interval passed to [setInterval] *)
  disk : gmap string node;
  templatePool : gmap string string;
  defaultModel : option json;
  pending : list string;                (* templates whose read is in flight *)
  reads : list string                   (* paths given to [fs.readFile] so far *)
}.

Definition set_objs (o : gmap loc session) (w : world) : world :=
  World (clock w) (randoms w) (randomPos w) o (list_ w) (sweepEvery w) (disk w)
    (templatePool w) (defaultModel w) (pending w) (reads w).
Definition set_list (l : gmap string loc) (w : world) : world :=
  World (clock w) (randoms w) (randomPos w) (objs w) (Some l) (sweepEvery w)
    (disk w) (templatePool w) (defaultModel w) (pending w) (reads w).
Definition set_sweepEvery (i : Z) (w : world) : world :=
  World (clock w) (randoms w) (randomPos w) (objs w) (list_ w) (Some i) (disk w)
    (templatePool w) (defaultModel w) (pending w) (reads w).
Definition set_randomPos (n : nat) (w : world) : world :=
  World (clock w) (randoms w) n (objs w) (list_ w) (sweepEvery w) (disk w)
    (templatePool w) (defaultModel w) (pending w) (reads w).
Definition set_templatePool (p : gmap string string) (w : world) : world :=
  World (clock w) (randoms w) (randomPos w) (objs w) (list_ w) (sweepEvery w)
    (disk w) p (defaultModel w) (pending w) (reads w).
Definition set_pending (p : list string) (w : world) : world :=
  World (clock w) (randoms w) (randomPos w) (objs w) (list_ w) (sweepEvery w)
    (disk w) (templatePool w) (defaultModel w) p (reads w).
Definition set_reads (r : list string) (w : world) : world :=
  World (clock w) (randoms w) (randomPos w) (objs w) (list_ w) (sweepEvery w)
    (disk w) (templatePool w) (defaultModel w) (pending w) r.

(** The request, its response and the server state, as one context. *)
Record ctx := Ctx {
  req : request;
  res : response;
  wld : world
}.

(** How a user function ends: it returns, having called [req.filter.next()]
    as its last action or not, or it throws [err] (its [stack]). *)
Inductive ran :=
| Returned (c : ctx) (next : bool)
| Threw (c : ctx) (stack : string).

Inductive handler :=
| HFunction (f : ctx → ran)
| HString (content : string)
| HArray (file : string)           (* [handler[0]] *)
| HOther.

Record mapper := Mapper {
  mexpression : expression;
  mhandler : handler;
  post : option string;
  session_ : bool;
  file_ : bool;
  before_ : option (request → response → bool)    (* [_before] *)
}.

Definition Mapper_match (m : mapper) (r : request) (isHandler : bool)
    : matched * request :=
  match_expression (mexpression m) r isHandler.

(** The [SessionStore] interface: [get] hands a session object (or
    [undefined]) to its callback, which the model calls in line. *)
Record sessionStore := SessionStoreOps {
  store_get : string → world → world * stored;
  store_set : string → loc → world → world;
  store_del : string → world → world
}.

(** How the processing of a request ends (the response holds the details). *)
Inductive outcome :=
| Rejected                 (* the [_before] check failed *)
| FormError                (* [form.parse] reported an error: no response *)
| Invoked (next : bool)    (* the rule's function returned *)
| Caught (errorMsg : string)
| Content                  (* a string handler, written as the body *)
| Unanswered               (* a handler of no known kind *)
| NotModified
| FileServed
| ReadFailed               (* [fs.readFile] failed in [writeFile]: no response *)
| Redirected
| Listed
| Forbidden
| NotFound
| TooDeep.                 (* default pages nested deeper than the bound given *)

#[global] Instance outcome_eq_dec : EqDecision outcome.
Proof. solve_decision. Defined.

(** A [FilterChain]: the position and the completion callback. *)
Record filterChain := FilterChain {
  idx : nat;
  cb : ctx → ctx * outcome
}.

(** [Cookie]'s options object. *)
Record cookieOptions := CookieOptions {
  expires : option Z;
  cpath : string;
  domain : string;
  secure : bool;
  httponly : bool
}.

(** ** The response object as [requestHandler] sets it up *)

Definition charset_of (r : response) : string := default "utf-8" (charset r).

(** [res.setHeader]: after [end] it is replaced by a function that only logs.
    Node throws when the head is already written; no path of the model sets
    a header then, and the model leaves the response as it is. *)
Definition setHeader (k v : string) (r : response) : response :=
  if ended r || headersSent r then r
  else Response (statusCode r) (<[k := v]> (resHeaders r)) (setCookie r)
         (headersSent r) (resBody r) (ended r) (resCookies r) (charset r).

(** [res.writeHead(status, headers)] *)
Definition writeHead (status : Z) (hs : gmap string string) (r : response)
    : response :=
  if ended r then r
  else Response status (hs ∪ resHeaders r) (setCookie r) true (resBody r)
         (ended r) (resCookies r) (charset r).

(** [res.statusCode = status], of effect while the head is unwritten. *)
Definition set_statusCode (status : Z) (r : response) : response :=
  if headersSent r then r else
  Response status (resHeaders r) (setCookie r) (headersSent r) (resBody r)
    (ended r) (resCookies r) (charset r).

(** The part of the new [res.end] that touches the response: default content
    type and cookies while the head is unwritten, then the old [end]. *)
Definition end_response (data : string) (r : response) : response :=
  if ended r then r
  else
    let hs :=
      if headersSent r then resHeaders r
      else match resHeaders r !! "Content-Type" with
           | Some _ => resHeaders r
           | None =>
               <["Content-Type" := "text/html; charset=" +:+ charset_of r]>
                 (resHeaders r)
           end in
    let sc :=
      if headersSent r then setCookie r
      else match resCookies r with [] => setCookie r | cs => cs end in
    Response (statusCode r) hs sc true (resBody r +:+ data) true
      (resCookies r) (charset r).

Section WebSvr.

(** Collaborators outside the repository. [None] stands for a thrown error
    (or an invalid date). *)
Context (JSON_parse : string → option json)
        (qs_parse : string → option json)
        (form_parse : request → option (json * json))
        (path_join : string → string → string)
        (Date_parse : string → option Z)
        (toUTCString : Z → string)
        (toISOString : Z → string)
        (mime_lookup : string → string)
        (engineFunc : string → json → string + string)
        (ListDir_body : request → string → gmap string node → string).

Context (Settings : settings) (SessionStore : sessionStore).
Context (filters handlers : list mapper).

(** *** [MemoryStore] *)

Definition empty_session : session := Session None ∅.

Definition MemoryStore_init (w : world) : world :=
  set_sweepEvery (sessionTimeout Settings * 4) (set_list ∅ w).

Definition ensure_list (w : world) : world :=
  match list_ w with Some _ => w | None => MemoryStore_init w end.

Definition the_list (w : world) : gmap string loc := default ∅ (list_ w).

(** [get]: [list] is an object literal, so that [list[sid]] is truthy for
    a name inherited from [Object.prototype] although no entry is stored
    under it: then nothing is put into [list] and the inherited value is
    handed over. *)
Definition MemoryStore_get (sid : string) (w : world) : world * stored :=
  let w := ensure_list w in
  match the_list w !! sid with
  | Some o => (w, StoredSession o)
  | None =>
      if Js.inherited sid then (w, StoredInherited sid)
      else
        let o := fresh (dom (objs w)) in
        let w := set_objs (<[o := empty_session]> (objs w)) w in
        (set_list (<[sid := o]> (the_list w)) w, StoredSession o)
  end.

(** [set]: [list[sid] = session].  Under the id [__proto__] no entry is
    stored (the session object becomes the prototype of [list], which the
    model does not follow). *)
Definition MemoryStore_set (sid : string) (o : loc) (w : world) : world :=
  let w := ensure_list w in
  set_list (Js.set_own sid o (the_list w)) w.

(** [delete list[sid]]; [list] exists whenever the server calls [del]. *)
Definition MemoryStore_del (sid : string) (w : world) : world :=
  match list_ w with
  | Some l => set_list (delete sid l) w
  | None => w
  end.

(** [isValid] of [clearHandler]: the expression parses as
    [t && ((now - t) || (0 <= timeout * 2))]. *)
Definition sweep_valid (now : Z) (s : session) : bool :=
  match lastAccessTime s with
  | None => false
  | Some t =>
      Js.truthy_num t
      && (Js.truthy_num (now - t) || (0 <=? sessionTimeout Settings * 2))
  end.

Definition session_at (w : world) (o : loc) : session :=
  default empty_session (objs w !! o).

Definition clearHandler (w : world) : world :=
  match list_ w with
  | None => w
  | Some l =>
      map_fold
        (λ sid o acc,
           if sweep_valid (clock w) (session_at w o) then acc
           else MemoryStore_del sid acc)
        w l
  end.

Definition MemoryStore : sessionStore :=
  SessionStoreOps MemoryStore_get MemoryStore_set MemoryStore_del.

(** *** [Cookie] and [res.end] *)

Definition Cookie (name : string) (value : option string)
    (options : cookieOptions) (r : response) : response :=
  let setStr := name +:+ "=" +:+ default "" value in
  let setStr :=
    match value, expires options with
    | None, _ => setStr +:+ "; expires=Thu, 01 Jan 1970 00:00:00 GMT"
    | Some _, Some e =>
        if Js.truthy_num e then setStr +:+ "; expires=" +:+ toUTCString e
        else setStr
    | Some _, None => setStr
    end in
  let setStr :=
    if Js.truthy_str (cpath options)
    then setStr +:+ "; path=" +:+ cpath options else setStr in
  let setStr :=
    if Js.truthy_str (domain options)
    then setStr +:+ "; domain=" +:+ domain options else setStr in
  let setStr := if secure options then setStr +:+ "; secure" else setStr in
  let setStr := if httponly options then setStr +:+ "; httponly" else setStr in
  Response (statusCode r) (resHeaders r) (setCookie r) (headersSent r)
    (resBody r) (ended r) (resCookies r ++ [setStr]) (charset r).

(** [SessionParser.prototype.update] *)
Definition session_update (sp : sessionParser) (w : world) : world :=
  match sid sp, val sp with
  | Some i, Some o => store_set SessionStore i o w
  | _, _ => w
  end.

(** The new [res.end]: the response is closed, then the session is stored. *)
Definition res_end (data : string) (c : ctx) : ctx :=
  let r := end_response data (res c) in
  let w := match reqSession (req c) with
           | Some sp => session_update sp (wld c)
           | None => wld c
           end in
  Ctx (req c) r w.

(** [res.type] *)
Definition res_type (type : string) (r : response) : response :=
  if Js.truthy_str type && negb (headersSent r) then
    let v := (if Js.truthy_str (mime_lookup type) then mime_lookup type
              else "text/plain") +:+ "; charset=" +:+ charset_of r in
    setHeader "Content-Type" v r
  else r.

(** [res.redirect(url)] *)
Definition redirect (to : string) (c : ctx) : ctx :=
  let r := setHeader "Location" to (set_statusCode 302 (res c)) in
  res_end "" (Ctx (req c) r (wld c)).


(** *** [SessionParser] *)

Definition CHARS : string := "0123456789abcdefghijklmnopqrstuvwxyz".

(** [n.toString(36)]; [fuel] bounds the number of digits. *)
Fixpoint digits36 (fuel : nat) (n : N) (acc : string) : string :=
  match fuel with
  | O => acc
  | S fuel' =>
      let acc' := Js.charAt CHARS (N.to_nat (n mod 36)) +:+ acc in
      if (n / 36 =? 0)%N then acc' else digits36 fuel' (n / 36)%N acc'
  end.

Definition toString36 (z : Z) : string :=
  let n := Z.to_N (Z.abs z) in
  (if z <? 0 then "-" else "") +:+ digits36 (S (N.to_nat (N.log2 n))) n "".

(** [count] characters [CHARS[Math.random() * len | 0]]. *)
Definition random_chars (count : nat) (w : world) : string :=
  foldr (λ k acc, Js.charAt CHARS (randoms w (randomPos w + k) mod 36) +:+ acc)
    "" (seq 0 count).

(** [newID()], the fixed-length form used for session ids. *)
Definition newID (w : world) : string * world :=
  let sid := toString36 (clock w) +:+ "-" +:+ serverID Settings in
  let count := Z.to_nat (sessionLength Settings - Z.of_nat (Js.length sid)) in
  (sid +:+ random_chars count w, set_randomPos (randomPos w + count) w).

(** [newID(appendLen)] with a truthy [appendLen]. *)
Definition newID_append (appendLen : nat) (w : world) : string * world :=
  let sid := toString36 (clock w) +:+ serverID Settings in
  (sid +:+ random_chars appendLen w, set_randomPos (randomPos w + appendLen) w).

(** [new] of an object literal: a location not in use. *)
Definition alloc (s : session) (w : world) : loc * world :=
  let o := fresh (dom (objs w)) in
  (o, set_objs (<[o := s]> (objs w)) w).

(** [create]: a new id bound to a new session object. *)
Definition SessionParser_create (w : world) : sessionParser * world :=
  let '(i, w) := newID w in
  let '(o, w) := alloc (Session (Some (clock w)) ∅) w in
  (SessionParser (Some i) (Some o), w).

Definition sidKey : string := "_wsid".

(** [setSession] of [init] *)
Definition setSession (c : ctx) : ctx :=
  let '(sp, w) := SessionParser_create (wld c) in
  let r := Cookie sidKey (sid sp)
             (CookieOptions None "/" (sessionDomain Settings) false true) (res c) in
  Ctx (set_session sp (req c)) r w.

(** [isValid] of [getSession]:
    [session && session.__lastAccessTime && (now - t <= timeout)]. *)
Definition isValid (w : world) (sess : stored) : bool :=
  match sess with
  | StoredSession o =>
      match lastAccessTime (session_at w o) with
      | None => false
      | Some t => Js.truthy_num t && (clock w - t <=? sessionTimeout Settings)
      end
  | StoredInherited _ => false
  | StoredUndefined => false
  end.

(** [self.val.__lastAccessTime = +new Date()], on the shared object *)
Definition touch (o : loc) (w : world) : world :=
  set_objs (<[o := Session (Some (clock w)) (sessionData (session_at w o))]> (objs w)) w.

(** [getSession] of [init], the callback given to [SessionStore.get] *)
Definition getSession (sidVal : string) (sess : stored) (c : ctx) : ctx :=
  if isValid (wld c) sess then
    match sess with
    | StoredSession o =>
        Ctx (set_session (SessionParser (Some sidVal) (Some o)) (req c))
          (res c) (touch o (wld c))
    | _ => c
    end
  else
    setSession (Ctx (req c) (res c) (store_del SessionStore sidVal (wld c))).

(** [SessionParser.prototype.init]; its callback is run by the caller. *)
Definition SessionParser_init (c : ctx) : ctx :=
  let sidVal := default ∅ (cookies (req c)) !! sidKey in
  match sidVal with
  | None => setSession c
  | Some v =>
      if negb (Js.truthy_str v)
         || negb (bool_decide (Z.of_nat (Js.length v) = sessionLength Settings))
      then setSession c
      else
        let '(w, sess) := store_get SessionStore v (wld c) in
        getSession v sess (Ctx (req c) (res c) w)
  end.


(** *** [Parser]: the stages a matched rule is run through *)

Definition newline : string := String "010"%char "".

(** The text a non-function handler is reported with when it is called. *)
Definition not_a_function : string := "TypeError: mapper.handler is not a function".

Definition call_handler (m : mapper) (c : ctx) : ran :=
  match mhandler m with
  | HFunction f => f c
  | _ => Threw c not_a_function
  end.

(** [handle]: the rule's function, with whatever it throws caught here.
    The message is ['\n' + 'Error ' + date + ' ' + req.url + '\n' + err.stack],
    a non-empty string, so the alternatives after [||] are never taken. *)
Definition handle (m : mapper) (c : ctx) : ctx * outcome :=
  match call_handler m c with
  | Returned c' next => (c', Invoked next)
  | Threw c' stack =>
      let errorMsg :=
        newline +:+ "Error " +:+ toISOString (clock (wld c')) +:+ " "
        +:+ url (req c') +:+ newline +:+ stack in
      (if showError Settings
       then res_end ("<pre>" +:+ errorMsg +:+ "</pre>") c'
       else res_end "" c',
       Caught errorMsg)
  end.

Definition parseSession (m : mapper) (c : ctx) : ctx * outcome :=
  if session_ m && bool_decide (reqSession (req c) = None)
  then handle m (SessionParser_init c)
  else handle m c.

(** The body as [BodyParser]'s callback decodes it. *)
Definition decode_body (mode data : string) : body :=
  if decide (mode = "json") then
    match JSON_parse (if Js.truthy_str data then data else "{}") with
    | Some v => BodyValue v
    | None => BodyValue (JObj [])
    end
  else if decide (mode = "qs") then
    match qs_parse data with
    | Some v => BodyValue v
    | None => BodyValue (JObj [])
    end
  else BodyText data.

Definition post_mode (m : mapper) : option string :=
  match post m with
  | Some mode => if Js.truthy_str mode then Some mode else None
  | None => None
  end.

Definition parseBody (m : mapper) (c : ctx) : ctx * outcome :=
  match post_mode m, reqBody (req c) with
  | Some mode, BodyUndefined =>
      let body := decode_body mode (payload (req c)) in
      parseSession m (Ctx (set_body body (req c)) (res c) (wld c))
  | _, _ => parseSession m c
  end.

Definition before_ok (m : mapper) (c : ctx) : bool :=
  match before_ m with
  | Some check => check (req c) (res c)
  | None => true
  end.

Definition parseFile (m : mapper) (c : ctx) : ctx * outcome :=
  if negb (before_ok m c) then
    (res_end "This is not a valid request" c, Rejected)
  else
    match file_ m, reqBody (req c) with
    | true, BodyUndefined =>
        match form_parse (req c) with
        | None => (c, FormError)
        | Some (fields, fs) =>
            parseBody m
              (Ctx (set_files fs (set_body (BodyValue fields) (req c)))
                 (res c) (wld c))
        end
    | _, _ => parseBody m c
    end.

(** [s.trim()], for the white space of ASCII. *)
Fixpoint trim_left (s : string) : string :=
  match s with
  | String a s' => if Ascii.is_space a then trim_left s' else s
  | EmptyString => ""
  end.
Definition trim (s : string) : string :=
  String.rev (trim_left (String.rev (trim_left s))).

(** One piece of the [Cookie] header, as the loop of [parseCookies] reads it. *)
Definition add_cookie (strCookie : string) (cs : gmap string string)
    : gmap string string :=
  let i := Js.indexOf strCookie "=" in
  if 0 <? i then
    Js.set_own (trim (Js.substr_to strCookie (Z.to_nat i)))
      (trim (Js.substr_from strCookie (Z.to_nat i + 1))) cs
  else cs.

Definition parse_cookie_header (cookie : option string) : gmap string string :=
  match cookie with
  | Some ck =>
      if Js.truthy_str ck
      then foldl (λ cs strCookie, add_cookie strCookie cs) ∅ (Js.split ";" ck)
      else ∅
  | None => ∅
  end.

Definition parseCookies (m : mapper) (c : ctx) : ctx * outcome :=
  let cs := parse_cookie_header (headers (req c) !! "cookie") in
  parseFile m (Ctx (set_cookies cs (req c)) (res c) (wld c)).

Definition Parser (m : mapper) (c : ctx) : ctx * outcome := parseCookies m c.


(** *** [FilterChain.prototype.next] *)

Definition inspect {A} (a : A) : {b : A | a = b} := exist _ a eq_refl.

Definition advance (fc : filterChain) : filterChain :=
  FilterChain (S (idx fc)) (cb fc).

(** [self.idx++] comes first in every case.  Without a rule the callback is
    run.  A rule that matches is handed to [Parser], and [next] is entered
    again only from the rule's function; a rule that does not match leads
    to [self.next()] at once. *)
Equations? next (fc : filterChain) (c : ctx) : filterChain * ctx * outcome
  by wf (length filters - idx fc)%nat lt :=
  next fc c with inspect (filters !! idx fc) := {
    | exist _ None _ => (advance fc, (cb fc c).1, (cb fc c).2)
    | exist _ (Some mapper) _ =>
        let '(r, rq) := Mapper_match mapper (req c) false in
        let c := Ctx rq (res c) (wld c) in
        if truthy r then
          match Parser mapper c with
          | (c', Invoked true) => next (advance fc) c'
          | (c', o) => (advance fc, c', o)
          end
        else next (advance fc) c }.
Proof.
  all: match goal with H : _ !! _ = Some _ |- _ =>
         apply lookup_lt_Some in H end; simpl; lia.
Qed.


(** *** Files *)

(** [fs.readFile(path, cb)] with its callback called in line: the call is
    recorded and the content, if the path names a readable file, returned. *)
Definition file_content (w : world) (path : string) : option string :=
  match disk w !! path with
  | Some (FileNode _ content) => content
  | _ => None
  end.

Definition readFile (path : string) (w : world) : world * option string :=
  (set_reads (reads w ++ [path]) w, file_content w path).

Definition with_res (r : response) (c : ctx) : ctx := Ctx (req c) r (wld c).
Definition with_wld (w : world) (c : ctx) : ctx := Ctx (req c) (res c) w.

Definition html : gmap string string := {[ "Content-Type" := "text/html" ]}.

(** [writeFile] *)
Definition writeFile (fullPath : string) (c : ctx) : ctx * outcome :=
  let '(w, data) := readFile fullPath (wld c) in
  match data with
  | None => (with_wld w c, ReadFailed)
  | Some data =>
      let r := writeHead 200 ∅ (res_type fullPath (res c)) in
      (res_end data (Ctx (req c) r w), FileServed)
  end.

(** *** [Template] *)

Definition dquote : string := String "034"%char "".
Definition includeBegin : string := "<!--#include=" +:+ dquote.
Definition includeAfter : string := dquote +:+ "-->".
Definition includeBeginLen : nat := 14.
Definition includeAfterLen : nat := 4.

(** The class [[\w\.\\\/]] of [includeRegExp]. *)
Definition is_name_char (c : ascii) : bool :=
  let n := N_of_ascii c in
  (((48 <=? n) && (n <=? 57)) || ((65 <=? n) && (n <=? 90))
   || ((97 <=? n) && (n <=? 122)) || (n =? 95) || (n =? 46) || (n =? 92)
   || (n =? 47))%N.

Fixpoint name_run (s : string) : string * string :=
  match s with
  | String c s' =>
      if is_name_char c
      then let '(name, rest) := name_run s' in (String c name, rest)
      else ("", s)
  | EmptyString => ("", "")
  end.

(** A match of [includeRegExp] at the head of [s]: the matched text. *)
Definition include_at (s : string) : option string :=
  if String.prefix includeBegin s then
    let '(name, rest) := name_run (Js.substr_from s includeBeginLen) in
    if Js.truthy_str name && String.prefix includeAfter rest
    then Some (includeBegin +:+ name +:+ includeAfter)
    else None
  else None.

Inductive piece :=
| Chr (c : ascii)
| Incl (fileStr : string).

(** The matches of the global [includeRegExp] from left to right, with the
    text between them; [skip] characters belong to the match just found. *)
Fixpoint scan (s : string) (skip : nat) : list piece :=
  match s with
  | EmptyString => []
  | String c s' =>
      match skip with
      | S k => scan s' k
      | O =>
          match include_at s with
          | Some fileStr => Incl fileStr :: scan s' (Js.length fileStr - 1)
          | None => Chr c :: scan s' 0
          end
      end
  end.

Definition pooled (w : world) (filename : string) : string :=
  default "" (templatePool w !! filename).

(** The test [Settings.templateCache && templatePool[filename]] *)
Definition in_cache (w : world) (filename : string) : bool :=
  templateCache Settings && Js.truthy_str (pooled w filename).

Definition template_path (filename : string) : string :=
  path_join
    (if decide (Js.charAt filename 0 = "/") then root Settings
     else home Settings)
    filename.

(** The callback of the read in [getFile]: the pool is updated when the
    read succeeded, and the text (or [""]) is what [cb] would be given. *)
Definition read_done (filename : string) (data : option string) (w : world)
    : world * string :=
  match data with
  | None => (w, "")
  | Some tmpl => (set_templatePool (<[filename := tmpl]> (templatePool w)) w, tmpl)
  end.

(** [getFile(filename, cb)]: what [cb] receives. *)
Definition getFile (filename : string) (w : world) : world * string :=
  if in_cache w filename then (w, pooled w filename)
  else
    let '(w, data) := readFile (template_path filename) w in
    read_done filename data w.

(** [getFile(filename)] without a callback: the read is only started. *)
Definition getFile_start (filename : string) (w : world) : world :=
  if in_cache w filename then w
  else
    let '(w, _) := readFile (template_path filename) w in
    set_pending (pending w ++ [filename]) w.

(** The reads in flight come back (the disk is read at that moment). *)
Definition finish_read (w : world) (filename : string) : world :=
  (read_done filename (file_content w (template_path filename)) w).1.

Definition drain (w : world) : world :=
  set_pending [] (foldl finish_read w (pending w)).

Definition includeFile (fileStr : string) : string :=
  Js.substr_to (Js.substr_from fileStr includeBeginLen)
    (Js.length fileStr - includeAfterLen - includeBeginLen).

(** The function given to [tmpl.replace], along the matches. *)
Fixpoint substitute (ps : list piece) (w : world) : world * string :=
  match ps with
  | [] => (w, "")
  | Chr c :: ps' =>
      let '(w', out) := substitute ps' w in (w', String c out)
  | Incl fileStr :: ps' =>
      let w1 := getFile_start (includeFile fileStr) w in
      let text := pooled w1 (includeFile fileStr) in
      let '(w', out) := substitute ps' w1 in (w', text +:+ out)
  end.

Definition getTemplate (filename : string) (w : world) : world * string :=
  let '(w, tmpl) := getFile filename w in
  substitute (scan tmpl 0) w.

(** [_.extend(Object.create(defaultModel), model)]: the model's own keys
    in front of the inherited ones.  Keys of a model that is not an object
    are not modelled. *)
Definition inherit (dflt model : json) : json :=
  match dflt, model with
  | JObj d, JObj kv => JObj (kv ++ d)
  | _, _ => dflt
  end.

(** [render] of [Template]: the text handed to [outFn]. *)
Definition render (chrunk : string) (model : json) (w : world) : string :=
  let params := match defaultModel w with
                | Some d => inherit d model
                | None => model
                end in
  match engineFunc chrunk params with
  | inl out => out
  | inr err => err
  end.

(** The ways [res.render] is called with the default [outFn]. *)
Inductive renderCall :=
| RenderUrl (model : json)                       (* [render()] and [render(model)] *)
| RenderName (tmplUrl : string)                  (* [render(name)] *)
| RenderWith (tmplUrl : string) (model : json).  (* [render(name, model)] *)

Definition url_template (reqUrl : string) : string :=
  let tmplUrl := Js.substr_from reqUrl 1 in
  let i := Js.indexOf tmplUrl "?" in
  if -1 <? i then Js.substr_to tmplUrl (Z.to_nat i) else tmplUrl.

(** [getTemplate(tmplUrl, function(tmpl) { render(tmpl, model, end) })]:
    the text that [end] is called with. *)
Definition render_template (tmplUrl : string) (model : json) (w : world)
    : world * string :=
  let '(w, tmpl) := getTemplate tmplUrl w in
  (w, render tmpl model w).

Definition Template_render (call : renderCall) (c : ctx) : ctx :=
  let '(tmplUrl, model) :=
    match call with
    | RenderUrl model => (url_template (url (req c)), model)
    | RenderName tmplUrl => (tmplUrl, JObj [])
    | RenderWith tmplUrl model => (tmplUrl, model)
    end in
  let '(w, out) := render_template tmplUrl model (wld c) in
  res_end out (with_wld w c).

(** *** [write403], [write404] *)

Definition write403 (c : ctx) : ctx :=
  res_end "Access forbidden!" (with_res (writeHead 403 html (res c)) c).

Definition write404 (c : ctx) : ctx :=
  let c := with_res (writeHead 404 html (res c)) c in
  if Js.truthy_str (tmpl404 Settings)
  then Template_render (RenderWith (tmpl404 Settings) JNull) c
  else res_end "File not found!" c.


(** *** [Handler.handle] *)

(** The loop over [Handler.handlers]: [Some] when a rule matched (the
    function returns [true]), [None] when none did. *)
Fixpoint handle_loop (hs : list mapper) (c : ctx) : ctx * option outcome :=
  match hs with
  | [] => (c, None)
  | m :: hs' =>
      let '(r, rq) := Mapper_match m (req c) true in
      let c := Ctx rq (res c) (wld c) in
      if truthy r then
        match mhandler m with
        | HFunction _ =>
            let '(c', o) := Parser m c in (c', Some o)
        | HString content =>
            (res_end content (with_res (writeHead 200 html (res c)) c),
             Some Content)
        | HArray file =>
            let '(c', o) := writeFile (path_join (home Settings) file) c in
            (c', Some o)
        | HOther => (c, Some Unanswered)
        end
      else handle_loop hs' c
  end.

Definition Handler_handle (c : ctx) : ctx * option outcome :=
  handle_loop handlers c.

(** *** [fileHandler] *)

(** [new Date(req.headers["if-modified-since"] || 1)], as a number. *)
Definition cacheTime (rq : request) : option Z :=
  match headers rq !! "if-modified-since" with
  | Some h => if Js.truthy_str h then Date_parse h else Some 1
  | None => Some 1
  end.

(** [stat.mtime <= cacheTime]; an invalid date compares false. *)
Definition not_after (mtime : Z) (t : option Z) : bool :=
  match t with
  | Some ct => mtime <=? ct
  | None => false
  end.

Definition serve_file (phyPath : string) (mtime : Z) (c : ctx)
    : ctx * outcome :=
  if cache Settings && not_after mtime (cacheTime (req c)) then
    (res_end "" (with_res (writeHead 304 ∅ (res c)) c), NotModified)
  else
    writeFile phyPath
      (with_res (setHeader "Last-Modified" (toUTCString mtime) (res c)) c).

Definition handleDir (dirPath : string) (c : ctx) : ctx * outcome :=
  if listDir Settings then
    (res_end (ListDir_body (req c) dirPath (disk (wld c)))
       (with_res (writeHead 200 html (res c)) c),
     Listed)
  else (write403 c, Forbidden).

(** [url[url.length - 1]], with [""] for [undefined] *)
Definition last_char (s : string) : string :=
  Js.charAt s (Js.length s - 1).

(** [handlePath] with [handleDefault]: [depth] bounds how often a default
    page is itself a directory that has a default page. *)
Fixpoint handlePath (depth : nat) (url_ phyPath : string) (c : ctx)
    : ctx * outcome :=
  match disk (wld c) !! phyPath with
  | None => (write404 c, NotFound)
  | Some (FileNode mtime _) => serve_file phyPath mtime c
  | Some DirNode =>
      if Js.truthy_str (defaultPage Settings) then
        let defaultPath := path_join phyPath (defaultPage Settings) in
        match disk (wld c) !! defaultPath with
        | Some _ =>
            if decide (last_char url_ ≠ "/")
            then (redirect (url_ +:+ "/") c, Redirected)
            else match depth with
                 | O => (c, TooDeep)
                 | S depth' => handlePath depth' url_ defaultPath c
                 end
        | None => handleDir phyPath c
        end
      else handleDir phyPath c
  | Some OtherNode => (write404 c, NotFound)
  end.

Definition fileHandler (depth : nat) (c : ctx) : ctx * outcome :=
  let url_ := strip_query (url (req c)) in
  handlePath depth url_ (path_join (home Settings) url_) c.

(** *** [requestHandler] *)

(** The callback given to the chain:
    [!Handler.handle(req, res) && fileHandler(req, res)]. *)
Definition completion (depth : nat) (c : ctx) : ctx * outcome :=
  match Handler_handle c with
  | (c', Some o) => (c', o)
  | (c', None) => fileHandler depth c'
  end.

Definition requestHandler (depth : nat) (rq : request) (w : world)
    : filterChain * ctx * outcome :=
  next (FilterChain 0 (completion depth))
    (Ctx (set_params ∅ rq) fresh_response w).


(** *** [SessionParser.prototype.set] and [get] *)

(** Time passes between two requests. *)
Definition set_clock (t : Z) (w : world) : world :=
  World t (randoms w) (randomPos w) (objs w) (list_ w) (sweepEvery w) (disk w)
    (templatePool w) (defaultModel w) (pending w) (reads w).

Definition reserved : string := "__lastAccessTime".

(** What reading a key of a session object gives: a value, what the object
    inherits under that name from [Object.prototype], [undefined], or (for
    [get] without a key) the session object itself. *)
Inductive got :=
| GotValue (v : json)
| GotInherited (name : string)
| GotUndefined
| GotSession (o : loc).

(** [session[key] = val], as far as the model can follow it: a number under
    the reserved key is the new last-access time; under [__proto__] a
    string, number or boolean is ignored; under any other key the value
    becomes a property of the object.  [None] where the result is not a
    session the model can express: another value under the reserved key,
    or an object, an array or [null] under [__proto__] (it would become the
    prototype). *)
Definition write_key (key : string) (v : json) (s : session) : option session :=
  if decide (key = reserved) then
    match v with
    | JNum z => Some (Session (Some z) (sessionData s))
    | _ => None
    end
  else if decide (key = "__proto__") then
    match v with
    | JNum _ | JStr _ | JBool _ => Some s
    | _ => None
    end
  else Some (Session (lastAccessTime s) (<[key := v]> (sessionData s))).

(** [session[key]] *)
Definition read_key (key : string) (s : session) : got :=
  if decide (key = reserved) then
    match lastAccessTime s with
    | Some t => GotValue (JNum t)
    | None => GotUndefined
    end
  else
    match sessionData s !! key with
    | Some v => GotValue v
    | None => if Js.inherited key then GotInherited key else GotUndefined
    end.

(** [set(key, val)] on the session object at [o]: the time is set to the
    clock, then the key is written. *)
Definition SessionParser_set (o : loc) (key : string) (v : json) (w : world)
    : option world :=
  s ← write_key key v
         (Session (Some (clock w)) (sessionData (session_at w o)));
  Some (set_objs (<[o := s]> (objs w)) w).

(** [get(key)]: the time is set to the clock; the value under the key is
    returned, or the session object when the key is falsy. *)
Definition SessionParser_get (o : loc) (key : string) (w : world)
    : world * got :=
  let w := touch o w in
  (w, if Js.truthy_str key then read_key key (session_at w o)
      else GotSession o).

(** *** [FileStore.clear] *)

(** The value of a character as a digit in base 36, both cases of a letter
    being read alike. *)
Definition digit36 (c : ascii) : option N :=
  let n := nat_of_ascii c in
  if (48 <=? n)%nat && (n <=? 57)%nat then Some (N.of_nat (n - 48))
  else if (97 <=? n)%nat && (n <=? 122)%nat then Some (N.of_nat (n - 87))
  else if (65 <=? n)%nat && (n <=? 90)%nat then Some (N.of_nat (n - 55))
  else None.

(** The digits at the start of [s], up to the first character that is none. *)
Fixpoint parse_digits (s : string) (acc : N) : N :=
  match s with
  | String c s' =>
      match digit36 c with
      | Some d => parse_digits s' (acc * 36 + d)
      | None => acc
      end
  | EmptyString => acc
  end.

Definition is_space (c : ascii) : bool :=
  let n := nat_of_ascii c in
  (n =? 32)%nat || ((9 <=? n)%nat && (n <=? 13)%nat).

Fixpoint skip_space (s : string) : string :=
  match s with
  | String c s' => if is_space c then skip_space s' else s
  | EmptyString => s
  end.

(** [parseInt(s, 36)]: white space is skipped, a sign is read, then the
    digits; [None] stands for [NaN], the result when no digit follows.  Of
    the white space only the ASCII characters are modelled, and the value is
    exact where JavaScript rounds above 2^53. *)
Definition parseInt36 (s : string) : option Z :=
  let s := skip_space s in
  let '(sign, s) :=
    match s with
    | String "-" s' => (-1, s')
    | String "+" s' => (1, s')
    | _ => (1, s)
    end in
  match s with
  | String c _ =>
      match digit36 c with
      | Some _ => Some (sign * Z.of_N (parse_digits s 0))
      | None => None
      end
  | EmptyString => None
  end.

(** The test of [clear] on one file name of the session directory: [true]
    when [del(file)] is called. *)
Definition clear_test (now : Z) (file : string) : bool :=
  let expire := now - sessionTimeout Settings * 24 in
  let idx := Js.indexOf file "-" in
  if bool_decide (Z.of_nat (Js.length file) = sessionLength Settings)
     && (0 <? idx)
  then
    match parseInt36 (Js.substr_to file (Z.to_nat idx)) with
    | Some stamp => Js.truthy_num stamp && (stamp <? expire)
    | None => false
    end
  else false.

(** [clear] with the answer of [fs.readdir] ([None] for an error): the file
    names [del] is called with, in order. *)
Definition FileStore_clear (files : option (list string)) (now : Z)
    : list string :=
  match files with
  | None => []
  | Some files => filter (λ file, clear_test now file = true) files
  end.

(** *** Vocabulary of the statements *)

(** A request for [u] as [http] delivers it, before any stage has run. *)
Definition request_for (u : string) : request :=
  Request u ∅ "" ∅ None BodyUndefined None None.

(** [pat] occurs in [s] at offset [off]. *)
Definition occurs_at (pat s : string) (off : nat) : Prop :=
  String.prefix pat (Js.substr_from s off) = true.

(** The character after the occurrence of [pat] at [off] is the end of the
    string, a slash or a question mark. *)
Definition boundary_after (pat s : string) (off : nat) : Prop :=
  let ch := Js.charAt s (off + Js.length pat) in
  ch = "" ∨ ch = "/" ∨ ch = "?".

Definition strict_occurrence (pat s : string) : Prop :=
  ∃ off : nat, (off = 0 ∨ off = 1)%nat ∧ occurs_at pat s off
               ∧ boundary_after pat s off.

(** Segments of a parameterized expression and of a request path, and the
    path segment that stands against the [i]-th segment of the expression. *)
Definition expression_segments (E : string) : list string := Js.split "/" E.
Definition path_segments (P : string) : list string :=
  Js.split "/" (strip_query P).
Definition first_segment (E : string) : nat :=
  if decide (Js.charAt E 0 = "/") then 0%nat else 1%nat.
Definition corresponding (E P : string) (i : nat) : option string :=
  path_segments P !! (i + first_segment E)%nat.

(** Every literal segment of [E] equals the path segment against it. *)
Definition literals_agree (E P : string) : Prop :=
  ∀ i part, expression_segments E !! i = Some part → is_param part = false →
            corresponding E P i = Some part.

(** Some literal segment of [E] has another, or no, path segment against it. *)
Definition literal_differs (E P : string) : Prop :=
  ∃ i part, expression_segments E !! i = Some part ∧ is_param part = false
            ∧ corresponding E P i ≠ Some part.

(** [k] is the last position at which [parts] names the parameter [name]. *)
Definition last_named (parts : list string) (name : string) (k : nat) : Prop :=
  parts !! k = Some (String ":" name)
  ∧ ∀ j, (k < j)%nat → parts !! j ≠ Some (String ":" name).

(** [ps] holds, for each parameter of [E] other than [__proto__], the
    captured value of the path segment against it (the last one, if a name
    is used twice), and nothing else: a parameter named [__proto__] is not
    captured. *)
Definition captures (E P : string) (ps : gmap string string) : Prop :=
  ∀ name,
    (name ≠ "__proto__" →
     ∀ k, last_named (expression_segments E) name k →
          ps !! name = Some (capture (corresponding E P k)))
    ∧ (name = "__proto__"
       ∨ (∀ k, expression_segments E !! k ≠ Some (String ":" name)) →
       ps !! name = None).

(** The [_wsid] cookie of the request. *)
Definition sid_cookie (c : ctx) : option string :=
  default ∅ (cookies (req c)) !! sidKey.

(** The store handed over a session object that carries a last-access time
    (a time of 0, falsy, counts as none) within the timeout of the clock. *)
Definition fresh_stored (w : world) (sess : stored) : Prop :=
  ∃ o t, sess = StoredSession o ∧ lastAccessTime (session_at w o) = Some t
         ∧ t ≠ 0 ∧ clock w - t ≤ sessionTimeout Settings.

(** Every character of [s] is one of [CHARS]. *)
Fixpoint from_CHARS (s : string) : Prop :=
  match s with
  | String ch s' =>
      (∃ k, (k < 36)%nat ∧ Js.charAt CHARS k = String ch "") ∧ from_CHARS s'
  | EmptyString => True
  end.

(** A session id as [newID()] issues it at the time [now]: the time in
    base 36, a dash, the server id, and characters of [CHARS] as far as
    [sessionLength] asks for. *)
Definition issued_id (now : Z) (id : string) : Prop :=
  ∃ pad,
    id = toString36 now +:+ "-" +:+ serverID Settings +:+ pad
    ∧ from_CHARS pad
    ∧ Js.length pad
      = Z.to_nat (sessionLength Settings
                  - Z.of_nat (Js.length (toString36 now +:+ "-"
                                         +:+ serverID Settings))).

(** The line of the cookie that carries a new session id: the id under
    [_wsid], path [/], the session domain when one is set, http-only. *)
Definition session_cookie (id : string) : string :=
  sidKey +:+ "=" +:+ id +:+ "; path=/"
  +:+ (if Js.truthy_str (sessionDomain Settings)
       then "; domain=" +:+ sessionDomain Settings else "")
  +:+ "; httponly".

(** [c'] is [c] after the create path: a newly issued id, a new session
    object that holds the current time and nothing else, and a response
    that differs in one thing: the cookie line for that id is added to the
    cookies it is going to set. *)
Definition created (c c' : ctx) : Prop :=
  ∃ id o,
    id = (newID (wld c)).1
    ∧ issued_id (clock (wld c)) id
    ∧ reqSession (req c') = Some (SessionParser (Some id) (Some o))
    ∧ objs (wld c) !! o = None
    ∧ objs (wld c') !! o = Some (Session (Some (clock (wld c))) ∅)
    ∧ res c'
      = Response (statusCode (res c)) (resHeaders (res c)) (setCookie (res c))
          (headersSent (res c)) (resBody (res c)) (ended (res c))
          (resCookies (res c) ++ [session_cookie id]) (charset (res c)).

(** The message [handle] logs, and sends when [showError] is set, for an
    error with the given stack that is caught on [c']. *)
Definition error_message (c' : ctx) (stack : string) : string :=
  newline +:+ "Error " +:+ toISOString (clock (wld c')) +:+ " "
  +:+ url (req c') +:+ newline +:+ stack.

(** The body of the request does not decode under the rule's post mode. *)
Definition decode_fails (mode data : string) : Prop :=
  (mode = "json"
   ∧ JSON_parse (if Js.truthy_str data then data else "{}") = None)
  ∨ (mode = "qs" ∧ qs_parse data = None).

Definition empty_object : body := BodyValue (JObj []).

(** The template and every file it includes are in the cache (which is
    then enabled) with a non-empty text. *)
Definition primed (w : world) (tmplUrl : string) : Prop :=
  in_cache w tmplUrl = true
  ∧ ∀ fileStr, Incl fileStr ∈ scan (pooled w tmplUrl) 0 →
               in_cache w (includeFile fileStr) = true.

(** The file behind a template name can be read and is not empty. *)
Definition stored_text (w : world) (filename : string) : Prop :=
  ∃ t, file_content w (template_path filename) = Some t ∧ t ≠ "".

(** The included files of [ps] that are not in the cache: the reads a
    substitution starts. *)
Fixpoint missing (w : world) (ps : list piece) : list string :=
  match ps with
  | [] => []
  | Chr _ :: ps' => missing w ps'
  | Incl fileStr :: ps' =>
      if in_cache w (includeFile fileStr) then missing w ps'
      else includeFile fileStr :: missing w ps'
  end.

(** Nothing has been sent or written on the response. *)
Definition untouched (r : response) : Prop :=
  ended r = false ∧ headersSent r = false ∧ resBody r = "".

(** The request carries an [If-Modified-Since] header that reads as the
    date [d]. *)
Definition modified_since (rq : request) (d : Z) : Prop :=
  ∃ h, headers rq !! "if-modified-since" = Some h ∧ h ≠ ""
       ∧ Date_parse h = Some d.

(** The body the settings prescribe for a 404: the custom template,
    rendered with a null model, when [Settings["404"]] is set, and the
    plain text otherwise. *)
Definition fallback_404 (w : world) : string :=
  if Js.truthy_str (tmpl404 Settings)
  then (render_template (tmpl404 Settings) JNull w).2
  else "File not found!".

(** The character [ch] does not occur in [s]. *)
Definition lacks (ch : ascii) (s : string) : Prop :=
  Js.find s (String ch "") = None.

(** [pieces.join(sep)] for a one-character separator. *)
Fixpoint join (sep : ascii) (pieces : list string) : string :=
  match pieces with
  | [] => ""
  | [p] => p
  | p :: rest => p +:+ String sep (join sep rest)
  end.

(** One [name=value] piece of a [Cookie] header. *)
Definition cookie_pair (kv : string * string) : string :=
  kv.1 +:+ String "=" kv.2.

(** [s] is made of ASCII characters (on which the model's white space is
    that of JavaScript, and a character is a byte). *)
Fixpoint ascii_only (s : string) : Prop :=
  match s with
  | String c s' => (nat_of_ascii c < 128)%nat ∧ ascii_only s'
  | EmptyString => True
  end.

(** Every character of [s] is a digit in base 36. *)
Fixpoint all_digits (s : string) : Prop :=
  match s with
  | String c s' => is_Some (digit36 c) ∧ all_digits s'
  | EmptyString => True
  end.

(** The include marker for the file [name]. *)
Definition marker (name : string) : string :=
  includeBegin +:+ name +:+ includeAfter.

(** Every character of [s] may stand in the file name of a marker. *)
Fixpoint name_chars (s : string) : Prop :=
  match s with
  | String c s' => is_name_char c = true ∧ name_chars s'
  | EmptyString => True
  end.

(** The request carries an [If-Modified-Since] header that does not read
    as a date. *)
Definition invalid_since (rq : request) : Prop :=
  ∃ h, headers rq !! "if-modified-since" = Some h ∧ h ≠ ""
       ∧ Date_parse h = None.

(** The directory [dirPath] has the configured default page. *)
Definition has_default (w : world) (dirPath : string) : Prop :=
  defaultPage Settings ≠ ""
  ∧ is_Some (disk w !! path_join dirPath (defaultPage Settings)).

(** ** Properties *)

(** ** String primitives *)

Lemma prefix_substr (pat s : string) :
  String.prefix pat s = true → Js.substr_to s (Js.length pat) = pat.
Proof.
  revert s. induction pat as [|a pat IH]; intros [|b s]; simpl; try done.
  destruct (ascii_dec a b) as [->|]; [|done].
  intros H. by rewrite (IH s H).
Qed.

Lemma find_occurs (s pat : string) (n : nat) :
  Js.find s pat = Some n → String.prefix pat (Js.substr_from s n) = true.
Proof.
  revert n. induction s as [|c s IH]; intros n; cbn [Js.find].
  - destruct (String.prefix pat "") eqn:E; [|done].
    intros [= <-]. exact E.
  - destruct (String.prefix pat (String c s)) eqn:E.
    + intros [= <-]. exact E.
    + destruct (Js.find s pat) as [k|] eqn:F; [|done].
      intros [= <-]. cbn [Js.substr_from]. by apply IH.
Qed.

Lemma indexOf_spec (s pat : string) :
  (Js.indexOf s pat = -1 ∧ Js.find s pat = None)
  ∨ ∃ n, Js.indexOf s pat = Z.of_nat n ∧ Js.find s pat = Some n.
Proof.
  unfold Js.indexOf. destruct (Js.find s pat) as [n|]; [right|left]; eauto.
Qed.

(** ** Pattern matcher *)

Lemma matchString_strict (rq : request) (expression : string) :
  Js.indexOf expression "/:" < 0 →
  truthy (matchString rq true expression).1 = true →
  strict_occurrence expression (url rq).
Proof.
  intros Hlit. unfold matchString.
  apply Z.ltb_lt in Hlit as ->.
  destruct (indexOf_spec (url rq) expression) as [[-> _]|(n & -> & Hfind)];
    [done|].
  destruct ((Z.of_nat n =? 0) || (Z.of_nat n =? 1)) eqn:Hoff; [|done].
  rewrite Nat2Z.id. cbn [fst].
  intros Hb. exists n. split; [|split].
  - apply orb_true_iff in Hoff as [H%Z.eqb_eq|H%Z.eqb_eq]; lia.
  - by apply find_occurs.
  - unfold boundary_after.
    destruct (bool_decide _) eqn:E1; [apply bool_decide_eq_true in E1; auto|].
    destruct (bool_decide (_ = "/")) eqn:E2;
      [apply bool_decide_eq_true in E2; auto|].
    destruct (bool_decide (_ = "?")) eqn:E3;
      [apply bool_decide_eq_true in E3; auto|].
    done.
Qed.

(** C2. In handler (strict) mode an expression without parameter markers
    matches only if it occurs in the request path at offset 0 or 1 and the
    character after the occurrence is the end of the path, ['/'] or ['?'];
    this holds of [matchString] and of [match] on a rule whose expression is
    that string.  ['/m'] does not match ['/more/x'] and matches ['/m'],
    ['/m/x'] and ['/m?x=1']. *)
Theorem strict_literal_match (m : mapper) (rq : request) (expression : string) :
  Js.indexOf expression "/:" < 0 →
  mexpression m = EString expression →
  expression ≠ "" →
  (truthy (matchString rq true expression).1 = true →
   strict_occurrence expression (url rq))
  ∧ (truthy (Mapper_match m rq true).1 = true →
     strict_occurrence expression (url rq))
  ∧ (matchString (request_for "/more/x") true "/m").1 = MFalse
  ∧ (matchString (request_for "/m") true "/m").1 = MTrue
  ∧ (matchString (request_for "/m/x") true "/m").1 = MTrue
  ∧ (matchString (request_for "/m?x=1") true "/m").1 = MTrue.
Proof.
  intros Hlit Hm Hne. split; [by apply matchString_strict|].
  split; [|by vm_compute].
  unfold Mapper_match, match_expression. rewrite Hm.
  unfold Js.truthy_str. rewrite bool_decide_eq_true_2 by done.
  by apply matchString_strict.
Qed.

Lemma is_param_inv (part : string) :
  is_param part = true → part = String ":" (Js.substr_from part 1).
Proof.
  unfold is_param, Js.charAt. intros H%bool_decide_eq_true.
  destruct part as [|a part]; simpl in H; [discriminate H|].
  injection H as ->. done.
Qed.

Lemma is_param_colon (name : string) : is_param (String ":" name) = true.
Proof. done. Qed.

Lemma loop_None (parts urls : list string) (start i : nat)
    (acc : gmap string string) :
  parseUrl_loop parts urls start i acc = None ↔
  ∃ k part, parts !! k = Some part ∧ is_param part = false
            ∧ urls !! (i + k + start)%nat ≠ Some part.
Proof.
  revert i acc. induction parts as [|part rest IH]; intros i acc; simpl.
  - split; [done|]. by intros (k & p & ? & _).
  - destruct (is_param part) eqn:Hp.
    + rewrite IH. split.
      * intros (k & p & Hk & Hl & Hd). exists (S k), p. simpl.
        repeat split; try done. by replace (i + S k + start)%nat
          with (S i + k + start)%nat by lia.
      * intros ([|k] & p & Hk & Hl & Hd); simpl in Hk.
        { congruence. }
        exists k, p. repeat split; try done.
        by replace (S i + k + start)%nat with (i + S k + start)%nat by lia.
    + destruct (decide (Some part ≠ urls !! (i + start)%nat)) as [Hne|He].
      * split; [|done]. intros _. exists 0%nat, part. simpl.
        repeat split; try done. rewrite Nat.add_0_r. congruence.
      * rewrite IH. split.
        -- intros (k & p & Hk & Hl & Hd). exists (S k), p. simpl.
           repeat split; try done. by replace (i + S k + start)%nat
             with (S i + k + start)%nat by lia.
        -- intros ([|k] & p & Hk & Hl & Hd); simpl in Hk.
           { injection Hk as <-. rewrite Nat.add_0_r in Hd.
             exfalso. apply He. congruence. }
           exists k, p. repeat split; try done.
           by replace (S i + k + start)%nat with (i + S k + start)%nat by lia.
Qed.

Lemma lookup_set_own_eq {V} (k : string) (v : V) (m : gmap string V) :
  k ≠ "__proto__" → Js.set_own k v m !! k = Some v.
Proof.
  intros H. unfold Js.set_own. rewrite decide_False by done.
  apply lookup_insert_eq.
Qed.

Lemma lookup_set_own_ne {V} (k k' : string) (v : V) (m : gmap string V) :
  k ≠ k' → Js.set_own k v m !! k' = m !! k'.
Proof.
  intros H. unfold Js.set_own. destruct (decide (k = "__proto__")); [done|].
  by apply lookup_insert_ne.
Qed.

Lemma lookup_set_own_proto {V} (k : string) (v : V) (m : gmap string V) :
  Js.set_own k v m !! "__proto__" = m !! "__proto__".
Proof.
  unfold Js.set_own. destruct (decide (k = "__proto__")); [done|].
  by apply lookup_insert_ne.
Qed.

Lemma loop_Some (parts urls : list string) (start i : nat)
    (acc ps : gmap string string) (name : string) :
  parseUrl_loop parts urls start i acc = Some ps →
  (name ≠ "__proto__" →
   ∀ k, last_named parts name k →
        ps !! name = Some (capture (urls !! (i + k + start)%nat)))
  ∧ (name = "__proto__" ∨ (∀ k, parts !! k ≠ Some (String ":" name)) →
     ps !! name = acc !! name).
Proof.
  revert i acc. induction parts as [|part rest IH]; intros i acc;
    cbn [parseUrl_loop].
  - intros [= <-]. split; [|done]. by intros _ k [? _].
  - destruct (is_param part) eqn:Hp.
    + intros Hloop. destruct (IH _ _ Hloop) as [IH1 IH2].
      pose proof (is_param_inv _ Hp) as Hpart. split.
      * intros Hname [|k] [Hk Hlast]; simpl in Hk.
        -- rewrite IH2.
           ++ injection Hk as ->. cbn [Js.substr_from].
              by rewrite lookup_set_own_eq, Nat.add_0_r.
           ++ right. intros k Hk'. by apply (Hlast (S k)); [lia|].
        -- replace (i + S k + start)%nat with (S i + k + start)%nat by lia.
           apply IH1; [done|]. split; [done|].
           intros j Hj. apply (Hlast (S j)). lia.
      * intros [->|Hno].
        -- rewrite IH2 by (by left). apply lookup_set_own_proto.
        -- rewrite IH2.
           ++ apply lookup_set_own_ne. intros Heq.
              apply (Hno 0%nat). simpl. congruence.
           ++ right. intros k. apply (Hno (S k)).
    + destruct (decide (Some part ≠ urls !! (i + start)%nat)); [done|].
      intros Hloop. destruct (IH _ _ Hloop) as [IH1 IH2]. split.
      * intros Hname [|k] [Hk Hlast]; simpl in Hk.
        -- injection Hk as ->. rewrite is_param_colon in Hp. discriminate Hp.
        -- replace (i + S k + start)%nat with (S i + k + start)%nat by lia.
           apply IH1; [done|]. split; [done|].
           intros j Hj. apply (Hlast (S j)). lia.
      * intros [->|Hno]; apply IH2; [by left|].
        right. intros k. apply (Hno (S k)).
Qed.

Lemma parseUrl_None (E P : string) :
  parseUrl E P = None ↔ literal_differs E P.
Proof.
  unfold parseUrl, literal_differs, corresponding, path_segments,
    expression_segments, first_segment.
  rewrite loop_None. by setoid_rewrite Nat.add_0_l.
Qed.

Lemma parseUrl_Some (E P : string) (ps : gmap string string) :
  parseUrl E P = Some ps → captures E P ps.
Proof.
  intros H name.
  destruct (loop_Some _ _ _ _ _ _ name H) as [H1 H2]. split.
  - intros Hname k Hk. by rewrite (H1 Hname k Hk).
  - intros Hno. rewrite H2; [apply lookup_empty | done].
Qed.

Lemma agree_not_differs (E P : string) :
  literals_agree E P → ¬ literal_differs E P.
Proof. intros Ha (i & part & Hi & Hl & Hd). by apply Hd, Ha. Qed.

Lemma prefix_empty (s : string) : String.prefix "" s = true.
Proof. by destruct s. Qed.

Lemma find_past (p q : string) :
  Js.find p "?" = None →
  Js.find (p +:+ String "?" q) "?" = Some (Js.length p).
Proof.
  induction p as [|c p IH].
  { intros _. by destruct q. }
  change (String c p +:+ String "?" q) with (String c (p +:+ String "?" q)).
  cbn [Js.find]. cbn [String.prefix].
  destruct (ascii_dec "?" c) as [<-|Hc]; [by rewrite !prefix_empty|].
  destruct (Js.find p "?"); [done|]. intros _. by rewrite IH.
Qed.

Lemma substr_to_app (p q : string) : Js.substr_to (p +:+ q) (Js.length p) = p.
Proof.
  induction p as [|c p IH]; [by destruct q|].
  change (String c p +:+ q) with (String c (p +:+ q)). simpl. by rewrite IH.
Qed.

Lemma strip_query_cut (p q : string) :
  p ≠ "" → Js.find p "?" = None → strip_query (p +:+ String "?" q) = p.
Proof.
  intros Hp Hf. unfold strip_query, Js.indexOf. rewrite (find_past _ _ Hf).
  destruct p as [|c p]; [done|].
  replace (0 <? Z.of_nat (Js.length (String c p))) with true.
  - rewrite Nat2Z.id. apply substr_to_app.
  - symmetry. apply Z.ltb_lt. simpl. lia.
Qed.

(** C1, as the code has it.  For a parameterized expression [E] and a request
    path [P], segmented after the query string is cut off: if every literal
    segment of [E] equals the path segment against it, [matchString] returns
    the object of parameters, each holding the URL-decoded path segment
    against it (the raw segment when decoding fails, [""] when the path has
    no segment there), and merges it into [req.params]; if some literal
    segment differs it returns [false] and leaves the request alone; and
    [false] is told apart from an object by truthiness.  The number of
    segments is not compared.  A parameter named [__proto__] is the one
    exception to the capture: the object of parameters gets no property of
    that name. *)
Theorem parameterized_match (rq : request) (isHandler : bool) (E : string) :
  0 ≤ Js.indexOf E "/:" →
  (literals_agree E (url rq) →
   ∃ ps, matchString rq isHandler E
           = (MParams ps, set_params (extend (params rq) ps) rq)
         ∧ captures E (url rq) ps)
  ∧ (literal_differs E (url rq) → matchString rq isHandler E = (MFalse, rq))
  ∧ (∀ ps, truthy (MParams ps) = true ∧ truthy MFalse = false)
  ∧ (∀ p q, p ≠ "" → Js.find p "?" = None →
            path_segments (p +:+ String "?" q) = path_segments p)
  ∧ (∀ seg d, Uri.decodeURIComponent seg = Some d → capture (Some seg) = d)
  ∧ (∀ seg, Uri.decodeURIComponent seg = None → capture (Some seg) = seg)
  ∧ capture None = "".
Proof.
  intros Hpar. unfold matchString.
  replace (Js.indexOf E "/:" <? 0) with false by (symmetry; apply Z.ltb_ge; lia).
  split; [|split; [|split; [|split; [|split; [|split]]]]].
  5: { intros seg d H. unfold capture. simpl. by rewrite H. }
  5: { intros seg H. unfold capture. simpl. by rewrite H. }
  5: { by vm_compute. }
  - intros Ha. destruct (parseUrl E (url rq)) as [ps|] eqn:Hp.
    + exists ps. split; [done|]. by apply parseUrl_Some.
    + apply parseUrl_None in Hp. by destruct (agree_not_differs _ _ Ha).
  - intros Hd. apply parseUrl_None in Hd. by rewrite Hd.
  - done.
  - intros p q Hp Hf. unfold path_segments.
    rewrite (strip_query_cut _ _ Hp Hf).
    unfold strip_query, Js.indexOf. by rewrite Hf.
Qed.

(** C1 as stated fails: the expression has four segments and the path three,
    yet the match succeeds; so it does when the path has a segment more. *)
Lemma segment_count_not_compared :
  length (expression_segments "/home/:key/:pager")
    ≠ length (path_segments "/home/JavaScript")
  ∧ (matchString (request_for "/home/JavaScript") true "/home/:key/:pager").1
    = MParams {[ "key" := "JavaScript"; "pager" := "" ]}
  ∧ length (expression_segments "/home/:id")
    ≠ length (path_segments "/home/42/extra")
  ∧ (matchString (request_for "/home/42/extra") true "/home/:id").1
    = MParams {[ "id" := "42" ]}.
Proof. repeat split; try (vm_compute; done). Qed.

(** *** Memory store *)

Lemma the_list_set (l : gmap string loc) (w : world) :
  the_list (set_list l w) = l.
Proof. done. Qed.

(** What the sweep leaves in [list]: the entries whose session passes
    [sweep_valid], and those only. *)
Lemma clearHandler_lookup (w : world) (l : gmap string loc) (i : string) :
  list_ w = Some l →
  the_list (clearHandler w) !! i
  = match l !! i with
    | Some o => if sweep_valid (clock w) (session_at w o) then Some o else None
    | None => None
    end.
Proof.
  intros Hl. unfold clearHandler. rewrite Hl.
  set (f := λ (sid : string) (o : loc) (acc : world),
              if sweep_valid (clock w) (session_at w o) then acc
              else MemoryStore_del sid acc).
  set (P := λ (r : world) (m : gmap string loc),
              is_Some (list_ r) ∧
              ∀ j, the_list r !! j
                   = match m !! j with
                     | Some o => if sweep_valid (clock w) (session_at w o)
                                 then l !! j else None
                     | None => l !! j
                     end).
  assert (∀ m : gmap string loc, P (map_fold f w m) m) as H.
  { apply (map_fold_weak_ind P f w); unfold P.
    - split; [by rewrite Hl|]. intros j. rewrite lookup_empty.
      unfold the_list. by rewrite Hl.
    - intros k o m r Hk [[lr Hr] IH].
      change (f k o r) with (if sweep_valid (clock w) (session_at w o)
                             then r else MemoryStore_del k r).
      destruct (sweep_valid (clock w) (session_at w o)) eqn:Hv.
      + split; [by rewrite Hr|]. intros j. rewrite IH.
        destruct (decide (k = j)) as [->|Hne].
        * by rewrite lookup_insert_eq, Hk, Hv.
        * by rewrite lookup_insert_ne.
      + unfold MemoryStore_del. rewrite Hr. split; [done|].
        intros j. rewrite the_list_set.
        destruct (decide (k = j)) as [->|Hne].
        * by rewrite lookup_delete_eq, lookup_insert_eq, Hv.
        * rewrite lookup_delete_ne, lookup_insert_ne by done.
          rewrite <- IH. unfold the_list. by rewrite Hr. }
  destruct (H l) as [_ ->]. destruct (l !! i) as [o|] eqn:Hi; [|done].
  by destruct (sweep_valid _ _).
Qed.

(** A session with a last-access time other than 0 and other than the
    current instant passes the sweep's test, whatever its age. *)
Lemma sweep_valid_any_age (now t : Z) (d : gmap string json) :
  t ≠ 0 → t ≠ now → sweep_valid now (Session (Some t) d) = true.
Proof.
  intros H0 Hn. unfold sweep_valid, Js.truthy_num. simpl.
  rewrite !bool_decide_eq_true_2 by lia. done.
Qed.


Lemma the_list_ensure (w : world) : the_list (ensure_list w) = the_list w.
Proof.
  unfold ensure_list, the_list.
  destruct (list_ w) eqn:E; simpl; by rewrite ?E.
Qed.

Lemma objs_ensure (w : world) : objs (ensure_list w) = objs w.
Proof. unfold ensure_list. by destruct (list_ w). Qed.

Lemma fresh_unused (w : world) : objs w !! fresh (dom (objs w)) = None.
Proof. apply not_elem_of_dom, is_fresh. Qed.

(** *** Strings and session ids *)

Lemma CHARS_digit (k : nat) :
  (k < 36)%nat →
  ∃ c, Js.charAt CHARS k = String c "" ∧ digit36 c = Some (N.of_nat k).
Proof.
  intros Hk.
  do 36 (destruct k as [|k]; [by eexists|]). lia.
Qed.

Lemma append_assoc (a b c : string) : (a +:+ b) +:+ c = a +:+ (b +:+ c).
Proof.
  induction a as [|x a IH]; [done|].
  change ((String x a +:+ b) +:+ c) with (String x ((a +:+ b) +:+ c)).
  by rewrite IH.
Qed.

Lemma mod36_lt (n : N) : (N.to_nat (n mod 36) < 36)%nat.
Proof. pose proof (N.mod_upper_bound n 36). lia. Qed.

Lemma length_app (a b : string) :
  Js.length (a +:+ b) = (Js.length a + Js.length b)%nat.
Proof.
  unfold Js.length. induction a as [|c a IH]; [done|].
  change (String c a +:+ b) with (String c (a +:+ b)).
  cbn [String.length]. by rewrite IH.
Qed.

Lemma CHARS_char (k : nat) :
  (k < 36)%nat → Js.length (Js.charAt CHARS k) = 1%nat.
Proof.
  intros Hk. do 36 (destruct k as [|k]; [reflexivity|]). lia.
Qed.

Lemma random_chars_length (count : nat) (w : world) :
  Js.length (random_chars count w) = count.
Proof.
  unfold random_chars. generalize 0%nat at 2.
  induction count as [|count IH]; intros start; [done|].
  cbn [seq foldr]. rewrite length_app, IH, CHARS_char; [done|].
  apply Nat.mod_upper_bound. done.
Qed.

Lemma from_CHARS_random (count : nat) (w : world) :
  from_CHARS (random_chars count w).
Proof.
  unfold random_chars. generalize 0%nat at 2.
  induction count as [|count IH]; intros start; [done|].
  cbn [seq foldr].
  destruct (CHARS_digit (randoms w (randomPos w + start) mod 36))
    as (ch & Hch & _); [by apply Nat.mod_upper_bound|].
  rewrite Hch. split; [|apply IH].
  exists (randoms w (randomPos w + start) mod 36)%nat.
  split; [by apply Nat.mod_upper_bound|done].
Qed.

Lemma newID_issued (w : world) : issued_id (clock w) (newID w).1.
Proof.
  unfold issued_id, newID. cbn [fst].
  exists (random_chars
            (Z.to_nat (sessionLength Settings
                       - Z.of_nat (Js.length (toString36 (clock w) +:+ "-"
                                              +:+ serverID Settings)))) w).
  split; [by rewrite append_assoc|].
  split; [apply from_CHARS_random|apply random_chars_length].
Qed.

Lemma Cookie_session (id : string) (r : response) :
  Cookie sidKey (Some id)
    (CookieOptions None "/" (sessionDomain Settings) false true) r
  = Response (statusCode r) (resHeaders r) (setCookie r) (headersSent r)
      (resBody r) (ended r) (resCookies r ++ [session_cookie id]) (charset r).
Proof.
  unfold Cookie, session_cookie. cbn [expires cpath domain secure httponly].
  do 3 f_equal.
  change (Js.truthy_str "/") with true. cbv iota.
  destruct (Js.truthy_str (sessionDomain Settings)).
  - by rewrite !append_assoc.
  - rewrite !append_assoc. done.
Qed.

Lemma isValid_fresh_stored (w : world) (sess : stored) :
  isValid w sess = true ↔ fresh_stored w sess.
Proof.
  unfold isValid, fresh_stored. split.
  - destruct sess as [o|name|]; [|done..].
    destruct (lastAccessTime (session_at w o)) as [t|] eqn:Ht; [|done].
    intros [H0 Hle]%andb_true_iff. exists o, t.
    apply bool_decide_eq_true in H0. apply Z.leb_le in Hle. done.
  - intros (o & t & -> & -> & H0 & Hle).
    apply andb_true_iff. split; [by apply bool_decide_eq_true|].
    by apply Z.leb_le.
Qed.

Lemma isValid_empty (w : world) (o : loc) :
  objs w !! o = Some empty_session → isValid w (StoredSession o) = false.
Proof. intros H. unfold isValid, session_at. by rewrite H. Qed.

Lemma setSession_created (c : ctx) : created c (setSession c).
Proof.
  unfold created. destruct c as [rq rs w].
  exists (newID w).1, (fresh (dom (objs w))). cbn [wld res req].
  split; [done|]. split; [apply newID_issued|].
  unfold setSession, SessionParser_create, alloc. cbn [wld res req].
  destruct (newID w) as [i w'] eqn:Hid. cbn [fst sid req res wld reqSession
    set_session].
  assert (objs w' = objs w ∧ clock w' = clock w) as [Ho Hc].
  { unfold newID in Hid. by injection Hid as _ <-. }
  rewrite Ho, Hc. split; [done|]. split; [apply fresh_unused|].
  split; [cbn [objs set_objs]; by rewrite lookup_insert_eq|].
  apply Cookie_session.
Qed.

(** C10, as the code has it.  [MemoryStore.get] never hands [undefined]
    to its callback.  For an id that [list] does not hold and that is not
    a name inherited from [Object.prototype], it first puts a new empty
    object under the id and hands over that object: it has no last-access
    time, fails the validity check of [getSession], and so sends [init]
    down the delete-and-create path.  For an inherited name ([toString],
    [constructor], [__proto__], ...) that [list] does not hold, nothing is
    put into [list]: the inherited value is handed over, which is no
    session object, fails the validity check as well and leads down the
    same path. *)
Theorem MemoryStore_get_never_absent (sidVal : string) (c : ctx) :
  the_list (wld c) !! sidVal = None →
  (∀ i w, (MemoryStore_get i w).2 ≠ StoredUndefined)
  ∧ (Js.inherited sidVal = false →
     ∃ o w',
       MemoryStore_get sidVal (wld c) = (w', StoredSession o)
       ∧ objs (wld c) !! o = None
       ∧ the_list w' !! sidVal = Some o
       ∧ objs w' !! o = Some empty_session
       ∧ lastAccessTime empty_session = None
       ∧ isValid w' (StoredSession o) = false
       ∧ getSession sidVal (StoredSession o) (Ctx (req c) (res c) w')
         = setSession (Ctx (req c) (res c) (store_del SessionStore sidVal w')))
  ∧ (Js.inherited sidVal = true →
     ∃ w',
       MemoryStore_get sidVal (wld c) = (w', StoredInherited sidVal)
       ∧ the_list w' !! sidVal = None
       ∧ the_list w' = the_list (wld c)
       ∧ objs w' = objs (wld c)
       ∧ isValid w' (StoredInherited sidVal) = false
       ∧ getSession sidVal (StoredInherited sidVal) (Ctx (req c) (res c) w')
         = setSession (Ctx (req c) (res c) (store_del SessionStore sidVal w'))).
Proof.
  intros Habs. split; [|split].
  - intros i w. unfold MemoryStore_get.
    destruct (the_list (ensure_list w) !! i); [done|].
    by destruct (Js.inherited i).
  - intros Hown. unfold MemoryStore_get. rewrite the_list_ensure, Habs, Hown.
    eexists _, _. split; [done|]. rewrite objs_ensure.
    split; [apply fresh_unused|].
    split; [by rewrite the_list_set, lookup_insert_eq|].
    split; [simpl; by rewrite lookup_insert_eq|].
    split; [done|].
    split; [apply isValid_empty; simpl; by rewrite lookup_insert_eq|].
    unfold getSession.
    rewrite isValid_empty; [done|]. simpl. by rewrite lookup_insert_eq.
  - intros Hinh. unfold MemoryStore_get. rewrite the_list_ensure, Habs, Hinh.
    eexists. split; [done|]. rewrite the_list_ensure, objs_ensure.
    by repeat split.
Qed.

(** C4. [init] with the [_wsid] cookie absent (or empty), or of a length
    other than [sessionLength], takes the create path: an id is issued (the
    time in base 36, a dash, the server id, random characters up to
    [sessionLength]), the cookie line for it ([_wsid], path [/], the session
    domain, http-only) is added to the cookies of the response, and a new
    session object holding the current time is attached.  With a cookie
    of the right length the store is asked; the session it hands over is
    attached, and its time set to the clock, exactly when it carries a
    last-access time that lies within the timeout; otherwise the store is
    told to delete the id and the create path is taken. *)
Theorem session_lifecycle (c : ctx) :
  ((sid_cookie c = None ∨ sid_cookie c = Some ""
    ∨ ∃ v, sid_cookie c = Some v ∧ Z.of_nat (Js.length v) ≠ sessionLength Settings) →
   SessionParser_init c = setSession c ∧ created c (setSession c))
  ∧ (∀ v, sid_cookie c = Some v → v ≠ "" →
          Z.of_nat (Js.length v) = sessionLength Settings →
          let w1 := (store_get SessionStore v (wld c)).1 in
          let sess := (store_get SessionStore v (wld c)).2 in
          let c1 := Ctx (req c) (res c) (store_del SessionStore v w1) in
          (fresh_stored w1 sess →
           ∃ o, sess = StoredSession o
                ∧ SessionParser_init c
                  = Ctx (set_session (SessionParser (Some v) (Some o)) (req c))
                      (res c) (touch o w1)
                ∧ lastAccessTime (session_at (touch o w1) o) = Some (clock w1))
          ∧ (¬ fresh_stored w1 sess →
             SessionParser_init c = setSession c1
             ∧ created c1 (setSession c1))).
Proof.
  split.
  - intros H. split; [|apply setSession_created].
    unfold SessionParser_init. fold (sid_cookie c).
    destruct H as [->|[->|(v & -> & Hlen)]]; [done..|].
    rewrite (bool_decide_eq_false_2 _ Hlen). by rewrite orb_true_r.
  - intros v Hc Hne Hlen w1 sess c1.
    assert (SessionParser_init c = getSession v sess (Ctx (req c) (res c) w1))
      as ->.
    { unfold SessionParser_init. fold (sid_cookie c). rewrite Hc.
      unfold Js.truthy_str. rewrite (bool_decide_eq_true_2 _ Hne).
      rewrite (bool_decide_eq_true_2 _ Hlen). simpl.
      subst w1 sess. by destruct (store_get SessionStore v (wld c)). }
    unfold getSession. simpl. split.
    + intros Hf. pose proof Hf as (o & t & -> & _).
      apply isValid_fresh_stored in Hf as ->. exists o.
      repeat split. unfold session_at, touch. simpl.
      by rewrite lookup_insert_eq.
    + intros Hn. split; [|apply setSession_created].
      destruct (isValid w1 sess) eqn:Hv; [|done].
      by apply isValid_fresh_stored in Hv.
Qed.


(** *** Filter chain *)

Lemma matchString_falsy (rq : request) (h : bool) (e : string) :
  truthy (matchString rq h e).1 = false → (matchString rq h e).2 = rq.
Proof.
  unfold matchString.
  destruct (Js.indexOf e "/:" <? 0).
  - destruct h; [|done]. by destruct (_ || _).
  - by destruct (parseUrl e (url rq)).
Qed.

Lemma match_array_falsy (rq : request) (h : bool) (l : list string) :
  truthy (match_array rq h l).1 = false → (match_array rq h l).2 = rq.
Proof.
  revert rq. induction l as [|e l IH]; intros rq; [done|]. simpl.
  pose proof (matchString_falsy rq h e) as He.
  destruct (matchString rq h e) as [r rq']. simpl in He.
  destruct (truthy r); [done|]. rewrite He by done. apply IH.
Qed.

(** A rule that does not match leaves the request as it was. *)
Lemma match_falsy_req (m : mapper) (rq : request) (h : bool) :
  truthy (Mapper_match m rq h).1 = false → (Mapper_match m rq h).2 = rq.
Proof.
  unfold Mapper_match, match_expression.
  destruct (mexpression m) as [|e|test|l|]; try done.
  - destruct (Js.truthy_str e); [apply matchString_falsy | done].
  - apply match_array_falsy.
Qed.

(** [next], unfolded once. *)
Lemma next_unfold_once (fc : filterChain) (c : ctx) :
  next fc c
  = match filters !! idx fc with
    | None => (advance fc, (cb fc c).1, (cb fc c).2)
    | Some mapper =>
        let '(r, rq) := Mapper_match mapper (req c) false in
        let c := Ctx rq (res c) (wld c) in
        if truthy r then
          match Parser mapper c with
          | (c', Invoked true) => next (advance fc) c'
          | (c', o) => (advance fc, c', o)
          end
        else next (advance fc) c
    end.
Proof.
  rewrite next_equation_1.
  destruct (inspect (filters !! idx fc)) as [[m|] e]; simp next; by rewrite e.
Qed.

Lemma next_none (fc : filterChain) (c : ctx) :
  filters !! idx fc = None →
  next fc c = (advance fc, (cb fc c).1, (cb fc c).2).
Proof. intros H. by rewrite next_unfold_once, H. Qed.

Lemma next_no_match (fc : filterChain) (c : ctx) (m : mapper) :
  filters !! idx fc = Some m →
  truthy (Mapper_match m (req c) false).1 = false →
  next fc c = next (advance fc) c.
Proof.
  intros Hm Hr. pose proof (match_falsy_req _ _ _ Hr) as Hq.
  rewrite next_unfold_once, Hm.
  destruct (Mapper_match m (req c) false) as [r rq]. simpl in *.
  rewrite Hr, Hq. by destruct c.
Qed.

Lemma next_match (fc : filterChain) (c c' : ctx) (m : mapper) (o : outcome) :
  filters !! idx fc = Some m →
  truthy (Mapper_match m (req c) false).1 = true →
  Parser m (Ctx (Mapper_match m (req c) false).2 (res c) (wld c)) = (c', o) →
  next fc c = if decide (o = Invoked true) then next (advance fc) c'
              else (advance fc, c', o).
Proof.
  intros Hm Hr Hp. rewrite next_unfold_once, Hm.
  destruct (Mapper_match m (req c) false) as [r rq]. simpl in *.
  rewrite Hr, Hp. destruct o as [| |[|]| | | | | | | | | | |]; done.
Qed.

(** Rules that do not match are passed over without running anything. *)
Lemma next_skips (k : nat) (fc : filterChain) (c : ctx) :
  (∀ i, (idx fc ≤ i < idx fc + k)%nat →
        ∃ m, filters !! i = Some m
             ∧ truthy (Mapper_match m (req c) false).1 = false) →
  next fc c = next (FilterChain (idx fc + k) (cb fc)) c.
Proof.
  revert fc. induction k as [|k IH]; intros fc H.
  - rewrite Nat.add_0_r. by destruct fc.
  - destruct (H (idx fc)) as (m & Hm & Hr); [lia|].
    rewrite (next_no_match _ _ _ Hm Hr), IH.
    + simpl. by rewrite Nat.add_succ_r.
    + intros i Hi. apply H. simpl in Hi. lia.
Qed.

(** C3. A call of [next] takes the rule at the current index and moves the
    index on by one.  With no rule left it runs the completion callback.
    A rule that does not match leads straight on to the next call, with
    the request as it was.  A rule that matches is run through [Parser],
    and the chain stays at the following index with [Parser]'s result,
    unless the rule's function has called [next] itself, in which case
    the chain goes on from there. *)
Theorem filter_chain_step (fc : filterChain) (c : ctx) :
  idx (advance fc) = S (idx fc)
  ∧ (filters !! idx fc = None →
     next fc c = (advance fc, (cb fc c).1, (cb fc c).2))
  ∧ (∀ m, filters !! idx fc = Some m →
          truthy (Mapper_match m (req c) false).1 = false →
          next fc c = next (advance fc) c)
  ∧ (∀ m c' o,
       filters !! idx fc = Some m →
       truthy (Mapper_match m (req c) false).1 = true →
       Parser m (Ctx (Mapper_match m (req c) false).2 (res c) (wld c))
         = (c', o) →
       (o ≠ Invoked true → next fc c = (advance fc, c', o))
       ∧ (o = Invoked true → next fc c = next (advance fc) c')).
Proof.
  split; [done|]. split; [apply next_none|]. split; [apply next_no_match|].
  intros m c' o Hm Hr Hp. rewrite (next_match _ _ _ _ _ Hm Hr Hp).
  split; intros H; by destruct (decide (o = Invoked true)).
Qed.


(** *** Parsing pipeline *)

Lemma setSession_body (c : ctx) :
  reqBody (req (setSession c)) = reqBody (req c).
Proof.
  unfold setSession. by destruct (SessionParser_create (wld c)).
Qed.

Lemma init_body (c : ctx) :
  reqBody (req (SessionParser_init c)) = reqBody (req c).
Proof.
  unfold SessionParser_init.
  destruct (default ∅ (cookies (req c)) !! sidKey) as [v|];
    [|apply setSession_body].
  destruct (_ || _); [apply setSession_body|].
  destruct (store_get SessionStore v (wld c)) as [w sess].
  unfold getSession. destruct (isValid _ _).
  - by destruct sess.
  - by rewrite setSession_body.
Qed.

Lemma decode_fails_empty (mode data : string) :
  decode_fails mode data → decode_body mode data = empty_object.
Proof.
  unfold decode_body, empty_object.
  intros [[-> H]|[-> H]].
  - rewrite decide_True by done. by rewrite H.
  - rewrite decide_False by done. rewrite decide_True by done. by rewrite H.
Qed.

(** The handler of a rule is entered with a context, and [handle] ends with
    the handler having returned or with its error caught. *)
Lemma handle_invokes (m : mapper) (c : ctx) :
  (∃ c' nx, call_handler m c = Returned c' nx
            ∧ handle m c = (c', Invoked nx))
  ∨ (∃ c' stack msg, call_handler m c = Threw c' stack
                     ∧ (handle m c).2 = Caught msg).
Proof.
  unfold handle. destruct (call_handler m c) as [c' nx|c' stack].
  - left. eauto.
  - right. eauto.
Qed.

(** [handle] on a rule whose handler is the function [f]. *)
Lemma handle_function (m : mapper) (f : ctx → ran) (c : ctx) :
  mhandler m = HFunction f →
  handle m c
  = match f c with
    | Returned c' nx => (c', Invoked nx)
    | Threw c' stack =>
        (if showError Settings
         then res_end ("<pre>" +:+ error_message c' stack +:+ "</pre>") c'
         else res_end "" c',
         Caught (error_message c' stack))
    end.
Proof. intros H. unfold handle, call_handler. by rewrite H. Qed.

(** C8. When the rule declares a post mode, no body is attached yet and
    the body read from the request does not decode under that mode, the
    body stage attaches the empty object and goes on to the session stage;
    then the rule's function is called on the request whose body is the
    empty object (with the session attached first, if the rule asks for
    one), and what [Parser]'s stage returns is what that call gives: the
    context the function returns, or, if the function throws, its error
    caught and reported.  No error leaves the stage because of the body. *)
Theorem lenient_body_parse (m : mapper) (c : ctx) (mode : string) :
  post_mode m = Some mode →
  reqBody (req c) = BodyUndefined →
  decode_fails mode (payload (req c)) →
  let c0 := Ctx (set_body empty_object (req c)) (res c) (wld c) in
  let c1 := if session_ m && bool_decide (reqSession (req c) = None)
            then SessionParser_init c0 else c0 in
  parseBody m c = parseSession m c0
  ∧ reqBody (req c1) = empty_object
  ∧ parseBody m c = handle m c1
  ∧ (∀ f, mhandler m = HFunction f →
       (∀ c' nx, f c1 = Returned c' nx → parseBody m c = (c', Invoked nx))
       ∧ (∀ c' stack, f c1 = Threw c' stack →
            parseBody m c
            = (if showError Settings
               then res_end ("<pre>" +:+ error_message c' stack +:+ "</pre>") c'
               else res_end "" c',
               Caught (error_message c' stack))))
  ∧ ((∃ c' nx, call_handler m c1 = Returned c' nx
               ∧ parseBody m c = (c', Invoked nx))
     ∨ (∃ c' stack msg, call_handler m c1 = Threw c' stack
                        ∧ (parseBody m c).2 = Caught msg)).
Proof.
  intros Hmode Hbody Hfail c0 c1.
  assert (parseBody m c = parseSession m c0) as Hp.
  { unfold parseBody. rewrite Hmode, Hbody.
    by rewrite (decode_fails_empty _ _ Hfail). }
  assert (parseSession m c0 = handle m c1) as Hs.
  { unfold parseSession, c1.
    change (reqSession (req c0)) with (reqSession (req c)).
    by destruct (session_ m && _). }
  split; [done|]. split.
  { unfold c1. destruct (session_ m && _); [by rewrite init_body|done]. }
  rewrite Hp, Hs. split; [done|]. split; [|apply handle_invokes].
  intros f Hf. rewrite (handle_function m f c1 Hf). split.
  - by intros c' nx ->.
  - by intros c' stack ->.
Qed.

(** The whole pipeline reaches the body stage when the pre-check passes
    and the rule takes no upload. *)
Lemma Parser_reaches_body (m : mapper) (c : ctx) :
  before_ok m (Ctx (set_cookies
                      (parse_cookie_header (headers (req c) !! "cookie"))
                      (req c)) (res c) (wld c)) = true →
  file_ m = false →
  Parser m c
  = parseBody m (Ctx (set_cookies
                        (parse_cookie_header (headers (req c) !! "cookie"))
                        (req c)) (res c) (wld c)).
Proof.
  intros Hb Hf. unfold Parser, parseCookies, parseFile.
  by rewrite Hb, Hf.
Qed.

(** *** The sweep *)

Lemma sweep_keeps_aged (w : world) (l : gmap string loc) (i : string)
    (o : loc) (t : Z) (d : gmap string json) :
  list_ w = Some l → l !! i = Some o →
  objs w !! o = Some (Session (Some t) d) →
  t ≠ 0 → t ≠ clock w →
  the_list (clearHandler w) !! i = Some o.
Proof.
  intros Hl Hi Ho H0 Hn. rewrite (clearHandler_lookup _ _ _ Hl), Hi.
  unfold session_at. rewrite Ho. simpl.
  by rewrite sweep_valid_any_age.
Qed.


(** *** Template cache *)

Lemma getFile_start_cached (w : world) (filename : string) :
  in_cache w filename = true → getFile_start filename w = w.
Proof. intros H. unfold getFile_start. by rewrite H. Qed.

Lemma substitute_cached (ps : list piece) (w : world) :
  (∀ fileStr, Incl fileStr ∈ ps → in_cache w (includeFile fileStr) = true) →
  (substitute ps w).1 = w.
Proof.
  induction ps as [|[ch|fileStr] ps IH]; intros H; [done|..];
    cbn [substitute].
  - assert ((substitute ps w).1 = w) as IH'.
    { apply IH. intros f Hf. apply H. by right. }
    by destruct (substitute ps w) as [w' out].
  - rewrite getFile_start_cached by (apply H; left).
    assert ((substitute ps w).1 = w) as IH'.
    { apply IH. intros f Hf. apply H. by right. }
    by destruct (substitute ps w) as [w' out].
Qed.

Lemma getTemplate_primed (w : world) (tmplUrl : string) :
  primed w tmplUrl → (getTemplate tmplUrl w).1 = w.
Proof.
  intros [Hc Hi]. unfold getTemplate, getFile. rewrite Hc.
  by apply substitute_cached.
Qed.

(** C6, as the code has it.  With the template and the files it includes
    in the cache, a render reads nothing from the file system and leaves
    the server state as it is, so that two renders in a row with the same
    model give the same text. *)
Theorem render_twice_primed (tmplUrl : string) (model : json) (w : world) :
  primed w tmplUrl →
  templateCache Settings = true
  ∧ (render_template tmplUrl model w).1 = w
  ∧ reads (render_template tmplUrl model w).1 = reads w
  ∧ reads (render_template tmplUrl model
             (render_template tmplUrl model w).1).1 = reads w
  ∧ (render_template tmplUrl model (render_template tmplUrl model w).1).2
    = (render_template tmplUrl model w).2.
Proof.
  intros Hp. pose proof (getTemplate_primed _ _ Hp) as Hg.
  assert ((render_template tmplUrl model w).1 = w) as Hr.
  { unfold render_template.
    by destruct (getTemplate tmplUrl w) as [w' tmpl]. }
  split.
  { destruct Hp as [Hc _]. unfold in_cache in Hc.
    by apply andb_true_iff in Hc as [? _]. }
  by rewrite !Hr.
Qed.


(** The first render, once its reads have come back, leaves the cache
    primed. *)

Lemma getFile_start_world (filename : string) (w : world) :
  templatePool (getFile_start filename w) = templatePool w
  ∧ disk (getFile_start filename w) = disk w
  ∧ pending (getFile_start filename w)
    = pending w ++ (if in_cache w filename then [] else [filename]).
Proof.
  unfold getFile_start. destruct (in_cache w filename); simpl; [|done].
  by rewrite (right_id_L [] (++)).
Qed.

Lemma in_cache_pool (w w' : world) (filename : string) :
  templatePool w' = templatePool w → in_cache w' filename = in_cache w filename.
Proof. intros H. unfold in_cache, pooled. by rewrite H. Qed.

Lemma missing_pool (w w' : world) (ps : list piece) :
  templatePool w' = templatePool w → missing w' ps = missing w ps.
Proof.
  intros H. induction ps as [|[c|f] ps IH]; simpl; [done..|].
  by rewrite (in_cache_pool w w' _ H), IH.
Qed.

Lemma substitute_world (ps : list piece) (w : world) :
  templatePool (substitute ps w).1 = templatePool w
  ∧ disk (substitute ps w).1 = disk w
  ∧ pending (substitute ps w).1 = pending w ++ missing w ps.
Proof.
  revert w. induction ps as [|[ch|fileStr] ps IH]; intros w;
    cbn [substitute].
  - simpl. by rewrite (right_id_L [] (++)).
  - destruct (IH w) as (H1 & H2 & H3).
    by destruct (substitute ps w) as [w' out].
  - destruct (getFile_start_world (includeFile fileStr) w) as (G1 & G2 & G3).
    destruct (IH (getFile_start (includeFile fileStr) w)) as (H1 & H2 & H3).
    destruct (substitute ps (getFile_start (includeFile fileStr) w))
      as [w' out]. simpl in *.
    rewrite H1, H2, H3, G1, G2, G3. repeat split.
    assert (missing (getFile_start (includeFile fileStr) w) ps = missing w ps)
      as ->.
    { by apply missing_pool. }
    cbn [missing].
    destruct (in_cache w (includeFile fileStr)); simpl.
    + by rewrite (right_id_L [] (++)).
    + by rewrite <- (assoc_L (++)).
Qed.

Lemma finish_read_world (w : world) (filename : string) :
  disk (finish_read w filename) = disk w
  ∧ ∀ k, pooled (finish_read w filename) k
         = if decide (k = filename)
           then default (pooled w k) (file_content w (template_path k))
           else pooled w k.
Proof.
  unfold finish_read, read_done.
  destruct (file_content w (template_path filename)) as [t|] eqn:E; simpl.
  - split; [done|]. intros k. unfold pooled. simpl.
    destruct (decide (k = filename)) as [->|Hne].
    + by rewrite lookup_insert_eq, E.
    + by rewrite lookup_insert_ne.
  - split; [done|]. intros k. destruct (decide (k = filename)) as [->|]; [|done].
    by rewrite E.
Qed.

Lemma file_content_disk (w w' : world) (path : string) :
  disk w' = disk w → file_content w' path = file_content w path.
Proof. intros H. unfold file_content. by rewrite H. Qed.

Lemma drain_pooled (ns : list string) (w : world) (k : string) :
  pooled (foldl finish_read w ns) k
  = if decide (k ∈ ns)
    then default (pooled w k) (file_content w (template_path k))
    else pooled w k.
Proof.
  revert w. induction ns as [|n ns IH]; intros w; simpl.
  - destruct (decide (k ∈ [])) as [H%elem_of_nil|]; done.
  - destruct (finish_read_world w n) as [Hd Hp]. rewrite IH.
    rewrite (file_content_disk _ _ _ Hd), Hp.
    destruct (decide (k ∈ ns)) as [Hin|Hout],
             (decide (k = n)) as [->|Hne],
             (decide (_ ∈ n :: ns)) as [Hc|Hc]; try done.
    + by destruct (file_content w (template_path n)).
    + destruct Hc. apply elem_of_cons. by left.
    + destruct Hc. apply elem_of_cons. by right.
    + destruct Hc. apply elem_of_cons. by left.
    + apply elem_of_cons in Hc as [?|?]; done.
Qed.

Lemma elem_of_missing (w : world) (ps : list piece) (k : string) :
  k ∈ missing w ps ↔
  ∃ fileStr, Incl fileStr ∈ ps ∧ k = includeFile fileStr
             ∧ in_cache w k = false.
Proof.
  induction ps as [|[c|f] ps IH]; cbn [missing].
  - split; [by intros ?%elem_of_nil|]. by intros (f & ?%elem_of_nil & _).
  - rewrite IH. split.
    + intros (f & Hin & H). exists f. split; [by right|done].
    + intros (f & Hin & H). exists f. split; [|done].
      apply elem_of_cons in Hin as [?|?]; done.
  - destruct (in_cache w (includeFile f)) eqn:E.
    + rewrite IH. split.
      * intros (f' & Hin & H). exists f'. split; [by right|done].
      * intros (f' & Hin & -> & Hc). exists f'. split; [|done].
        apply elem_of_cons in Hin as [[= ->]|?]; [congruence|done].
    + rewrite elem_of_cons, IH. split.
      * intros [->|(f' & Hin & H)].
        -- exists f. split; [by left|done].
        -- exists f'. split; [by right|done].
      * intros (f' & Hin & -> & Hc).
        apply elem_of_cons in Hin as [[= ->]|?]; [by left|].
        right. eauto.
Qed.

Lemma first_render_primes (tmplUrl : string) (model : json) (w : world) :
  templateCache Settings = true →
  pending w = [] →
  in_cache w tmplUrl = true ∨ stored_text w tmplUrl →
  (∀ fileStr, Incl fileStr ∈ scan (getFile tmplUrl w).2 0 →
              in_cache w (includeFile fileStr) = true
              ∨ stored_text w (includeFile fileStr)) →
  primed (drain (render_template tmplUrl model w).1) tmplUrl.
Proof.
  intros Hon Hpend Hmain Hincl.
  (* the state and the text after the template itself is fetched *)
  assert (∃ w0 T, getFile tmplUrl w = (w0, T)
                  ∧ disk w0 = disk w ∧ pending w0 = []
                  ∧ pooled w0 tmplUrl = T ∧ T ≠ ""
                  ∧ ∀ k, in_cache w k = true → in_cache w0 k = true)
    as (w0 & T & Hget & Hdisk & Hp0 & HT & HTne & Hmono).
  { unfold getFile. destruct (in_cache w tmplUrl) eqn:Hc.
    - exists w, (pooled w tmplUrl). repeat split; try done.
      unfold in_cache in Hc. apply andb_true_iff in Hc as [_ Hc].
      by apply bool_decide_eq_true in Hc.
    - destruct Hmain as [?|(t & Ht & Hne)]; [done|].
      unfold readFile. rewrite Ht. simpl.
      eexists _, _. split; [done|]. repeat split; try done.
      + unfold pooled. simpl. by rewrite lookup_insert_eq.
      + intros k Hk. unfold in_cache, pooled in *. simpl.
        destruct (decide (k = tmplUrl)) as [->|Hk'].
        * rewrite lookup_insert_eq. simpl. rewrite Hon.
          by apply bool_decide_eq_true.
        * by rewrite lookup_insert_ne. }
  rewrite Hget in Hincl. simpl in Hincl.
  assert ((render_template tmplUrl model w).1 = (substitute (scan T 0) w0).1)
    as ->.
  { unfold render_template, getTemplate. rewrite Hget.
    by destruct (substitute (scan T 0) w0). }
  destruct (substitute_world (scan T 0) w0) as (S1 & S2 & S3).
  set (w1 := (substitute (scan T 0) w0).1) in *.
  assert (∀ k, pooled (drain w1) k
               = if decide (k ∈ missing w0 (scan T 0))
                 then default (pooled w0 k) (file_content w (template_path k))
                 else pooled w0 k) as Hdrain.
  { intros k. unfold drain.
    change (pooled (set_pending [] ?x) k) with (pooled x k).
    rewrite drain_pooled, S3, Hp0. simpl.
    assert (pooled w1 k = pooled w0 k) as -> by (unfold pooled; by rewrite S1).
    assert (file_content w1 (template_path k)
            = file_content w (template_path k)) as ->.
    { apply file_content_disk. by rewrite S2. }
    done. }
  assert (in_cache w0 tmplUrl = true) as Hc0.
  { unfold in_cache. rewrite Hon, HT. by apply bool_decide_eq_true. }
  assert (pooled (drain w1) tmplUrl = T) as HT1.
  { rewrite Hdrain, decide_False; [done|].
    intros (f & _ & _ & Hc)%elem_of_missing. congruence. }
  split.
  - unfold in_cache. rewrite Hon, HT1. by apply bool_decide_eq_true.
  - intros f Hf. rewrite HT1 in Hf. unfold in_cache. rewrite Hon, Hdrain. simpl.
    apply bool_decide_eq_true.
    destruct (decide (includeFile f ∈ missing w0 (scan T 0))) as [Hin|Hout].
    + apply elem_of_missing in Hin as (f' & _ & _ & Hc).
      destruct (Hincl f Hf) as [Hin'|(t & Ht & Hne)].
      * apply Hmono in Hin'. congruence.
      * by rewrite Ht.
    + destruct (in_cache w0 (includeFile f)) eqn:Hc.
      * unfold in_cache in Hc. apply andb_true_iff in Hc as [_ Hc].
        by apply bool_decide_eq_true in Hc.
      * exfalso. apply Hout. apply elem_of_missing. eauto.
Qed.

(** *** Static files *)

Lemma setHeader_untouched (k v : string) (r : response) :
  untouched r →
  untouched (setHeader k v r) ∧ resHeaders (setHeader k v r) !! k = Some v
  ∧ statusCode (setHeader k v r) = statusCode r.
Proof.
  intros (He & Hs & Hb). unfold setHeader, untouched. rewrite He, Hs. simpl.
  by rewrite lookup_insert_eq.
Qed.

Lemma res_type_untouched (type : string) (r : response) :
  untouched r →
  untouched (res_type type r)
  ∧ ∀ k, k ≠ "Content-Type" →
         resHeaders (res_type type r) !! k = resHeaders r !! k.
Proof.
  intros Hu. unfold res_type.
  destruct (Js.truthy_str type && negb (headersSent r)); [|done].
  destruct (setHeader_untouched "Content-Type"
              ((if Js.truthy_str (mime_lookup type) then mime_lookup type
                else "text/plain") +:+ "; charset=" +:+ charset_of r) r Hu)
    as (Hu' & _ & _).
  split; [done|]. intros k Hk. destruct Hu as (He & Hs & _).
  unfold setHeader. rewrite He, Hs. simpl. by rewrite lookup_insert_ne.
Qed.

(** A first call of [writeHead] followed by [end]: the status, the body
    and the headers of the answer. *)
Lemma answer (status : Z) (hs : gmap string string) (data : string)
    (r : response) :
  untouched r →
  let r' := end_response data (writeHead status hs r) in
  statusCode r' = status ∧ resBody r' = data ∧ ended r' = true
  ∧ resHeaders r' = hs ∪ resHeaders r.
Proof.
  intros (He & Hs & Hb). unfold end_response, writeHead. rewrite He. simpl.
  by rewrite Hb.
Qed.

(** C7, as the code has it.  For a request on which nothing has been
    answered yet and a path that names a readable file: with caching on
    and an [If-Modified-Since] date at or after the file's modification
    time the answer is a 304 without a body; with an [If-Modified-Since]
    date before the modification time, or with no such header and a
    modification time later than 1 ms after the epoch (the date an absent
    header is read as), the answer is a 200 with the file's content and a
    [Last-Modified] header of the modification time. *)
Theorem conditional_get (depth : nat) (url_ phyPath : string) (c : ctx)
    (mtime : Z) (content : string) :
  disk (wld c) !! phyPath = Some (FileNode mtime (Some content)) →
  untouched (res c) →
  (∀ d, cache Settings = true → modified_since (req c) d → mtime ≤ d →
        ∃ c', handlePath depth url_ phyPath c = (c', NotModified)
              ∧ statusCode (res c') = 304 ∧ resBody (res c') = ""
              ∧ ended (res c') = true)
  ∧ (((∃ d, modified_since (req c) d ∧ d < mtime)
      ∨ (headers (req c) !! "if-modified-since" = None ∧ 1 < mtime)) →
     ∃ c', handlePath depth url_ phyPath c = (c', FileServed)
           ∧ statusCode (res c') = 200 ∧ resBody (res c') = content
           ∧ ended (res c') = true
           ∧ resHeaders (res c') !! "Last-Modified"
             = Some (toUTCString mtime)).
Proof.
  intros Hd Hu.
  assert (∀ depth, handlePath depth url_ phyPath c = serve_file phyPath mtime c)
    as ->.
  { intros [|n]; simpl; by rewrite Hd. }
  unfold serve_file. split.
  - intros d Hc (h & Hh & Hne & Hp) Hle.
    unfold cacheTime. rewrite Hh, Hc.
    unfold Js.truthy_str. rewrite (bool_decide_eq_true_2 _ Hne), Hp. simpl.
    replace (mtime <=? d) with true by (symmetry; by apply Z.leb_le).
    eexists. split; [done|].
    destruct (answer 304 ∅ "" (res c) Hu) as (H1 & H2 & H3 & _).
    unfold res_end, with_res. simpl. done.
  - intros Hcase.
    assert (cache Settings && not_after mtime (cacheTime (req c)) = false)
      as ->.
    { apply andb_false_iff. right. unfold cacheTime.
      destruct Hcase as [(d & (h & Hh & Hne & Hp) & Hlt)|[Hh Hlt]].
      - rewrite Hh. unfold Js.truthy_str.
        rewrite (bool_decide_eq_true_2 _ Hne), Hp. simpl.
        apply Z.leb_gt. lia.
      - rewrite Hh. simpl. apply Z.leb_gt. lia. }
    unfold writeFile, readFile, file_content, with_res. simpl. rewrite Hd.
    destruct (setHeader_untouched "Last-Modified" (toUTCString mtime)
                (res c) Hu) as (Hu1 & Hl1 & _).
    destruct (res_type_untouched phyPath _ Hu1) as (Hu2 & Hl2).
    destruct (answer 200 ∅ content _ Hu2) as (H1 & H2 & H3 & H4).
    eexists. split; [done|]. unfold res_end. simpl.
    repeat split; try done.
    rewrite H4, (left_id_L ∅ (∪)), Hl2 by done. done.
Qed.


(** *** The 404 fallback *)

Lemma handle_loop_none (hs : list mapper) (c : ctx) :
  (∀ m, m ∈ hs → truthy (Mapper_match m (req c) true).1 = false) →
  handle_loop hs c = (c, None).
Proof.
  induction hs as [|m hs IH]; intros H; [done|]. simpl.
  pose proof (H m (list_elem_of_here _ _)) as Hr.
  pose proof (match_falsy_req _ _ _ Hr) as Hq.
  destruct (Mapper_match m (req c) true) as [r rq]. simpl in *.
  rewrite Hr, Hq.
  replace (Ctx (req c) (res c) (wld c)) with c by (by destruct c).
  apply IH. intros m' Hm'. apply H. by right.
Qed.

Lemma write404_answer (c : ctx) :
  untouched (res c) →
  statusCode (res (write404 c)) = 404
  ∧ ended (res (write404 c)) = true
  ∧ resBody (res (write404 c)) = fallback_404 (wld c)
  ∧ resHeaders (res (write404 c)) !! "Content-Type" = Some "text/html".
Proof.
  intros Hu. unfold write404, fallback_404.
  destruct (answer 404 html "File not found!" (res c) Hu)
    as (H1 & H2 & H3 & H4).
  destruct (Js.truthy_str (tmpl404 Settings)).
  - unfold Template_render.
    destruct (render_template (tmpl404 Settings) JNull
                (wld (with_res (writeHead 404 html (res c)) c)))
      as [w out] eqn:E.
    simpl in E. rewrite E. unfold res_end. simpl.
    destruct (answer 404 html out (res c) Hu) as (G1 & G2 & G3 & G4).
    repeat split; try done. rewrite G4.
    apply lookup_union_Some_l. done.
  - unfold res_end. simpl. repeat split; try done. rewrite H4.
    apply lookup_union_Some_l. done.
Qed.

(** C9. A request that no filter matches, no handler matches, and whose
    path (without the query string, under the home folder) names nothing
    on disk is answered with status 404 and the configured fallback as the
    body: the rendered custom template when [Settings["404"]] is set, the
    text ["File not found!"] otherwise. *)
Theorem not_found_fallback (depth : nat) (rq : request) (w : world) :
  (∀ m, m ∈ filters →
        truthy (Mapper_match m (set_params ∅ rq) false).1 = false) →
  (∀ m, m ∈ handlers →
        truthy (Mapper_match m (set_params ∅ rq) true).1 = false) →
  disk w !! path_join (home Settings) (strip_query (url rq)) = None →
  ∃ fc c,
    requestHandler depth rq w = (fc, c, NotFound)
    ∧ statusCode (res c) = 404
    ∧ ended (res c) = true
    ∧ resBody (res c) = fallback_404 w.
Proof.
  intros Hf Hh Hd. unfold requestHandler.
  set (c0 := Ctx (set_params ∅ rq) fresh_response w).
  set (fc0 := FilterChain 0 (completion depth)).
  rewrite (next_skips (length filters) fc0 c0).
  2: { intros i [_ Hi]. simpl in Hi.
       destruct (lookup_lt_is_Some_2 filters i Hi) as [m Hm].
       exists m. split; [done|]. apply Hf.
       by apply list_elem_of_lookup_2 in Hm. }
  rewrite next_none by (simpl; by apply lookup_ge_None_2).
  unfold fc0. cbn [cb idx advance].
  assert (completion depth c0 = (write404 c0, NotFound)) as ->.
  { unfold completion, Handler_handle. rewrite handle_loop_none by done.
    unfold fileHandler. destruct depth; simpl; by rewrite Hd. }
  destruct (write404_answer c0) as (H1 & H2 & H3 & _); [done|].
  eexists _, _. simpl. split; [done|]. done.
Qed.

(** *** More on the pattern matcher *)

(** Propositional steps, on the hypotheses alone. *)
Ltac props :=
  repeat match goal with
         | f : ?T |- _ =>
             lazymatch type of T with
             | Prop => fail
             | _ => clear f
             end
         end;
  tauto.

Lemma find_None_nowhere (s pat : string) (off : nat) :
  Js.find s pat = None → ¬ occurs_at pat s off.
Proof.
  unfold occurs_at. revert off. induction s as [|c s IH]; intros off;
    cbn [Js.find].
  - destruct (String.prefix pat "") eqn:E; [done|]. intros _.
    destruct off; cbn [Js.substr_from]; by rewrite E.
  - destruct (String.prefix pat (String c s)) eqn:E; [done|].
    destruct (Js.find s pat) eqn:F; [done|]. intros _.
    destruct off as [|off]; cbn [Js.substr_from]; [by rewrite E|]. by apply IH.
Qed.

(** [find] returns the first position at which the pattern occurs. *)
Lemma find_Some_first (s pat : string) (n : nat) :
  Js.find s pat = Some n ↔
  occurs_at pat s n ∧ ∀ k, (k < n)%nat → ¬ occurs_at pat s k.
Proof.
  unfold occurs_at. revert n. induction s as [|c s IH]; intros n;
    cbn [Js.find].
  - destruct (String.prefix pat "") eqn:E.
    + split.
      * intros [= <-]. split; [done|]. intros k Hk. lia.
      * intros [_ Hmin]. destruct n as [|n]; [done|].
        destruct (Hmin 0%nat); [lia|done].
    + split; [done|]. intros [Hocc _]. destruct n; cbn [Js.substr_from] in Hocc; congruence.
  - destruct (String.prefix pat (String c s)) eqn:E.
    + split.
      * intros [= <-]. split; [done|]. intros k Hk. lia.
      * intros [_ Hmin]. destruct n as [|n]; [done|].
        destruct (Hmin 0%nat); [lia|done].
    + destruct n as [|n].
      * split; [by destruct (Js.find s pat)|].
        intros [Hocc _]. cbn [Js.substr_from] in Hocc. congruence.
      * specialize (IH n). split.
        -- destruct (Js.find s pat) as [k|] eqn:F; [|done]. intros [= ->].
           destruct IH as [[Hocc Hmin] _]; [done|]. split; [done|].
           intros [|k] Hk; cbn [Js.substr_from]; [by rewrite E|]. apply Hmin. lia.
        -- intros [Hocc Hmin]. cbn [Js.substr_from] in Hocc.
           assert (Js.find s pat = Some n) as ->; [|done].
           apply IH. split; [done|].
           intros k Hk. apply (Hmin (S k)). lia.
Qed.

(** X1. In filter mode a string without parameter markers matches exactly
    when it occurs somewhere in the request url (query string included);
    the result is then [true], and the request is left as it was. *)
Theorem filter_literal_anywhere (rq : request) (expression : string) :
  Js.indexOf expression "/:" < 0 →
  (truthy (matchString rq false expression).1 = true
   ↔ ∃ off, occurs_at expression (url rq) off)
  ∧ (matchString rq false expression).2 = rq.
Proof.
  intros Hlit. unfold matchString. apply Z.ltb_lt in Hlit as ->.
  split; [|done]. cbn [fst].
  destruct (indexOf_spec (url rq) expression) as [[-> Hf]|(n & -> & Hf)].
  - split; [done|]. intros [off Hocc].
    by destruct (find_None_nowhere _ _ off Hf).
  - replace (-1 <? Z.of_nat n) with true by (symmetry; apply Z.ltb_lt; lia).
    split; [|done]. intros _. exists n. by apply find_occurs.
Qed.

(** X2. In handler mode a string without parameter markers matches exactly
    when it stands at offset 0 of the url followed by the end, ['/'] or
    ['?'], or does not stand at offset 0 but stands at offset 1 followed by
    one of these.  Only the first occurrence is looked at: an occurrence at
    offset 1 does not count when there is one at offset 0. *)
Theorem strict_literal_exact (rq : request) (expression : string) :
  Js.indexOf expression "/:" < 0 →
  truthy (matchString rq true expression).1 = true
  ↔ (occurs_at expression (url rq) 0 ∧ boundary_after expression (url rq) 0)
    ∨ (¬ occurs_at expression (url rq) 0
       ∧ occurs_at expression (url rq) 1
       ∧ boundary_after expression (url rq) 1).
Proof.
  intros Hlit. unfold matchString. apply Z.ltb_lt in Hlit as ->.
  assert (∀ n, boundary_after expression (url rq) n ↔
               truthy (of_bool
                 (bool_decide (Js.charAt (url rq) (n + Js.length expression) = "")
                  || bool_decide (Js.charAt (url rq) (n + Js.length expression) = "/")
                  || bool_decide (Js.charAt (url rq) (n + Js.length expression) = "?")))
               = true) as Hb.
  { intros n. unfold boundary_after. cbn zeta.
    destruct (bool_decide (_ = "")) eqn:E1;
      [apply bool_decide_eq_true in E1; props|].
    destruct (bool_decide (_ = "/")) eqn:E2;
      [apply bool_decide_eq_true in E2; props|].
    destruct (bool_decide (_ = "?")) eqn:E3;
      [apply bool_decide_eq_true in E3; props|].
    apply bool_decide_eq_false in E1, E2, E3. simpl.
    split; [intros [?|[?|?]]; done | done]. }
  destruct (indexOf_spec (url rq) expression) as [[-> Hf]|(n & -> & Hf)].
  - simpl. split; [done|].
    intros [[Hocc _]|(_ & Hocc & _)]; by destruct (find_None_nowhere _ _ _ Hf Hocc).
  - apply find_Some_first in Hf as [Hocc Hmin].
    destruct n as [|[|n]].
    + simpl ((_ =? _) || _). cbn [fst]. rewrite Nat2Z.id, <- Hb. props.
    + simpl ((_ =? _) || _). cbn [fst]. rewrite Nat2Z.id, <- Hb.
      assert (¬ occurs_at expression (url rq) 0) by (apply Hmin; lia). props.
    + replace ((Z.of_nat (S (S n)) =? 0) || (Z.of_nat (S (S n)) =? 1))
        with false by (symmetry; apply orb_false_iff; split; apply Z.eqb_neq; lia).
      simpl. split; [done|].
      intros [[H0 _]|(_ & H1 & _)].
      * exfalso. by apply (Hmin 0%nat); [lia|].
      * exfalso. by apply (Hmin 1%nat); [lia|].
Qed.

Lemma match_array_first (rq : request) (h : bool) (l1 l2 : list string)
    (e : string) :
  (∀ e', e' ∈ l1 → truthy (matchString rq h e').1 = false) →
  truthy (matchString rq h e).1 = true →
  match_array rq h (l1 ++ e :: l2) = (MTrue, (matchString rq h e).2).
Proof.
  intros Hno Hyes. induction l1 as [|e1 l1 IH]; simpl.
  - destruct (matchString rq h e) as [r rq']. simpl in Hyes. by rewrite Hyes.
  - assert (truthy (matchString rq h e1).1 = false) as H1.
    { apply Hno. apply elem_of_cons. by left. }
    pose proof (matchString_falsy _ _ _ H1) as H2.
    destruct (matchString rq h e1) as [r rq']. simpl in H1, H2.
    rewrite H1, H2. apply IH. intros e' He'. apply Hno.
    apply elem_of_cons. by right.
Qed.

(** X3. A rule whose expression is an array matches exactly when one of its
    strings matches; the answer is then [true] (never a parameter object),
    the strings after the first that matches are not tried, and the request
    is the one that string's match leaves behind. *)
Theorem array_expression_any (m : mapper) (rq : request) (h : bool)
    (l : list string) :
  mexpression m = EArray l →
  (truthy (Mapper_match m rq h).1 = true
   ↔ ∃ e, e ∈ l ∧ truthy (matchString rq h e).1 = true)
  ∧ (∀ l1 e l2,
       l = l1 ++ e :: l2 →
       (∀ e', e' ∈ l1 → truthy (matchString rq h e').1 = false) →
       truthy (matchString rq h e).1 = true →
       Mapper_match m rq h = (MTrue, (matchString rq h e).2)).
Proof.
  intros Hm. unfold Mapper_match, match_expression. rewrite Hm. split.
  - clear Hm. induction l as [|e l IH]; simpl.
    + split; [done|]. by intros (e & ?%elem_of_nil & _).
    + pose proof (matchString_falsy rq h e) as Hf.
      destruct (matchString rq h e) as [r rq'] eqn:E. simpl in Hf.
      destruct (truthy r) eqn:Hr.
      * split; [|done]. intros _. exists e. split; [apply elem_of_cons; by left|].
        by rewrite E.
      * rewrite Hf by done. rewrite IH. split.
        -- intros (e' & Hin & He'). exists e'.
           split; [apply elem_of_cons; by right|done].
        -- intros (e' & Hin & He'). exists e'. split; [|done].
           apply elem_of_cons in Hin as [->|Hin]; [|done].
           rewrite E in He'. simpl in He'. congruence.
  - intros l1 e l2 -> Hno Hyes. by apply match_array_first.
Qed.

Lemma set_params_same (rq : request) : set_params (∅ ∪ params rq) rq = rq.
Proof. rewrite (left_id_L ∅ (∪)). by destruct rq. Qed.

Lemma matchString_params (rq : request) (h : bool) (e : string) :
  ∃ ps, (matchString rq h e).2 = set_params (ps ∪ params rq) rq.
Proof.
  unfold matchString. destruct (Js.indexOf e "/:" <? 0).
  - exists ∅. rewrite set_params_same. destruct h; [|done]. by destruct (_ || _).
  - destruct (parseUrl e (url rq)) as [ps|].
    + by exists ps.
    + exists ∅. by rewrite set_params_same.
Qed.

Lemma match_array_params (rq : request) (h : bool) (l : list string) :
  ∃ ps, (match_array rq h l).2 = set_params (ps ∪ params rq) rq.
Proof.
  induction l as [|e l IH]; simpl.
  - exists ∅. by rewrite set_params_same.
  - pose proof (matchString_falsy rq h e) as Hf.
    destruct (matchString_params rq h e) as [ps Hps].
    destruct (matchString rq h e) as [r rq']. simpl in Hf, Hps.
    destruct (truthy r); [by exists ps|]. by rewrite Hf.
Qed.

(** X4. Matching a rule against a request changes nothing of the request
    but [req.params]: url, headers, cookies, body, files and session stay,
    no parameter that was there is lost, and a rule that does not match
    leaves the request exactly as it was. *)
Theorem match_touches_params_only (m : mapper) (rq : request) (h : bool) :
  let rq' := (Mapper_match m rq h).2 in
  url rq' = url rq ∧ headers rq' = headers rq ∧ payload rq' = payload rq
  ∧ cookies rq' = cookies rq ∧ reqBody rq' = reqBody rq
  ∧ files rq' = files rq ∧ reqSession rq' = reqSession rq
  ∧ (∀ k, is_Some (params rq !! k) → is_Some (params rq' !! k))
  ∧ (truthy (Mapper_match m rq h).1 = false → rq' = rq).
Proof.
  intros rq'.
  assert (truthy (Mapper_match m rq h).1 = false → rq' = rq) as Hsame
    by apply match_falsy_req.
  revert Hsame.
  assert (∃ ps, rq' = set_params (ps ∪ params rq) rq) as [ps ->].
  { subst rq'. unfold Mapper_match, match_expression.
    destruct (mexpression m) as [|e|test|l|].
    - exists ∅. by rewrite set_params_same.
    - destruct (Js.truthy_str e); [apply matchString_params|].
      exists ∅. by rewrite set_params_same.
    - exists ∅. by rewrite set_params_same.
    - apply match_array_params.
    - exists ∅. by rewrite set_params_same. }
  intros Hsame. repeat split; try done.
  intros k [v Hk]. simpl. destruct (ps !! k) as [v'|] eqn:E.
  - exists v'. by apply lookup_union_Some_l.
  - exists v. by rewrite lookup_union_r.
Qed.

(** *** Cookies *)

Lemma lacks_cons (ch c : ascii) (s : string) :
  lacks ch (String c s) ↔ c ≠ ch ∧ lacks ch s.
Proof.
  unfold lacks. cbn [Js.find String.prefix].
  destruct (ascii_dec ch c) as [->|Hne].
  - rewrite prefix_empty. split; [done|]. by intros [? _].
  - destruct (Js.find s (String ch "")) eqn:F; simpl.
    + split; [done|]. by intros [_ ?].
    + split; [|done]. intros _. split; [congruence|done].
Qed.

Lemma split_lacks (sep : ascii) (p : string) :
  lacks sep p → Js.split sep p = [p].
Proof.
  induction p as [|c p IH]; [done|]. intros [Hne Hp]%lacks_cons.
  cbn [Js.split]. rewrite decide_False by done. by rewrite IH.
Qed.

Lemma split_app (sep : ascii) (p rest : string) :
  lacks sep p →
  Js.split sep (p +:+ String sep rest) = p :: Js.split sep rest.
Proof.
  induction p as [|c p IH].
  - intros _. change ("" +:+ String sep rest) with (String sep rest).
    cbn [Js.split]. by rewrite decide_True.
  - intros [Hne Hp]%lacks_cons.
    change (String c p +:+ String sep rest)
      with (String c (p +:+ String sep rest)).
    cbn [Js.split]. rewrite decide_False by done. by rewrite IH.
Qed.

Lemma split_join (sep : ascii) (pieces : list string) :
  pieces ≠ [] → (∀ p, p ∈ pieces → lacks sep p) →
  Js.split sep (join sep pieces) = pieces.
Proof.
  induction pieces as [|p [|q pieces] IH]; [done|..]; intros _ H.
  - apply split_lacks, H. apply elem_of_cons. by left.
  - cbn [join]. rewrite split_app by (apply H; apply elem_of_cons; by left).
    f_equal. apply IH; [done|]. intros p' Hp'. apply H.
    apply elem_of_cons. by right.
Qed.

Lemma find_after (ch : ascii) (p q : string) :
  lacks ch p → Js.find (p +:+ String ch q) (String ch "") = Some (Js.length p).
Proof.
  induction p as [|c p IH].
  - intros _. change ("" +:+ String ch q) with (String ch q).
    cbn [Js.find String.prefix]. destruct (ascii_dec ch ch); [|done].
    by rewrite prefix_empty.
  - intros [Hne Hp]%lacks_cons.
    change (String c p +:+ String ch q) with (String c (p +:+ String ch q)).
    cbn [Js.find String.prefix].
    destruct (ascii_dec ch c) as [->|_]; [done|]. by rewrite IH.
Qed.

Lemma substr_from_app (p q : string) :
  Js.substr_from (p +:+ q) (Js.length p) = q.
Proof.
  induction p as [|c p IH]; [done|].
  change (String c p +:+ q) with (String c (p +:+ q)). simpl. apply IH.
Qed.

Lemma add_cookie_pair (k v : string) (cs : gmap string string) :
  k ≠ "" → lacks "=" k →
  add_cookie (cookie_pair (k, v)) cs = Js.set_own (trim k) (trim v) cs.
Proof.
  intros Hk Hl. unfold add_cookie, cookie_pair, Js.indexOf. cbn [fst snd].
  rewrite (find_after _ _ _ Hl).
  replace (0 <? Z.of_nat (Js.length k)) with true.
  2: { symmetry. apply Z.ltb_lt. destruct k; [done|]. simpl. lia. }
  rewrite Nat2Z.id, substr_to_app.
  replace (Js.length k + 1)%nat with (Js.length (k +:+ "=")).
  2: { clear. induction k as [|c k IH]; [done|].
       change (String c k +:+ "=") with (String c (k +:+ "=")). simpl.
       by rewrite IH. }
  replace (k +:+ String "=" v) with ((k +:+ "=") +:+ v).
  2: { clear. induction k as [|c k IH]; [done|].
       change (String c k +:+ "=") with (String c (k +:+ "=")).
       change (String c (k +:+ "=") +:+ v) with (String c ((k +:+ "=") +:+ v)).
       by rewrite IH. }
  by rewrite substr_from_app.
Qed.

Lemma add_cookie_skipped (piece : string) (cs : gmap string string) :
  lacks "=" piece ∨ (∃ r, piece = String "=" r) →
  add_cookie piece cs = cs.
Proof.
  unfold add_cookie, Js.indexOf. intros [Hl|[r ->]].
  - unfold lacks in Hl. by rewrite Hl.
  - cbn [Js.find String.prefix]. destruct (ascii_dec "=" "="); [|done].
    by rewrite prefix_empty.
Qed.

(** X5. A [Cookie] header made of [name=value] pieces in ASCII separated by
    [';'], with non-empty names free of ['='] and no [';'] inside a piece,
    is read as the map from each trimmed name to its trimmed value, a later
    piece replacing an earlier one of the same name; a piece named
    [__proto__] adds nothing.  A piece without ['='], or beginning with it,
    adds nothing either; no header, or an empty one, gives no cookies. *)
Theorem cookie_header_read (kvs : list (string * string)) :
  kvs ≠ [] →
  (∀ k v, (k, v) ∈ kvs →
          k ≠ "" ∧ lacks "=" k ∧ lacks ";" k ∧ lacks ";" v
          ∧ ascii_only k ∧ ascii_only v) →
  parse_cookie_header (Some (join ";" (cookie_pair <$> kvs)))
  = foldl (λ cs kv, Js.set_own (trim kv.1) (trim kv.2) cs) ∅ kvs
  ∧ (∀ piece cs, lacks "=" piece ∨ (∃ r, piece = String "=" r) →
                 add_cookie piece cs = cs)
  ∧ parse_cookie_header None = ∅
  ∧ parse_cookie_header (Some "") = ∅.
Proof.
  intros Hne Hwf. split; [|split; [apply add_cookie_skipped|done]].
  unfold parse_cookie_header.
  assert (Js.truthy_str (join ";" (cookie_pair <$> kvs)) = true) as ->.
  { apply bool_decide_eq_true. destruct kvs as [|[k v] [|kv kvs]]; [done|..].
    - destruct (Hwf k v) as (Hk & _); [apply elem_of_cons; by left|].
      simpl. unfold cookie_pair. by destruct k.
    - destruct (Hwf k v) as (Hk & _); [apply elem_of_cons; by left|].
      cbn [fmap list_fmap join]. unfold cookie_pair at 1. by destruct k. }
  rewrite split_join.
  - generalize (∅ : gmap string string). revert Hwf. clear Hne.
    induction kvs as [|[k v] kvs IH]; intros Hwf acc; [done|].
    cbn [fmap list_fmap foldl].
    destruct (Hwf k v) as (Hk & Hl & _); [apply elem_of_cons; by left|].
    rewrite add_cookie_pair by done. apply IH.
    intros k' v' Hin. apply Hwf. apply elem_of_cons. by right.
  - by destruct kvs.
  - intros p (kv & -> & Hin)%list_elem_of_fmap. destruct kv as [k v].
    destruct (Hwf k v Hin) as (_ & _ & Hk & Hv & _).
    unfold cookie_pair. cbn [fst snd]. clear Hin.
    induction k as [|c k IH].
    + change ("" +:+ String "=" v) with (String "=" v).
      apply lacks_cons. split; [done|done].
    + apply lacks_cons in Hk as [Hc Hk].
      change (String c k +:+ String "=" v) with (String c (k +:+ String "=" v)).
      apply lacks_cons. split; [done|]. by apply IH.
Qed.

(** *** More on sessions *)

(** X6. The id [newID()] issues begins with the clock in base 36, a dash and
    the server id.  When that beginning is no longer than [sessionLength] the
    id has exactly [sessionLength] characters; when it is longer the id is
    that beginning alone, without padding, and so is longer than
    [sessionLength].  One random draw is used for each character of padding. *)
Theorem newID_shape (w : world) :
  let stem := toString36 (clock w) +:+ "-" +:+ serverID Settings in
  (∃ pad, (newID w).1 = stem +:+ pad)
  ∧ (Z.of_nat (Js.length stem) ≤ sessionLength Settings →
     Z.of_nat (Js.length (newID w).1) = sessionLength Settings)
  ∧ (sessionLength Settings < Z.of_nat (Js.length stem) →
     (newID w).1 = stem
     ∧ Z.of_nat (Js.length (newID w).1) ≠ sessionLength Settings)
  ∧ (Z.of_nat (randomPos (newID w).2)
     = Z.of_nat (randomPos w)
       + Z.max 0 (sessionLength Settings - Z.of_nat (Js.length stem))).
Proof.
  intros stem. unfold newID. fold stem. cbn [fst snd].
  split; [by eexists|]. split; [|split].
  - intros Hfit. rewrite length_app, random_chars_length. lia.
  - intros Hlong.
    replace (Z.to_nat (sessionLength Settings - Z.of_nat (Js.length stem)))
      with 0%nat by lia.
    assert (stem +:+ random_chars 0 w = stem) as ->.
    { unfold random_chars. simpl. clear.
      induction stem as [|c s IH]; [done|].
      change (String c s +:+ "") with (String c (s +:+ "")). by rewrite IH. }
    split; [done|lia].
  - simpl. lia.
Qed.

Lemma ensure_list_Some (w : world) (l : gmap string loc) :
  list_ w = Some l → ensure_list w = w.
Proof. intros H. unfold ensure_list. by rewrite H. Qed.

Lemma ensure_list_is_Some (w : world) : is_Some (list_ (ensure_list w)).
Proof. unfold ensure_list. destruct (list_ w) eqn:E; [by rewrite E|done]. Qed.

Lemma MemoryStore_get_stable (i : string) (w : world) :
  MemoryStore_get i (MemoryStore_get i w).1 = MemoryStore_get i w.
Proof.
  unfold MemoryStore_get at 2 3.
  destruct (ensure_list_is_Some w) as [l Hl].
  destruct (the_list (ensure_list w) !! i) as [o|] eqn:E; cbn [fst].
  - unfold MemoryStore_get. rewrite (ensure_list_Some _ _ Hl). by rewrite E.
  - destruct (Js.inherited i) eqn:Hi; cbn [fst].
    + unfold MemoryStore_get. rewrite (ensure_list_Some _ _ Hl).
      by rewrite E, Hi.
    + unfold MemoryStore_get.
      rewrite (ensure_list_Some (set_list _ _)
                 (<[i:=fresh (dom (objs (ensure_list w)))]>
                    (the_list (ensure_list w)))) by done.
      rewrite the_list_set. by rewrite lookup_insert_eq.
Qed.

(** X7. The memory store keeps what it is given: [get] after [set] hands
    back the object that was set (for every id but [__proto__], under which
    [set] stores no entry); a second [get] hands back the same as the first
    and changes nothing; [set] and [del] leave every other id alone; after
    [del] (on a store that has been set up: before that [del] throws) the
    id is gone, and a [get] for it makes a new empty object instead of
    bringing the old one back. *)
Theorem MemoryStore_laws (i j : string) (o : loc) (w : world) :
  (i ≠ "__proto__" →
   MemoryStore_get i (MemoryStore_set i o w)
   = (MemoryStore_set i o w, StoredSession o))
  ∧ MemoryStore_get i (MemoryStore_get i w).1 = MemoryStore_get i w
  ∧ (i ≠ j → the_list (MemoryStore_set i o w) !! j = the_list w !! j)
  ∧ (is_Some (list_ w) →
     the_list (MemoryStore_del i w) !! i = None
     ∧ (i ≠ j → the_list (MemoryStore_del i w) !! j = the_list w !! j))
  ∧ (is_Some (list_ w) → Js.inherited i = false →
     ∃ o', (MemoryStore_get i (MemoryStore_del i w)).2 = StoredSession o'
           ∧ objs w !! o' = None
           ∧ session_at (MemoryStore_get i (MemoryStore_del i w)).1 o'
             = empty_session).
Proof.
  split; [|split; [apply MemoryStore_get_stable|split; [|split]]].
  - intros Hi. unfold MemoryStore_get, MemoryStore_set.
    rewrite (ensure_list_Some (set_list _ _)
               (Js.set_own i o (the_list (ensure_list w)))) by done.
    rewrite the_list_set. by rewrite lookup_set_own_eq.
  - intros Hne. unfold MemoryStore_set.
    rewrite the_list_set, the_list_ensure. by rewrite lookup_set_own_ne.
  - intros [l Hl]. unfold MemoryStore_del, the_list. rewrite Hl. simpl.
    split; [by rewrite lookup_delete_eq|].
    intros Hne. by rewrite lookup_delete_ne.
  - intros [l Hl] Hi. unfold MemoryStore_del, MemoryStore_get. rewrite Hl.
    rewrite (ensure_list_Some (set_list _ _) (delete i l)) by done.
    rewrite the_list_set, lookup_delete_eq, Hi. cbn [fst snd].
    eexists. split; [done|].
    split; [exact (fresh_unused (set_list (delete i l) w))|].
    unfold session_at. simpl. by rewrite lookup_insert_eq.
Qed.

Lemma clearHandler_frame (w : world) :
  objs (clearHandler w) = objs w ∧ clock (clearHandler w) = clock w
  ∧ templatePool (clearHandler w) = templatePool w
  ∧ disk (clearHandler w) = disk w.
Proof.
  unfold clearHandler. destruct (list_ w) as [l|] eqn:Hl; [|done].
  set (f := λ (sid : string) (o : loc) (acc : world),
              if sweep_valid (clock w) (session_at w o) then acc
              else MemoryStore_del sid acc).
  set (P := λ (r : world) (m : gmap string loc),
              objs r = objs w ∧ clock r = clock w
              ∧ templatePool r = templatePool w ∧ disk r = disk w).
  apply (map_fold_weak_ind P f w); unfold P; [done|].
  intros k o m r _ IH.
  change (f k o r) with (if sweep_valid (clock w) (session_at w o)
                         then r else MemoryStore_del k r).
  destruct (sweep_valid _ _); [done|].
  unfold MemoryStore_del. by destruct (list_ r).
Qed.

(** X8. With a timeout that is not negative, the sweep removes an id from
    [list] exactly when its session object has no last-access time or the
    time 0; the age of a session plays no part.  The sweep changes [list]
    only: session objects, clock, template cache and disk stay as they are,
    and an id that was not in [list] is not in it afterwards. *)
Theorem sweep_removes_untimed (w : world) (l : gmap string loc) (i : string) :
  list_ w = Some l →
  0 ≤ sessionTimeout Settings →
  (∀ o, l !! i = Some o →
        (the_list (clearHandler w) !! i = None
         ↔ lastAccessTime (session_at w o) = None
           ∨ lastAccessTime (session_at w o) = Some 0)
        ∧ (the_list (clearHandler w) !! i = None
           ∨ the_list (clearHandler w) !! i = Some o))
  ∧ (l !! i = None → the_list (clearHandler w) !! i = None)
  ∧ objs (clearHandler w) = objs w
  ∧ clock (clearHandler w) = clock w
  ∧ templatePool (clearHandler w) = templatePool w
  ∧ disk (clearHandler w) = disk w.
Proof.
  intros Hl Ht. rewrite (clearHandler_lookup _ _ _ Hl).
  split; [|split; [by intros ->|apply clearHandler_frame]].
  intros o ->. unfold sweep_valid.
  destruct (lastAccessTime (session_at w o)) as [t|]; [|split; [props|by left]].
  replace (0 <=? sessionTimeout Settings * 2) with true
    by (symmetry; apply Z.leb_le; lia).
  rewrite orb_true_r, andb_true_r. unfold Js.truthy_num.
  destruct (decide (t = 0)) as [->|Hne].
  - rewrite bool_decide_eq_false_2 by (intros ?; done). split; [props|by left].
  - rewrite bool_decide_eq_true_2 by done. split; [|by right].
    split; [done|]. intros [?|[= ?]]; done.
Qed.

Lemma set_data_key (o : loc) (key : string) (v : json) (w : world) :
  key ≠ reserved → key ≠ "__proto__" →
  SessionParser_set o key v w
  = Some (set_objs
            (<[o := Session (Some (clock w))
                      (<[key := v]> (sessionData (session_at w o)))]>
               (objs w)) w).
Proof.
  intros Hkey Hproto. unfold SessionParser_set, write_key.
  rewrite (decide_False (P := key = reserved)) by done.
  by rewrite (decide_False (P := key = "__proto__")) by done.
Qed.

(** X9. [session.get(key)] after [session.set(key, val)] returns [val],
    for every key but the empty one (for which [get] returns the session
    object), the time stamp and [__proto__] (under which nothing is
    stored).  [set] leaves the other keys and every other session object as
    they were; and both [set] and [get] put the clock into the last-access
    time of the session object.  Reading a key that was never set gives
    [undefined], unless the name is inherited from [Object.prototype]. *)
Theorem session_set_get (o : loc) (key : string) (v : json) (w : world) :
  key ≠ reserved → key ≠ "__proto__" → key ≠ "" →
  ∃ w',
    SessionParser_set o key v w = Some w'
    ∧ (SessionParser_get o key w').2 = GotValue v
    ∧ (∀ key', key' ≠ key → key' ≠ reserved → key' ≠ "" →
         (SessionParser_get o key' w').2 = read_key key' (session_at w o))
    ∧ (∀ o', o' ≠ o → objs w' !! o' = objs w !! o')
    ∧ lastAccessTime (session_at w' o) = Some (clock w)
    ∧ lastAccessTime (session_at (SessionParser_get o key w).1 o)
      = Some (clock w)
    ∧ (sessionData (session_at w o) !! key = None →
       (SessionParser_get o key w).2
       = if Js.inherited key then GotInherited key else GotUndefined).
Proof.
  intros Hkey Hproto Hne.
  unfold SessionParser_set, write_key.
  rewrite (decide_False (P := key = reserved)) by done.
  rewrite (decide_False (P := key = "__proto__")) by done.
  eexists. split; [reflexivity|].
  unfold SessionParser_get, touch, read_key, Js.truthy_str.
  rewrite (bool_decide_eq_true_2 (key ≠ "")) by done.
  rewrite !(decide_False (P := key = reserved)) by done.
  unfold session_at. simpl.
  repeat (rewrite lookup_insert_eq; simpl).
  split; [done|]. split; [|split; [|split; [done|split; [done|]]]].
  - intros key' Hk Hres Hne'.
    rewrite (bool_decide_eq_true_2 (key' ≠ "")) by done.
    destruct (decide (key' = reserved)) as [|_]; [done|].
    by rewrite lookup_insert_ne.
  - intros o' Ho. by rewrite lookup_insert_ne.
  - by intros ->.
Qed.

Lemma find_app_some (ch : ascii) (p q : string) :
  is_Some (Js.find (p +:+ String ch q) (String ch "")).
Proof.
  induction p as [|c p IH].
  - change ("" +:+ ?x) with x. cbn [Js.find String.prefix].
    destruct (ascii_dec ch ch); [|done]. rewrite prefix_empty. by eexists.
  - change (String c p +:+ ?x) with (String c (p +:+ x)).
    cbn [Js.find]. destruct (String.prefix _ _); [by eexists|].
    destruct IH as [n ->]. by eexists.
Qed.

Lemma newID_not_proto (w : world) : (newID w).1 ≠ "__proto__".
Proof.
  intros H.
  assert (is_Some (Js.find (newID w).1 "-")) as [n Hn].
  { unfold newID. cbn [fst]. rewrite !append_assoc.
    apply find_app_some. }
  rewrite H in Hn. by vm_compute in Hn.
Qed.

Lemma newID_fits (w : world) :
  Z.of_nat (Js.length (toString36 (clock w) +:+ "-" +:+ serverID Settings))
  ≤ sessionLength Settings →
  Z.of_nat (Js.length (newID w).1) = sessionLength Settings.
Proof.
  intros Hfit. unfold newID. cbn [fst].
  rewrite length_app, random_chars_length. lia.
Qed.

Lemma newID_truthy (w : world) : Js.truthy_str (newID w).1 = true.
Proof.
  unfold newID, Js.truthy_str. cbn [fst]. apply bool_decide_eq_true.
  intros H. apply (f_equal Js.length) in H. revert H.
  rewrite !length_app. simpl. lia.
Qed.

Lemma setSession_session (c : ctx) :
  reqSession (req (setSession c))
  = Some (SessionParser (Some (newID (wld c)).1)
            (Some (fresh (dom (objs (wld c))))))
  ∧ wld (setSession c)
    = set_objs (<[fresh (dom (objs (wld c))) := Session (Some (clock (wld c))) ∅]>
                  (objs (wld c)))
        (newID (wld c)).2.
Proof. by destruct c as [rq rs w]. Qed.

Lemma MemoryStore_get_held (i : string) (o : loc) (w : world)
    (l : gmap string loc) :
  list_ w = Some l → l !! i = Some o →
  MemoryStore_get i w = (w, StoredSession o).
Proof.
  intros Hl Hi. unfold MemoryStore_get.
  rewrite (ensure_list_Some _ _ Hl). unfold the_list. rewrite Hl. simpl.
  by rewrite Hi.
Qed.

(** X10. A session lives from one request to the next.  The first request
    arrives without a session cookie; its handler sets a key and the
    response is ended, which stores the session in the memory store.  The
    second request brings the id back at time [t2].  Within the timeout it
    is given the very same session object, the key reads as it was written,
    no new cookie is queued, and the last-access time becomes [t2].  Past
    the timeout the old id is deleted from the store and the request goes
    down the create path.  The id is recognised at all only because the
    clock, a dash and the server id fit into [sessionLength]. *)
Theorem session_across_requests (c1 : ctx) (rq2 : request) (r2 : response)
    (key : string) (v : json) (t2 : Z) :
  SessionStore = MemoryStore →
  key ≠ reserved → key ≠ "__proto__" → key ≠ "" →
  Z.of_nat (Js.length (toString36 (clock (wld c1)) +:+ "-" +:+ serverID Settings))
  ≤ sessionLength Settings →
  clock (wld c1) ≠ 0 →
  let i := (newID (wld c1)).1 in
  let o := fresh (dom (objs (wld c1))) in
  let c := setSession c1 in
  default ∅ (cookies rq2) !! sidKey = Some i →
  ∃ ws,
    SessionParser_set o key v (wld c) = Some ws
    ∧ let w1 := wld (res_end "" (Ctx (req c) (res c) ws)) in
      let c2 := SessionParser_init (Ctx rq2 r2 (set_clock t2 w1)) in
      reqSession (req c) = Some (SessionParser (Some i) (Some o))
      ∧ (t2 - clock (wld c1) ≤ sessionTimeout Settings →
         reqSession (req c2) = Some (SessionParser (Some i) (Some o))
         ∧ res c2 = r2
         ∧ (SessionParser_get o key (wld c2)).2 = GotValue v
         ∧ lastAccessTime (session_at (wld c2) o) = Some t2)
      ∧ (sessionTimeout Settings < t2 - clock (wld c1) →
         created (Ctx rq2 r2 (MemoryStore_del i (set_clock t2 w1))) c2
         ∧ the_list (wld c2) !! i = None
         ∧ reqSession (req c2) ≠ Some (SessionParser (Some i) (Some o))).
Proof.
  intros HS Hkey Hproto Hne Hfit Hclock i o c Hcookie.
  destruct (setSession_session c1) as [Hsp Hw].
  pose proof (set_data_key o key v (wld c) Hkey Hproto) as Hset.
  eexists. split; [exact Hset|].
  set (ws := set_objs _ (wld c)) in *.
  intros w1 c2.
  split; [done|].
  assert (w1 = MemoryStore_set i o ws) as Hw1.
  { unfold w1, res_end. cbn [req wld]. fold c in Hsp. rewrite Hsp.
    unfold session_update. cbn [sid val]. by rewrite HS. }
  assert (store_get SessionStore i (set_clock t2 w1)
          = (set_clock t2 w1, StoredSession o)) as Hget.
  { rewrite HS, Hw1. cbn [store_get MemoryStore].
    eapply MemoryStore_get_held; [reflexivity|].
    apply lookup_set_own_eq, newID_not_proto. }
  assert (session_at (set_clock t2 w1) o
          = Session (Some (clock (wld c1))) (<[key := v]> ∅)) as Hobj.
  { rewrite Hw1. unfold session_at, MemoryStore_set.
    cbn [objs set_clock set_list]. rewrite objs_ensure.
    unfold ws. cbn [objs set_objs]. rewrite lookup_insert_eq. cbn [default].
    unfold c. rewrite Hw. unfold session_at, o. cbn [objs set_objs clock].
    by rewrite lookup_insert_eq. }
  assert (c2 = getSession i (StoredSession o) (Ctx rq2 r2 (set_clock t2 w1)))
    as Hc2.
  { unfold c2, SessionParser_init. cbn [req res wld]. rewrite Hcookie.
    unfold i at 1 2. rewrite newID_truthy.
    rewrite bool_decide_eq_true_2 by (by apply newID_fits).
    cbn [negb orb]. fold i. by rewrite Hget. }
  assert (isValid (set_clock t2 w1) (StoredSession o)
          = (t2 - clock (wld c1) <=? sessionTimeout Settings)) as Hvalid.
  { unfold isValid. rewrite Hobj. cbn [lastAccessTime].
    unfold Js.truthy_num. by rewrite bool_decide_eq_true_2. }
  split.
  - intros Hin. rewrite Hc2. unfold getSession. cbn [wld req res].
    rewrite Hvalid. replace (_ <=? _) with true by (symmetry; by apply Z.leb_le).
    cbn [req res wld reqSession set_session]. split; [done|]. split; [done|].
    unfold SessionParser_get, touch, read_key, Js.truthy_str.
    rewrite (bool_decide_eq_true_2 (key ≠ "")) by done.
    destruct (decide (key = reserved)) as [|_]; [done|].
    cbn [fst snd]. rewrite Hobj. unfold session_at. simpl.
    repeat (rewrite lookup_insert_eq; simpl). done.
  - intros Hout. rewrite Hc2. unfold getSession. cbn [wld req res].
    rewrite Hvalid. replace (_ <=? _) with false by (symmetry; apply Z.leb_gt; lia).
    rewrite HS. cbn [store_del MemoryStore].
    pose proof (setSession_created
                  (Ctx rq2 r2 (MemoryStore_del i (set_clock t2 w1)))) as Hcr.
    split; [done|].
    destruct (setSession_session
                (Ctx rq2 r2 (MemoryStore_del i (set_clock t2 w1)))) as [Hsp2 Hw2].
    split.
    + rewrite Hw2. rewrite Hw1. unfold the_list, MemoryStore_del, MemoryStore_set.
      simpl. by rewrite lookup_delete_eq.
    + rewrite Hsp2. intros [= _ Ho].
      pose proof (fresh_unused (MemoryStore_del i (set_clock t2 w1))) as Hf.
      cbn [wld] in Ho. rewrite Ho in Hf.
      assert (objs (MemoryStore_del i (set_clock t2 w1)) = objs w1) as Hobjs.
      { rewrite Hw1. done. }
      rewrite Hobjs in Hf. unfold session_at in Hobj.
      cbn [objs set_clock] in Hobj. by rewrite Hf in Hobj.
Qed.

(** *** The file store's sweep *)

Lemma digits36_acc (fuel : nat) (n : N) (acc : string) :
  digits36 fuel n acc = digits36 fuel n "" +:+ acc.
Proof.
  revert n acc. induction fuel as [|fuel IH]; intros n acc; [done|].
  cbn [digits36].
  destruct (CHARS_digit _ (mod36_lt n)) as (c & -> & _).
  destruct (n / 36 =? 0)%N; [done|].
  rewrite (IH _ (String c "" +:+ acc)), (IH _ (String c "" +:+ "")).
  by rewrite append_assoc.
Qed.

Lemma digits36_last (fuel : nat) (n : N) :
  ∃ c, digit36 c = Some (n mod 36)%N
       ∧ digits36 (S fuel) n ""
         = (if (n / 36 =? 0)%N then "" else digits36 fuel (n / 36) "")
           +:+ String c "".
Proof.
  destruct (CHARS_digit _ (mod36_lt n)) as (c & Hc & Hd).
  exists c. rewrite N2Nat.id in Hd. split; [done|].
  cbn [digits36]. rewrite Hc.
  destruct (n / 36 =? 0)%N; [done|]. by rewrite digits36_acc.
Qed.

Lemma all_digits_app (s t : string) :
  all_digits s → all_digits t → all_digits (s +:+ t).
Proof.
  intros Hs Ht. induction s as [|x s IH]; [done|].
  destruct Hs as [Hx Hs]. split; [done|]. by apply IH.
Qed.

Lemma parse_digits_app (s t : string) (a : N) :
  all_digits s → parse_digits (s +:+ t) a = parse_digits t (parse_digits s a).
Proof.
  revert a. induction s as [|x s IH]; intros a Hs; [done|].
  destruct Hs as [[d Hd] Hs].
  change (String x s +:+ t) with (String x (s +:+ t)).
  cbn [parse_digits]. rewrite Hd. by apply IH.
Qed.

Lemma digits36_parse (fuel : nat) (n : N) :
  (n < 2 ^ N.of_nat fuel)%N →
  all_digits (digits36 fuel n "")
  ∧ parse_digits (digits36 fuel n "") 0 = n.
Proof.
  revert n. induction fuel as [|fuel IH]; intros n Hn.
  - simpl in Hn. split; [done|]. simpl. lia.
  - destruct (digits36_last fuel n) as (c & Hc & ->).
    destruct (n / 36 =? 0)%N eqn:Hq.
    + apply N.eqb_eq in Hq. split; [by split|].
      assert (n < 36)%N as Hlt by (apply N.div_small_iff; [done|exact Hq]).
      change ("" +:+ String c "") with (String c "").
      cbn [parse_digits]. rewrite Hc. rewrite N.mod_small by done. lia.
    + apply N.eqb_neq in Hq.
      destruct (IH (n / 36)%N) as [Hall Hval].
      { rewrite Nat2N.inj_succ, N.pow_succ_r' in Hn.
        apply N.Div0.div_lt_upper_bound. lia. }
      split; [apply all_digits_app; [done|by split]|].
      rewrite parse_digits_app by done. rewrite Hval.
      cbn [parse_digits]. rewrite Hc.
      pose proof (N.div_mod n 36). lia.
Qed.

Lemma digit_plain (c : ascii) :
  is_Some (digit36 c) →
  is_space c = false ∧ c ≠ "-"%char ∧ c ≠ "+"%char.
Proof.
  intros [d Hd]. revert Hd.
  destruct c as [[] [] [] [] [] [] [] []]; by vm_compute.
Qed.

Lemma all_digits_lacks (s : string) : all_digits s → lacks "-" s.
Proof.
  induction s as [|c s IH]; [done|]. intros [Hc Hs].
  apply lacks_cons. split; [by apply digit_plain|by apply IH].
Qed.

Lemma parseInt36_digits (s : string) :
  all_digits s → s ≠ "" →
  parseInt36 s = Some (Z.of_N (parse_digits s 0))
  ∧ parseInt36 (String "-" s) = Some (- Z.of_N (parse_digits s 0)).
Proof.
  destruct s as [|c s]; [done|]. intros [Hc _] _.
  destruct (digit_plain c Hc) as (Hsp & Hm & Hp). destruct Hc as [d Hd].
  unfold parseInt36. cbn [skip_space]. rewrite Hsp.
  change (is_space "-") with false. cbv iota.
  split.
  - revert Hd Hm Hp.
    destruct c as [[] [] [] [] [] [] [] []]; intros Hd Hm Hp;
      first [ by vm_compute in Hd
            | rewrite Hd; cbv beta iota; f_equal; lia ].
  - cbn -[Z.mul Z.of_N parse_digits]. rewrite Hd. by f_equal.
Qed.

Lemma toString36_digits (t : Z) :
  0 ≤ t →
  all_digits (toString36 t) ∧ toString36 t ≠ ""
  ∧ parseInt36 (toString36 t) = Some t.
Proof.
  intros Ht. unfold toString36.
  replace (t <? 0) with false by (symmetry; apply Z.ltb_ge; lia).
  change ("" +:+ ?x) with x.
  set (n := Z.to_N (Z.abs t)).
  destruct (digits36_parse (S (N.to_nat (N.log2 n))) n) as [Hall Hval].
  { rewrite Nat2N.inj_succ, N2Nat.id.
    destruct (decide (n = 0%N)) as [->|Hn]; [done|].
    apply N.log2_spec. lia. }
  assert (digits36 (S (N.to_nat (N.log2 n))) n "" ≠ "") as Hne.
  { destruct (digits36_last (N.to_nat (N.log2 n)) n) as (c & _ & ->).
    by destruct (if (n / 36 =? 0)%N then _ else _). }
  split; [done|]. split; [done|].
  destruct (parseInt36_digits _ Hall Hne) as [-> _]. rewrite Hval.
  f_equal. lia.
Qed.

(** X11. [FileStore.clear] finds the time a session was created by reading
    the file name up to its first dash in base 36, which undoes the
    [toString(36)] of [newID]: a time that is not negative reads back as
    itself (times are below 2^53, where the numbers of JavaScript are
    exact).  So the file of a session id issued at time [t] is deleted
    exactly when [t] is not 0 and lies more than 24 timeouts before now;
    how recently the session was used plays no part.  A file whose name
    (in ASCII) does not have [sessionLength] characters is never deleted,
    and a failed [readdir] deletes nothing. *)
Theorem FileStore_clear_by_issue_time (w : world) (now : Z)
    (files : list string) :
  0 ≤ clock w < 2 ^ 53 →
  Z.of_nat (Js.length (toString36 (clock w) +:+ "-" +:+ serverID Settings))
  ≤ sessionLength Settings →
  (newID w).1 ∈ files →
  parseInt36 (toString36 (clock w)) = Some (clock w)
  ∧ ((newID w).1 ∈ FileStore_clear (Some files) now
     ↔ clock w ≠ 0 ∧ clock w < now - sessionTimeout Settings * 24)
  ∧ (∀ file, ascii_only file →
             Z.of_nat (Js.length file) ≠ sessionLength Settings →
             file ∉ FileStore_clear (Some files) now)
  ∧ (∀ file, file ∈ FileStore_clear (Some files) now → file ∈ files)
  ∧ FileStore_clear None now = [].
Proof.
  intros [Ht _] Hfit Hin.
  destruct (toString36_digits _ Ht) as (Hall & Hne & Hparse).
  split; [done|]. split; [|split; [|split; [|done]]].
  - unfold FileStore_clear. rewrite list_elem_of_filter.
    assert (clear_test now (newID w).1
            = Js.truthy_num (clock w)
              && (clock w <? now - sessionTimeout Settings * 24)) as ->.
    { unfold clear_test.
      rewrite bool_decide_eq_true_2 by (by apply newID_fits).
      unfold newID. cbn [fst].
      rewrite append_assoc.
      change ("-" +:+ serverID Settings) with (String "-" (serverID Settings)).
      change (String "-" (serverID Settings) +:+ ?x)
        with (String "-" (serverID Settings +:+ x)).
      unfold Js.indexOf.
      rewrite (find_after "-" (toString36 (clock w))) by (by apply all_digits_lacks).
      assert ((0 <? Z.of_nat (Js.length (toString36 (clock w)))) = true) as ->.
      { apply Z.ltb_lt. destruct (toString36 (clock w)); [done|]. simpl. lia. }
      cbn [andb]. rewrite Nat2Z.id, substr_to_app. by rewrite Hparse. }
    unfold Js.truthy_num. split.
    + intros [[H1 H2]%andb_true_iff _].
      apply bool_decide_eq_true in H1. apply Z.ltb_lt in H2. done.
    + intros [H1 H2]. split; [|done]. apply andb_true_iff.
      split; [by apply bool_decide_eq_true|by apply Z.ltb_lt].
  - intros file _ Hlen. unfold FileStore_clear. rewrite list_elem_of_filter.
    intros [Htest _]. unfold clear_test in Htest.
    by rewrite bool_decide_eq_false_2 in Htest.
  - intros file. unfold FileStore_clear. rewrite list_elem_of_filter. props.
Qed.

(** *** The stages of [Parser] *)

Lemma parseSession_enters (m : mapper) (c : ctx) :
  (∃ c1 c' nx, call_handler m c1 = Returned c' nx
               ∧ parseSession m c = (c', Invoked nx))
  ∨ (∃ msg, (parseSession m c).2 = Caught msg).
Proof.
  unfold parseSession.
  destruct (session_ m && _);
    match goal with |- context [handle m ?x] =>
      destruct (handle_invokes m x) as [(c' & nx & H1 & H2)|(c' & st & msg & H1 & H2)]
    end; eauto 6.
Qed.

Lemma parseBody_enters (m : mapper) (c : ctx) :
  (∃ c1 c' nx, call_handler m c1 = Returned c' nx
               ∧ parseBody m c = (c', Invoked nx))
  ∨ (∃ msg, (parseBody m c).2 = Caught msg).
Proof.
  unfold parseBody.
  destruct (post_mode m) as [mode|]; [|apply parseSession_enters].
  destruct (reqBody (req c)); apply parseSession_enters.
Qed.

(** X12. What keeps a matched rule's function from being called.  After the
    cookies are read, a failing [_before] check answers the request with
    ["This is not a valid request"] and nothing else is done; an upload rule
    whose form does not parse leaves the request without any answer.  These
    are the only two ways: in every other case the rule's function is
    entered, and [Parser] ends with its return or with its error caught. *)
Theorem Parser_gates (m : mapper) (c : ctx) :
  let c0 := Ctx (set_cookies
                   (parse_cookie_header (headers (req c) !! "cookie"))
                   (req c)) (res c) (wld c) in
  (before_ok m c0 = false →
   Parser m c = (res_end "This is not a valid request" c0, Rejected))
  ∧ (before_ok m c0 = true → file_ m = true →
     reqBody (req c) = BodyUndefined → form_parse (req c0) = None →
     Parser m c = (c0, FormError))
  ∧ ((Parser m c).2 = Rejected ↔ before_ok m c0 = false)
  ∧ ((Parser m c).2 = FormError
     ↔ before_ok m c0 = true ∧ file_ m = true
       ∧ reqBody (req c) = BodyUndefined ∧ form_parse (req c0) = None)
  ∧ ((Parser m c).2 ≠ Rejected → (Parser m c).2 ≠ FormError →
     (∃ c1 c' nx, call_handler m c1 = Returned c' nx
                  ∧ Parser m c = (c', Invoked nx))
     ∨ (∃ msg, (Parser m c).2 = Caught msg)).
Proof.
  intros c0.
  assert ((before_ok m c0 = false
           ∧ Parser m c = (res_end "This is not a valid request" c0, Rejected))
          ∨ (before_ok m c0 = true ∧ file_ m = true
             ∧ reqBody (req c) = BodyUndefined ∧ form_parse (req c0) = None
             ∧ Parser m c = (c0, FormError))
          ∨ (before_ok m c0 = true
             ∧ ¬ (file_ m = true ∧ reqBody (req c) = BodyUndefined
                  ∧ form_parse (req c0) = None)
             ∧ ∃ x, Parser m c = parseBody m x)) as Hcases.
  { unfold Parser, parseCookies. fold c0. unfold parseFile.
    change (reqBody (req c0)) with (reqBody (req c)).
    destruct (before_ok m c0); cbn [negb]; [|by left].
    right. destruct (file_ m).
    2: { right. split; [done|]. split; [by intros [? _]|]. by eexists. }
    destruct (reqBody (req c)).
    2,3: right; split; [done|]; split; [by intros (_ & ? & _)|]; by eexists.
    destruct (form_parse (req c0)) as [[fields fs]|]; [|by left].
    right. split; [done|]. split; [by intros (_ & _ & ?)|]. by eexists. }
  assert (∀ x, (parseBody m x).2 ≠ Rejected ∧ (parseBody m x).2 ≠ FormError)
    as Hno.
  { intros x.
    destruct (parseBody_enters m x) as [(c1 & c' & nx & _ & ->)|(msg & ->)];
      done. }
  destruct Hcases as [[Hb Hp]|[(Hb & Hf & Hu & Hn & Hp)|(Hb & Hnot & x & Hp)]].
  - rewrite Hp, Hb. cbn [snd]. split; [done|]. split; [done|].
    split; [done|]. split; [|done]. split; [done|]. by intros [? _].
  - rewrite Hp, Hb, Hf, Hu, Hn. cbn [snd]. split; [done|]. split; [done|].
    split; [done|]. split; [done|]. done.
  - rewrite Hp, Hb. destruct (Hno x) as [N1 N2].
    split; [done|]. split; [props|]. split; [done|].
    split; [props|]. intros _ _. apply parseBody_enters.
Qed.

(** *** Cookies and the end of a response *)

(** X13. A cookie queued with [res.cookie] reaches the [Set-Cookie] header
    when the response is ended with its head still unwritten.  When
    [writeHead] is called before [end], the queued cookies are not sent.
    Once ended, the response is sealed: setting a header, writing a head,
    setting the type or ending again changes nothing. *)
Theorem queued_cookies_at_end (name : string) (value : option string)
    (options : cookieOptions) (r : response) (data : string)
    (status : Z) (hs : gmap string string) :
  ended r = false → headersSent r = false →
  let r1 := Cookie name value options r in
  (∃ text, resCookies r1 = resCookies r ++ [text]
           ∧ String.prefix (name +:+ "=" +:+ default "" value) text = true
           ∧ setCookie (end_response data r1) = resCookies r ++ [text])
  ∧ setCookie (end_response data (writeHead status hs r1)) = setCookie r
  ∧ resBody (end_response data r1) = resBody r +:+ data
  ∧ (∀ k v d st h ty,
       let r' := end_response data r1 in
       setHeader k v r' = r' ∧ writeHead st h r' = r'
       ∧ res_type ty r' = r' ∧ end_response d r' = r').
Proof.
  intros He Hs r1.
  assert (ended r1 = false ∧ headersSent r1 = false ∧ setCookie r1 = setCookie r
          ∧ resBody r1 = resBody r) as (He1 & Hs1 & Hc1 & Hb1) by done.
  split; [|split; [|split]].
  - eexists. split; [reflexivity|]. split.
    + set (base := name +:+ "=" +:+ default "" value).
      assert (∀ a b, String.prefix a (a +:+ b) = true) as Hpre.
      { intros a b. induction a as [|x a IH]; [by destruct b|].
        change (String x a +:+ b) with (String x (a +:+ b)). simpl.
        by destruct (ascii_dec x x). }
      assert (∀ a b c, String.prefix a b = true → String.prefix a (b +:+ c) = true)
        as Hext.
      { intros a. induction a as [|x a IH]; intros b c0 H; [by destruct (b +:+ c0)|].
        destruct b as [|y b]; [done|].
        change (String y b +:+ c0) with (String y (b +:+ c0)). simpl in *.
        destruct (ascii_dec x y); [by apply IH|done]. }
      assert (∀ (b : bool) s t, String.prefix base s = true →
                String.prefix base (if b then s +:+ t else s) = true) as Hif.
      { intros [] s t H; [by apply Hext|done]. }
      apply Hif, Hif, Hif, Hif.
      destruct value as [v|]; [|apply Hpre].
      assert (String.prefix base base = true) as Hrefl.
      { clear. induction base as [|x a IH]; [done|]. simpl.
        by destruct (ascii_dec x x). }
      destruct (expires options) as [e|]; [|done].
      by apply Hif.
    + unfold end_response. rewrite He1, Hs1. cbn [setCookie resCookies r1 Cookie].
      by destruct (resCookies r).
  - unfold end_response, writeHead. rewrite He1. simpl. done.
  - unfold end_response. rewrite He1, Hs1. cbn [resBody]. by rewrite Hb1.
  - intros k v d st h ty r'.
    assert (ended r' = true ∧ headersSent r' = true) as [He' Hs'].
    { unfold r', end_response. by rewrite He1. }
    unfold setHeader, writeHead, res_type, end_response. rewrite He', Hs'.
    by rewrite andb_false_r.
Qed.

(** *** Dispatch *)

Lemma handle_loop_skip (hs1 hs2 : list mapper) (c : ctx) :
  (∀ m, m ∈ hs1 → truthy (Mapper_match m (req c) true).1 = false) →
  handle_loop (hs1 ++ hs2) c = handle_loop hs2 c.
Proof.
  induction hs1 as [|m hs1 IH]; intros H; [done|].
  cbn [app handle_loop].
  assert (truthy (Mapper_match m (req c) true).1 = false) as Hr
    by (apply H, elem_of_cons; by left).
  pose proof (match_falsy_req _ _ _ Hr) as Hq.
  destruct (Mapper_match m (req c) true) as [r rq]. simpl in *.
  rewrite Hr, Hq.
  replace (Ctx (req c) (res c) (wld c)) with c by (by destruct c).
  apply IH. intros m' Hm'. apply H, elem_of_cons. by right.
Qed.

(** X14. Only the first handler that matches a request is run, whatever
    is registered after it; rules before it that do not match leave the
    request as it was.  [Handler.handle] then reports the request as
    handled.  A string handler answers 200 with the string as the body and
    the content type [text/html]; as it writes the head before the end,
    cookies queued earlier (a new session's id) are not sent.  A handler
    that is an object of another kind (a number, say, or a plain object)
    is reported as handled although nothing is answered. *)
Theorem first_handler_wins (hs1 hs2 : list mapper) (m : mapper) (c : ctx) :
  (∀ m', m' ∈ hs1 → truthy (Mapper_match m' (req c) true).1 = false) →
  truthy (Mapper_match m (req c) true).1 = true →
  handle_loop (hs1 ++ m :: hs2) c = handle_loop [m] c
  ∧ is_Some (handle_loop [m] c).2
  ∧ (∀ content, mhandler m = HString content → untouched (res c) →
       let c' := (handle_loop [m] c).1 in
       (handle_loop [m] c).2 = Some Content
       ∧ statusCode (res c') = 200 ∧ resBody (res c') = content
       ∧ ended (res c') = true
       ∧ resHeaders (res c') !! "Content-Type" = Some "text/html"
       ∧ setCookie (res c') = setCookie (res c))
  ∧ (mhandler m = HOther →
     (handle_loop [m] c).2 = Some Unanswered
     ∧ res (handle_loop [m] c).1 = res c).
Proof.
  intros Hskip Hm.
  split; [|split; [|split]].
  - rewrite (handle_loop_skip hs1 (m :: hs2) c Hskip).
    cbn [handle_loop].
    destruct (Mapper_match m (req c) true) as [r rq]. simpl in Hm.
    by rewrite Hm.
  - cbn [handle_loop].
    destruct (Mapper_match m (req c) true) as [r rq]. simpl in Hm. rewrite Hm.
    destruct (mhandler m); [destruct (Parser _ _)| |destruct (writeFile _ _)|];
      by eexists.
  - intros content Hh Hu c'. unfold c'. clear c'. cbn [handle_loop].
    destruct (Mapper_match m (req c) true) as [r rq]. simpl in Hm.
    rewrite Hm, Hh. cbn [fst snd]. split; [done|].
    unfold res_end, with_res. cbn [res req wld].
    destruct (answer 200 html content (res c) Hu) as (G1 & G2 & G3 & G4).
    split; [done|]. split; [done|]. split; [done|]. split.
    + rewrite G4. by apply lookup_union_Some_l.
    + destruct Hu as (He & _). unfold end_response, writeHead. rewrite He.
      done.
  - intros Hh. cbn [handle_loop].
    destruct (Mapper_match m (req c) true) as [r rq]. simpl in Hm.
    by rewrite Hm, Hh.
Qed.

(** X15. A filter that answers on its own ends the request.  When the
    first filter that matches runs through [Parser] without its function
    asking for [next] (it returned, it threw, or it was never called), that
    result is the result of the whole request: no later filter is tried,
    no handler is looked up and no file is served, whatever is registered
    and whatever the disk holds. *)
Theorem answering_filter_ends_request (depth : nat) (rq : request) (w : world)
    (fs1 fs2 : list mapper) (m : mapper) (c' : ctx) (o : outcome) :
  filters = fs1 ++ m :: fs2 →
  (∀ m', m' ∈ fs1 →
         truthy (Mapper_match m' (set_params ∅ rq) false).1 = false) →
  truthy (Mapper_match m (set_params ∅ rq) false).1 = true →
  Parser m (Ctx (Mapper_match m (set_params ∅ rq) false).2 fresh_response w)
  = (c', o) →
  o ≠ Invoked true →
  requestHandler depth rq w
  = (FilterChain (S (length fs1)) (completion depth), c', o).
Proof.
  intros Hfs Hskip Hm Hp Ho. unfold requestHandler.
  set (c0 := Ctx (set_params ∅ rq) fresh_response w).
  set (fc0 := FilterChain 0 (completion depth)).
  rewrite (next_skips (length fs1) fc0 c0).
  2: { intros i [_ Hi]. simpl in Hi.
       destruct (lookup_lt_is_Some_2 fs1 i Hi) as [m' Hm'].
       exists m'. split.
       - rewrite Hfs. by apply lookup_app_l_Some.
       - apply Hskip. by apply list_elem_of_lookup_2 in Hm'. }
  cbn [idx fc0 cb Nat.add].
  assert (filters !! length fs1 = Some m) as Hat.
  { rewrite Hfs. by apply list_lookup_middle. }
  rewrite (next_match (FilterChain (length fs1) (completion depth)) c0 c' m o
             Hat Hm Hp).
  by destruct (decide (o = Invoked true)).
Qed.

(** *** Includes *)

Lemma find_None_cons (c : ascii) (s pat : string) :
  Js.find (String c s) pat = None →
  String.prefix pat (String c s) = false ∧ Js.find s pat = None.
Proof.
  cbn [Js.find]. destruct (String.prefix pat (String c s)); [done|].
  by destruct (Js.find s pat).
Qed.

Lemma include_at_no_prefix (s : string) :
  String.prefix includeBegin s = false → include_at s = None.
Proof. intros H. unfold include_at. by rewrite H. Qed.

(** A template without a marker is left as it is. *)
Lemma substitute_plain (a : string) (w : world) :
  Js.find a includeBegin = None → substitute (scan a 0) w = (w, a).
Proof.
  induction a as [|c a IH]; [done|].
  intros [Hp Hf]%find_None_cons. cbn [scan].
  rewrite (include_at_no_prefix _ Hp). cbn [substitute]. by rewrite IH.
Qed.

Lemma prefix_cons (x c : ascii) (p s : string) :
  String.prefix (String x p) (String c s)
  = if ascii_dec x c then String.prefix p s else false.
Proof. done. Qed.

(** The start of a marker cannot begin in a text that holds none and end
    in a marker that follows it. *)
Lemma no_straddle (a t : string) :
  a ≠ "" →
  String.prefix includeBegin a = false →
  String.prefix includeBegin (a +:+ includeBegin +:+ t) = false.
Proof.
  intros Ha H. revert H.
  destruct a as [|c a]; [done|]. clear Ha.
  let v := eval vm_compute in includeBegin in change includeBegin with v.
  change (String c a +:+ ?x) with (String c (a +:+ x)).
  rewrite !prefix_cons.
  do 13 (destruct (ascii_dec _ c) as [<-|]; [|done];
         destruct a as [|c a]; [by vm_compute|];
         change (String c a +:+ ?x) with (String c (a +:+ x));
         rewrite !prefix_cons).
  destruct (ascii_dec _ c) as [<-|]; [|done]. by destruct a.
Qed.

Lemma substitute_before (a t : string) (w : world) :
  Js.find a includeBegin = None →
  substitute (scan (a +:+ includeBegin +:+ t) 0) w
  = ((substitute (scan (includeBegin +:+ t) 0) w).1,
     a +:+ (substitute (scan (includeBegin +:+ t) 0) w).2).
Proof.
  induction a as [|c a IH].
  - intros _. change ("" +:+ ?x) with x. by destruct (substitute _ _).
  - intros [Hp Hf]%find_None_cons.
    pose proof (no_straddle (String c a) t ltac:(done) Hp) as Hn.
    change (String c a +:+ ?x) with (String c (a +:+ x)) in *.
    cbn [scan]. rewrite (include_at_no_prefix _ Hn). cbn [substitute].
    by rewrite IH.
Qed.

Lemma name_run_marker (name rest : string) :
  name_chars name →
  name_run (name +:+ includeAfter +:+ rest) = (name, includeAfter +:+ rest).
Proof.
  induction name as [|c name IH]; [done|]. intros [Hc Hn].
  change (String c name +:+ ?x) with (String c (name +:+ x)).
  cbn [name_run]. by rewrite Hc, IH.
Qed.

Lemma prefix_append (p q : string) : String.prefix p (p +:+ q) = true.
Proof.
  induction p as [|x p IH]; [by destruct q|].
  change (String x p +:+ q) with (String x (p +:+ q)). simpl.
  by destruct (ascii_dec x x).
Qed.

Lemma marker_shape (name b : string) :
  marker name +:+ b = includeBegin +:+ name +:+ includeAfter +:+ b.
Proof. unfold marker. by rewrite !append_assoc. Qed.

Lemma include_at_marker (name b : string) :
  name ≠ "" → name_chars name →
  include_at (marker name +:+ b) = Some (marker name).
Proof.
  intros Hne Hn. rewrite marker_shape. unfold include_at.
  rewrite prefix_append.
  change includeBeginLen with (Js.length includeBegin).
  rewrite substr_from_app, (name_run_marker _ _ Hn), prefix_append.
  unfold Js.truthy_str. by rewrite bool_decide_eq_true_2.
Qed.

Lemma includeFile_marker (name : string) : includeFile (marker name) = name.
Proof.
  unfold includeFile, marker.
  change includeBeginLen with (Js.length includeBegin).
  rewrite substr_from_app, !length_app.
  change (Js.length includeBegin) with 14%nat.
  change (Js.length includeAfter) with 4%nat.
  change includeAfterLen with 4%nat.
  replace (14 + (Js.length name + 4) - 4 - 14)%nat with (Js.length name) by lia.
  apply substr_to_app.
Qed.

Lemma scan_skip (p q : string) : scan (p +:+ q) (Js.length p) = scan q 0.
Proof.
  induction p as [|c p IH]; [by destruct q|].
  change (String c p +:+ q) with (String c (p +:+ q)). apply IH.
Qed.

(** The substitution at one marker between two texts that hold none. *)
Lemma substitute_marker (a name b : string) (w : world) :
  Js.find a includeBegin = None → Js.find b includeBegin = None →
  name ≠ "" → name_chars name →
  substitute (scan (a +:+ marker name +:+ b) 0) w
  = (getFile_start name w, a +:+ pooled w name +:+ b).
Proof.
  intros Ha Hb Hne Hn.
  pose proof (include_at_marker name b Hne Hn) as Hat.
  rewrite marker_shape in *. rewrite (substitute_before a _ w Ha).
  assert (substitute (scan (includeBegin +:+ name +:+ includeAfter +:+ b) 0) w
          = (getFile_start name w, pooled w name +:+ b)) as ->; [|done].
  remember (includeBegin +:+ name +:+ includeAfter +:+ b) as s eqn:Hs.
  destruct s as [|c s]; [done|]. cbn [scan]. rewrite Hat.
  assert (scan s (Js.length (marker name) - 1) = scan b 0) as ->.
  { rewrite <- marker_shape in Hs. unfold marker in Hs.
    unfold includeBegin at 1 in Hs.
    change (("<!--#include=" +:+ dquote) +:+ ?x)
      with (String "<" (("!--#include=" +:+ dquote) +:+ x)) in Hs.
    change ((String "<" ?x) +:+ b) with (String "<" (x +:+ b)) in Hs.
    injection Hs as _ ->.
    unfold marker, includeBegin at 1.
    change (("<!--#include=" +:+ dquote) +:+ ?x)
      with (String "<" (("!--#include=" +:+ dquote) +:+ x)).
    change (Js.length (String "<" ?x) - 1)%nat with (Js.length x - 0)%nat.
    rewrite Nat.sub_0_r. apply scan_skip. }
  cbn [substitute]. rewrite includeFile_marker.
  rewrite (substitute_plain b _ Hb).
  destruct (getFile_start_world name w) as (Hpool & _).
  unfold pooled. by rewrite Hpool.
Qed.

(** X16. A template is expanded at its include markers and nowhere else,
    and one level deep only.  A text that holds no marker start is handed
    on unchanged.  Where a marker for [name] stands between two such texts,
    it is replaced by what the template pool holds for [name] at that
    moment, as it is, and by nothing when the pool has no entry; the text
    around it is kept, and the only effect is that a read of [name] is
    started unless it is served from the cache.  File names that are
    property names of [Object.prototype] are left out: the pool is an
    object literal, and reads something under them without an entry. *)
Theorem include_expanded_once (a name b : string) (w : world) :
  Js.find a includeBegin = None → Js.find b includeBegin = None →
  name ≠ "" → name_chars name → Js.inherited name = false →
  substitute (scan a 0) w = (w, a)
  ∧ substitute (scan (a +:+ marker name +:+ b) 0) w
    = (getFile_start name w, a +:+ pooled w name +:+ b)
  ∧ (in_cache w name = true →
     (substitute (scan (a +:+ marker name +:+ b) 0) w).1 = w)
  ∧ (templatePool w !! name = None →
     (substitute (scan (a +:+ marker name +:+ b) 0) w).2 = a +:+ b).
Proof.
  intros Ha Hb Hne Hn _. rewrite (substitute_marker a name b w Ha Hb Hne Hn).
  split; [by apply substitute_plain|]. split; [done|]. split.
  - intros Hc. by apply getFile_start_cached.
  - intros Hp. cbn [snd]. unfold pooled. by rewrite Hp.
Qed.

(** X17. An include that is not served from the cache is one render
    behind.  The render takes what the template pool holds for the file
    (nothing, if it has never been read) and only starts a read; once that
    read has come back, the next render shows what the file holds.  With
    the template cache disabled this is so for every render.  (File names
    that are property names of [Object.prototype] are left out.) *)
Theorem include_one_render_behind (a name b new : string) (w : world) :
  Js.find a includeBegin = None → Js.find b includeBegin = None →
  name ≠ "" → name_chars name → Js.inherited name = false →
  in_cache w name = false →
  pending w = [] →
  file_content w (template_path name) = Some new →
  let tmpl := a +:+ marker name +:+ b in
  (templateCache Settings = false → ∀ w' f, in_cache w' f = false)
  ∧ (substitute (scan tmpl 0) w).2 = a +:+ pooled w name +:+ b
  ∧ reads (substitute (scan tmpl 0) w).1 = reads w ++ [template_path name]
  ∧ pooled (drain (substitute (scan tmpl 0) w).1) name = new
  ∧ (substitute (scan tmpl 0) (drain (substitute (scan tmpl 0) w).1)).2
    = a +:+ new +:+ b.
Proof.
  intros Ha Hb Hne Hn _ Hc Hp Hf tmpl. unfold tmpl.
  split; [intros Hoff w' f; unfold in_cache; by rewrite Hoff|].
  rewrite !(substitute_marker a name b _ Ha Hb Hne Hn). cbn [fst snd].
  split; [done|].
  assert (reads (getFile_start name w) = reads w ++ [template_path name]) as Hr.
  { unfold getFile_start. by rewrite Hc. }
  split; [done|].
  assert (pooled (drain (getFile_start name w)) name = new) as Hnew.
  { unfold drain.
    change (pooled (set_pending [] ?x) name) with (pooled x name).
    rewrite drain_pooled.
    destruct (getFile_start_world name w) as (Hpool & Hdisk & Hpend).
    rewrite Hpend, Hp, Hc. cbn [app].
    rewrite decide_True by (apply elem_of_cons; by left).
    by rewrite (file_content_disk _ _ _ Hdisk), Hf. }
  split; [done|]. by rewrite Hnew.
Qed.

(** *** Directories and files *)

Lemma handlePath_dir (depth : nat) (url_ phyPath : string) (c : ctx) :
  disk (wld c) !! phyPath = Some DirNode →
  handlePath depth url_ phyPath c
  = if Js.truthy_str (defaultPage Settings) then
      match disk (wld c) !! path_join phyPath (defaultPage Settings) with
      | Some _ =>
          if decide (last_char url_ ≠ "/")
          then (redirect (url_ +:+ "/") c, Redirected)
          else match depth with
               | O => (c, TooDeep)
               | S depth' =>
                   handlePath depth' url_
                     (path_join phyPath (defaultPage Settings)) c
               end
      | None => handleDir phyPath c
      end
    else handleDir phyPath c.
Proof. intros H. destruct depth; simpl; by rewrite H. Qed.

(** X18. A request for a directory.  With a default page in it, a url that
    does not end in a slash is redirected (302) to the url with the slash
    added, and a url that does is answered as a request for the default
    page.  Without a default page the directory is listed when [listDir]
    is set, and refused with 403 and ["Access forbidden!"] otherwise. *)
Theorem directory_request (depth : nat) (url_ phyPath : string) (c : ctx) :
  disk (wld c) !! phyPath = Some DirNode →
  untouched (res c) →
  (has_default (wld c) phyPath → last_char url_ ≠ "/" →
   ∃ c', handlePath depth url_ phyPath c = (c', Redirected)
         ∧ statusCode (res c') = 302
         ∧ resHeaders (res c') !! "Location" = Some (url_ +:+ "/")
         ∧ resBody (res c') = "" ∧ ended (res c') = true)
  ∧ (has_default (wld c) phyPath → last_char url_ = "/" →
     handlePath (S depth) url_ phyPath c
     = handlePath depth url_ (path_join phyPath (defaultPage Settings)) c)
  ∧ (¬ has_default (wld c) phyPath → listDir Settings = false →
     ∃ c', handlePath depth url_ phyPath c = (c', Forbidden)
           ∧ statusCode (res c') = 403
           ∧ resBody (res c') = "Access forbidden!"
           ∧ ended (res c') = true)
  ∧ (¬ has_default (wld c) phyPath → listDir Settings = true →
     ∃ c', handlePath depth url_ phyPath c = (c', Listed)
           ∧ statusCode (res c') = 200
           ∧ resBody (res c') = ListDir_body (req c) phyPath (disk (wld c))
           ∧ ended (res c') = true).
Proof.
  intros Hd Hu.
  assert (¬ has_default (wld c) phyPath →
          ∀ depth, handlePath depth url_ phyPath c = handleDir phyPath c) as Hno.
  { intros Hn depth'. rewrite (handlePath_dir _ _ _ _ Hd).
    unfold Js.truthy_str. destruct (decide (defaultPage Settings = "")) as [E|E].
    - by rewrite bool_decide_eq_false_2 by (intros ?; done).
    - rewrite bool_decide_eq_true_2 by done.
      destruct (disk (wld c) !! path_join phyPath (defaultPage Settings)) eqn:F;
        [|done].
      exfalso. apply Hn. split; [done|]. by rewrite F. }
  split; [|split; [|split]].
  - intros [Hp [n Hn]] Hl. rewrite (handlePath_dir _ _ _ _ Hd).
    unfold Js.truthy_str. rewrite bool_decide_eq_true_2 by done.
    rewrite Hn. rewrite decide_True by done.
    eexists. split; [reflexivity|].
    destruct Hu as (He & Hs & Hb).
    unfold redirect, res_end, set_statusCode, setHeader, end_response.
    cbn [res req wld]. rewrite Hs. cbn [ended headersSent]. rewrite He.
    cbn [orb ended headersSent statusCode resHeaders resBody].
    rewrite Hb. split; [done|]. split; [|done].
    destruct (<["Location":=url_ +:+ "/"]> (resHeaders (res c)) !! "Content-Type");
      [by rewrite lookup_insert_eq|].
    rewrite lookup_insert_ne by done. by rewrite lookup_insert_eq.
  - intros [Hp [n Hn]] Hl. rewrite (handlePath_dir _ _ _ _ Hd).
    unfold Js.truthy_str. rewrite bool_decide_eq_true_2 by done.
    rewrite Hn. rewrite decide_False by (intros ?; done). done.
  - intros Hn Hl. rewrite (Hno Hn). unfold handleDir. rewrite Hl.
    eexists. split; [reflexivity|]. unfold write403, res_end, with_res.
    cbn [res req wld].
    destruct (answer 403 html "Access forbidden!" (res c) Hu)
      as (G1 & G2 & G3 & _). done.
  - intros Hn Hl. rewrite (Hno Hn). unfold handleDir. rewrite Hl.
    eexists. split; [reflexivity|]. unfold res_end, with_res.
    cbn [res req wld].
    destruct (answer 200 html (ListDir_body (req c) phyPath (disk (wld c)))
                (res c) Hu) as (G1 & G2 & G3 & _). done.
Qed.

(** X19. A file that is not answered with 304.  With the cache setting off,
    or with an [If-Modified-Since] header that is not a date, a readable
    file is sent whole: status 200, its content as the body, the looked-up
    content type (["text/plain"] when the lookup gives none) with the
    charset, and [Last-Modified]; cookies queued before are not sent.  A
    file that cannot be read is recorded as read and the response is left
    open: nothing is written and it is never ended. *)
Theorem static_file_answer (depth : nat) (url_ phyPath : string) (c : ctx)
    (mtime : Z) (data : option string) :
  disk (wld c) !! phyPath = Some (FileNode mtime data) →
  untouched (res c) →
  cache Settings = false ∨ invalid_since (req c) →
  (∀ content, data = Some content →
     ∃ c', handlePath depth url_ phyPath c = (c', FileServed)
           ∧ statusCode (res c') = 200 ∧ resBody (res c') = content
           ∧ ended (res c') = true
           ∧ resHeaders (res c') !! "Last-Modified" = Some (toUTCString mtime)
           ∧ (phyPath ≠ "" →
              resHeaders (res c') !! "Content-Type"
              = Some ((if Js.truthy_str (mime_lookup phyPath)
                       then mime_lookup phyPath else "text/plain")
                      +:+ "; charset=" +:+ charset_of (res c)))
           ∧ setCookie (res c') = setCookie (res c))
  ∧ (data = None →
     ∃ c', handlePath depth url_ phyPath c = (c', ReadFailed)
           ∧ ended (res c') = false ∧ headersSent (res c') = false
           ∧ resBody (res c') = ""
           ∧ reads (wld c') = reads (wld c) ++ [phyPath]).
Proof.
  intros Hd Hu Hfresh.
  assert (handlePath depth url_ phyPath c
          = writeFile phyPath
              (with_res (setHeader "Last-Modified" (toUTCString mtime) (res c)) c))
    as ->.
  { assert (handlePath depth url_ phyPath c = serve_file phyPath mtime c) as ->
      by (destruct depth; simpl; by rewrite Hd).
    unfold serve_file. destruct Hfresh as [->|(h & Hh & Hne & Hp)]; [done|].
    unfold cacheTime. rewrite Hh. unfold Js.truthy_str.
    rewrite bool_decide_eq_true_2 by done. rewrite Hp.
    by rewrite andb_false_r. }
  destruct (setHeader_untouched "Last-Modified" (toUTCString mtime) (res c) Hu)
    as (Hu1 & Hl1 & Hst1).
  set (r1 := setHeader "Last-Modified" (toUTCString mtime) (res c)) in *.
  unfold writeFile, readFile, with_res. cbn [wld req res].
  unfold file_content. rewrite Hd.
  split.
  - intros content ->. eexists. split; [reflexivity|].
    destruct (res_type_untouched phyPath r1 Hu1) as (Hu2 & Hk2).
    destruct (answer 200 ∅ content (res_type phyPath r1) Hu2)
      as (G1 & G2 & G3 & G4).
    unfold res_end. cbn [res req wld].
    split; [done|]. split; [done|]. split; [done|].
    rewrite G4, (left_id_L ∅ (∪)).
    split; [by rewrite Hk2|]. split.
    + intros Hpath. destruct Hu1 as (He1 & Hs1 & Hb1).
      unfold res_type. unfold Js.truthy_str at 1.
      rewrite bool_decide_eq_true_2 by done. rewrite Hs1. cbn [negb andb].
      unfold setHeader at 1. rewrite He1, Hs1. cbn [orb resHeaders].
      rewrite lookup_insert_eq. do 2 f_equal.
      unfold charset_of, r1, setHeader. destruct Hu as (He & Hs & _).
      by rewrite He, Hs.
    + destruct Hu2 as (He2 & Hs2 & _). unfold end_response, writeHead.
      rewrite He2. cbn [ended setCookie headersSent].
      unfold res_type. destruct (_ && _); [|by unfold r1, setHeader;
        destruct (_ || _)].
      unfold setHeader at 1. destruct (_ || _);
        unfold r1, setHeader; by destruct (_ || _).
  - intros ->. eexists. split; [reflexivity|]. cbn [res wld reads set_reads].
    by destruct Hu1 as (? & ? & ?).
Qed.

End WebSvr.

(** * A small server to run the model on

    Stand-ins for the collaborators: a JSON parser that knows the empty
    object only, a path join that appends, one date that parses, and a
    template engine that returns the text it is given. *)

Definition demo_JSON_parse (s : string) : option json :=
  if decide (s = "{}") then Some (JObj []) else None.
Definition demo_qs_parse (s : string) : option json := Some (JObj []).
Definition demo_form_parse (rq : request) : option (json * json) := None.
Definition demo_path_join (a b : string) : string :=
  if decide (Js.charAt b 0 = "/") then a +:+ b else a +:+ "/" +:+ b.
Definition demo_date : string := "Thu, 01 Jan 1970 00:00:10 GMT".
Definition demo_Date_parse (s : string) : option Z :=
  if decide (s = demo_date) then Some 10000 else None.
Definition demo_toUTCString (z : Z) : string :=
  if decide (z = 10000) then demo_date else "some other date".
Definition demo_toISOString (z : Z) : string := "1970-01-01T00:00:00.000Z".
Definition demo_mime_lookup (s : string) : string := "text/plain".
Definition demo_engineFunc (text : string) (model : json) : string + string :=
  inl text.
Definition demo_ListDir_body (rq : request) (dir : string)
    (d : gmap string node) : string := "".

Definition demo_settings : settings :=
  MkSettings "/srv" "/srv/www" false true true true "index.html" ""
    1440000 "" 36 "".

Definition demo_world : world :=
  World 5000000 (λ _, 7%nat) 0 ∅ None None ∅ ∅ None [] [].

Definition demo_store : sessionStore := MemoryStore demo_settings.

Definition demo_rule (e : expression) (h : handler) : mapper :=
  Mapper e h None false false None.

(** ** C1 and C2 on concrete requests *)

Lemma parameterized_match_witness :
  (∃ ps, matchString (request_for "/home/42?x=1") true "/home/:id"
           = (MParams ps, set_params ps (request_for "/home/42?x=1"))
         ∧ ps !! "id" = Some "42")
  ∧ matchString (request_for "/key/JavaScript") true "/home/:key/:pager"
    = (MFalse, request_for "/key/JavaScript")
  (* a parameter named [__proto__] is matched but not captured *)
  ∧ (∃ ps, (matchString (request_for "/u/v") true "/u/:__proto__").1
           = MParams ps
           ∧ ps !! "__proto__" = None).
Proof.
  split; [|split].
  - destruct (parameterized_match (request_for "/home/42?x=1") true "/home/:id")
      as [Hyes _]; [by vm_compute|].
    destruct Hyes as (ps & Hm & Hc).
    + intros i part Hi Hl.
      destruct i as [|[|[|i]]]; vm_compute in Hi; try discriminate Hi;
        injection Hi as <-; try discriminate Hl; by vm_compute.
    + exists ps. split.
      * rewrite Hm. unfold extend. simpl. by rewrite (right_id_L ∅ (∪)).
      * destruct (Hc "id") as [Hlast _].
        rewrite (Hlast ltac:(discriminate) 2%nat); [by vm_compute|].
        split; [by vm_compute|].
        intros j Hj. destruct j as [|[|[|j]]]; try lia; by vm_compute.
  - destruct (parameterized_match (request_for "/key/JavaScript") true
                "/home/:key/:pager") as (_ & Hno & _); [by vm_compute|].
    apply Hno. exists 1%nat, "home". by vm_compute.
  - destruct (parameterized_match (request_for "/u/v") true "/u/:__proto__")
      as [Hyes _]; [by vm_compute|].
    destruct Hyes as (ps & Hm & Hc).
    + intros i part Hi Hl.
      destruct i as [|[|[|i]]]; vm_compute in Hi; try discriminate Hi;
        injection Hi as <-; try discriminate Hl; by vm_compute.
    + exists ps. split; [by rewrite Hm|].
      destruct (Hc "__proto__") as [_ Hnone]. apply Hnone. by left.
Defined.

Lemma strict_literal_match_witness : strict_occurrence "/m" "/m/x".
Proof.
  refine (proj1 (strict_literal_match (demo_rule (EString "/m") HOther)
                   (request_for "/m/x") "/m" _ _ _) _).
  - by vm_compute.
  - reflexivity.
  - discriminate.
  - by vm_compute.
Defined.

(** ** The chain on two filters *)

Definition demo_continue (c : ctx) : ran := Returned c false.

Definition demo_filters : list mapper :=
  [demo_rule (EString ".svr") (HFunction demo_continue);
   demo_rule (EString "/api") (HFunction demo_continue)].

Definition demo_handlers : list mapper :=
  [demo_rule (EString "/m") (HString "hello")].

Definition demo_next : filterChain → ctx → filterChain * ctx * outcome :=
  next demo_JSON_parse demo_qs_parse demo_form_parse demo_toUTCString
    demo_toISOString demo_settings demo_store demo_filters.

Definition demo_Parser : mapper → ctx → ctx * outcome :=
  Parser demo_JSON_parse demo_qs_parse demo_form_parse demo_toUTCString
    demo_toISOString demo_settings demo_store.

Definition demo_chain (i : nat) : filterChain :=
  FilterChain i (λ c, (c, NotFound)).

Definition demo_ctx (u : string) : ctx :=
  Ctx (request_for u) fresh_response demo_world.

Lemma filter_chain_step_witness :
  demo_next (demo_chain 0) (demo_ctx "/api/x")
  = (demo_chain 2,
     (demo_Parser (demo_rule (EString "/api") (HFunction demo_continue))
        (demo_ctx "/api/x")).1,
     Invoked false)
  ∧ demo_next (demo_chain 2) (demo_ctx "/api/x")
    = (demo_chain 3, demo_ctx "/api/x", NotFound).
Proof.
  pose proof (filter_chain_step demo_JSON_parse demo_qs_parse demo_form_parse
                demo_toUTCString demo_toISOString demo_settings demo_store
                demo_filters) as Step.
  split.
  - destruct (Step (demo_chain 0) (demo_ctx "/api/x")) as (_ & _ & Hskip & _).
    unfold demo_next.
    rewrite (Hskip (demo_rule (EString ".svr") (HFunction demo_continue)));
      [|reflexivity|by vm_compute].
    destruct (Step (advance (demo_chain 0)) (demo_ctx "/api/x"))
      as (_ & _ & _ & Hrun).
    destruct (Hrun (demo_rule (EString "/api") (HFunction demo_continue))
                (demo_Parser (demo_rule (EString "/api") (HFunction demo_continue))
                   (demo_ctx "/api/x")).1
                (Invoked false)) as [Hstop _];
      [reflexivity|by vm_compute|by vm_compute|].
    rewrite Hstop; [reflexivity|discriminate].
  - destruct (Step (demo_chain 2) (demo_ctx "/api/x")) as (_ & Hend & _).
    apply Hend. reflexivity.
Defined.

(** ** Sessions *)

Definition demo_sid : string := "kf12oi-7777777777777777777777777777z".

Definition demo_with_cookie (w : world) : ctx :=
  Ctx (set_cookies {[ sidKey := demo_sid ]} (request_for "/")) fresh_response w.

(** A store that holds one session under [demo_sid], last used at [t]. *)
Definition demo_stored (t : Z) : world :=
  World 5000000 (λ _, 7%nat) 0 {[ 0%nat := Session (Some t) ∅ ]}
    (Some {[ demo_sid := 0%nat ]}) (Some 5760000) ∅ ∅ None [] [].

Definition demo_init : ctx → ctx :=
  SessionParser_init demo_toUTCString demo_settings demo_store.

Definition demo_new_id : string := "2z60w-777777777777777777777777777777".

Lemma session_lifecycle_witness :
  (* no cookie: a session is created, and its cookie queued *)
  created demo_settings
    (Ctx (set_cookies ∅ (request_for "/")) fresh_response demo_world)
    (demo_init (Ctx (set_cookies ∅ (request_for "/")) fresh_response demo_world))
  ∧ resCookies
      (res (demo_init (Ctx (set_cookies ∅ (request_for "/")) fresh_response
                         demo_world)))
    = ["_wsid=" +:+ demo_new_id +:+ "; path=/; httponly"]
  ∧ sid <$> reqSession
              (req (demo_init (Ctx (set_cookies ∅ (request_for "/"))
                                 fresh_response demo_world)))
    = Some (Some demo_new_id)
  (* a session used 1000 s ago: attached, its time set to the clock *)
  ∧ reqSession (req (demo_init (demo_with_cookie (demo_stored 4000000))))
    = Some (SessionParser (Some demo_sid) (Some 0%nat))
  ∧ lastAccessTime
      (session_at (wld (demo_init (demo_with_cookie (demo_stored 4000000))))
         0%nat)
    = Some 5000000
  (* a session used long ago: deleted from the store, a new one created *)
  ∧ the_list (wld (demo_init (demo_with_cookie (demo_stored 1000)))) !! demo_sid
    = None.
Proof.
  pose proof (session_lifecycle demo_toUTCString demo_settings demo_store)
    as Life.
  assert (created demo_settings
            (Ctx (set_cookies ∅ (request_for "/")) fresh_response demo_world)
            (demo_init (Ctx (set_cookies ∅ (request_for "/")) fresh_response
                          demo_world))) as Hcreated.
  { destruct (Life (Ctx (set_cookies ∅ (request_for "/")) fresh_response
                      demo_world)) as [Hnew _].
    destruct Hnew as [Heq Hc]; [by left|].
    unfold demo_init. rewrite Heq. exact Hc. }
  split; [exact Hcreated|].
  split; [|split].
  { destruct Hcreated as (id & o & Hid & _ & _ & _ & _ & Hres).
    rewrite Hres, Hid. by vm_compute. }
  { destruct Hcreated as (id & o & Hid & _ & Hsess & _).
    rewrite Hsess, Hid. by vm_compute. }
  destruct (Life (demo_with_cookie (demo_stored 4000000))) as [_ Hold].
  destruct (Hold demo_sid) as [Hkeep _];
    [reflexivity|discriminate|reflexivity|].
  destruct Hkeep as (o & Ho & Hinit & Ht).
  { exists 0%nat, 4000000.
    split; [reflexivity|]. split; [reflexivity|].
    split; [discriminate|]. vm_compute. discriminate. }
  vm_compute in Ho. injection Ho as <-.
  split; [unfold demo_init; rewrite Hinit; reflexivity|].
  split.
  - unfold demo_init. rewrite Hinit. by vm_compute.
  - destruct (Life (demo_with_cookie (demo_stored 1000))) as [_ Hstale].
    destruct (Hstale demo_sid) as [_ Hdrop];
      [reflexivity|discriminate|reflexivity|].
    destruct Hdrop as [Hinit' _].
    { intros (o' & t & Ho' & Ht' & _ & Hle). vm_compute in Ho'.
      injection Ho' as <-. vm_compute in Ht'. injection Ht' as <-.
      vm_compute in Hle. by apply Hle. }
    unfold demo_init. rewrite Hinit'. by vm_compute.
Defined.

Lemma MemoryStore_get_never_absent_witness :
  (∃ o w', MemoryStore_get demo_settings "abc" demo_world
           = (w', StoredSession o)
           ∧ the_list w' !! "abc" = Some o
           ∧ isValid demo_settings w' (StoredSession o) = false)
  ∧ (∃ w', MemoryStore_get demo_settings "constructor" demo_world
           = (w', StoredInherited "constructor")
           ∧ the_list w' !! "constructor" = None).
Proof.
  split.
  - destruct (MemoryStore_get_never_absent demo_toUTCString demo_settings
                demo_store "abc" (demo_ctx "/"))
      as (_ & Hnew & _); [reflexivity|].
    destruct Hnew as (o & w' & Hget & _ & Hin & _ & _ & Hinv & _);
      [reflexivity|].
    exists o, w'. by repeat split.
  - destruct (MemoryStore_get_never_absent demo_toUTCString demo_settings
                demo_store "constructor" (demo_ctx "/"))
      as (_ & _ & Hinh); [reflexivity|].
    destruct Hinh as (w' & Hget & Hout & _); [reflexivity|].
    exists w'. by split.
Defined.

(** C10 as stated fails for an id that is a property name of
    [Object.prototype]: [list] does not hold ["toString"], yet [get] puts
    nothing under it and hands over the inherited value, not a new empty
    session object. *)
Lemma MemoryStore_get_inherited_name :
  the_list demo_world !! "toString" = None
  ∧ (MemoryStore_get demo_settings "toString" demo_world).2
    = StoredInherited "toString"
  ∧ the_list (MemoryStore_get demo_settings "toString" demo_world).1
    !! "toString" = None
  ∧ objs (MemoryStore_get demo_settings "toString" demo_world).1
    = objs demo_world.
Proof.
  split; [by vm_compute|]. split; [by vm_compute|].
  split; by vm_compute.
Qed.

(** C5 fails on the code: the sweep's test reads
    [t && ((now - t) || (0 <= timeout * 2))], which holds for every session
    that has a last-access time.  A session last used ten timeouts ago is
    still in [list] after the sweep; one without a time is removed.  (The
    interval given to [setInterval] is four timeouts, as claimed.) *)
Theorem sweep_retains_expired :
  let w := World (1000 + 10 * 1440000) (λ _, 7%nat) 0
             {[ 0%nat := Session (Some 1000) ∅; 1%nat := Session None ∅ ]}
             (Some {[ "old" := 0%nat; "new" := 1%nat ]}) (Some 5760000)
             ∅ ∅ None [] [] in
  sessionTimeout demo_settings * 2 < clock w - 1000
  ∧ the_list (clearHandler demo_settings w) !! "old" = Some 0%nat
  ∧ the_list (clearHandler demo_settings w) !! "new" = None
  ∧ sweepEvery (MemoryStore_init demo_settings demo_world)
    = Some (sessionTimeout demo_settings * 4).
Proof. by vm_compute. Qed.

(** ** Lenient body parse *)

(** A handler that answers with what it finds as the body, and one that
    throws. *)
Definition demo_report (c : ctx) : ran :=
  Returned
    (Ctx (req c)
       (end_response
          (match reqBody (req c) with
           | BodyValue (JObj []) => "empty object"
           | _ => "something else"
           end) (res c))
       (wld c))
    true.

Definition demo_throw (c : ctx) : ran := Threw c "boom".

Lemma lenient_body_parse_witness :
  let c := Ctx (Request "/post" ∅ "{oops" ∅ (Some ∅) BodyUndefined None None)
             fresh_response demo_world in
  (∃ c', parseBody demo_JSON_parse demo_qs_parse demo_toUTCString
           demo_toISOString demo_settings demo_store
           (Mapper ENone (HFunction demo_report) (Some "json") false false None)
           c
         = (c', Invoked true)
         ∧ resBody (res c') = "empty object"
         ∧ reqBody (req c') = empty_object)
  ∧ (∃ c', parseBody demo_JSON_parse demo_qs_parse demo_toUTCString
             demo_toISOString demo_settings demo_store
             (Mapper ENone (HFunction demo_throw) (Some "json") false false None)
             c
           = (c', Caught (error_message demo_toISOString c' "boom"))
           ∧ ended (res c') = true).
Proof.
  intros c. split.
  - destruct (lenient_body_parse demo_JSON_parse demo_qs_parse demo_toUTCString
                demo_toISOString demo_settings demo_store
                (Mapper ENone (HFunction demo_report) (Some "json") false false
                   None) c "json")
      as (_ & _ & _ & Hf & _); [reflexivity|reflexivity|left; by vm_compute|].
    destruct (Hf demo_report eq_refl) as [Hret _].
    eexists. split; [apply (Hret _ true); reflexivity|].
    split; by vm_compute.
  - destruct (lenient_body_parse demo_JSON_parse demo_qs_parse demo_toUTCString
                demo_toISOString demo_settings demo_store
                (Mapper ENone (HFunction demo_throw) (Some "json") false false
                   None) c "json")
      as (_ & _ & _ & Hf & _); [reflexivity|reflexivity|left; by vm_compute|].
    destruct (Hf demo_throw eq_refl) as [_ Hthrow].
    eexists. split.
    + rewrite (Hthrow _ "boom" eq_refl). change (showError demo_settings) with true.
      cbv iota. f_equal.
    + by vm_compute.
Defined.

(** ** Templates *)

Definition demo_page : string :=
  "x" +:+ includeBegin +:+ "b.tmpl" +:+ includeAfter +:+ "y".

(** Two templates on disk, the first including the second; nothing cached. *)
Definition demo_site : world :=
  World 5000000 (λ _, 7%nat) 0 ∅ None None
    {[ "/srv/www/a.tmpl" := FileNode 2000 (Some demo_page);
       "/srv/www/b.tmpl" := FileNode 2000 (Some "B") ]}
    ∅ None [] [].

Definition demo_render (w : world) : world * string :=
  render_template demo_path_join demo_engineFunc demo_settings "a.tmpl" JNull w.

Definition demo_drain : world → world := drain demo_path_join demo_settings.

(** C6 as stated fails: with the cache enabled, the first render puts
    nothing in place of an include that is not cached yet, and the second
    render, which reads no file, puts the included text there. *)
Lemma first_render_differs :
  templateCache demo_settings = true
  ∧ (demo_render demo_site).2 = "xy"
  ∧ (demo_render (demo_drain (demo_render demo_site).1)).2 = "xBy"
  ∧ reads (demo_render (demo_drain (demo_render demo_site).1)).1
    = reads (demo_drain (demo_render demo_site).1)
  ∧ (demo_render (demo_drain (demo_render demo_site).1)).2
    ≠ (demo_render demo_site).2.
Proof.
  split; [by vm_compute|]. split; [by vm_compute|]. split; [by vm_compute|].
  split; by vm_compute.
Qed.

Lemma render_twice_primed_witness :
  let w := demo_drain (demo_render demo_site).1 in
  (demo_render (demo_render w).1).2 = (demo_render w).2
  ∧ reads (demo_render (demo_render w).1).1 = reads w.
Proof.
  intros w.
  destruct (render_twice_primed demo_path_join demo_engineFunc demo_settings
              "a.tmpl" JNull w) as (_ & _ & _ & Hreads & Hsame).
  - apply (first_render_primes demo_path_join demo_engineFunc demo_settings
             "a.tmpl" JNull demo_site).
    + reflexivity.
    + reflexivity.
    + right. exists demo_page. split; [by vm_compute|discriminate].
    + intros fileStr Hin. vm_compute in Hin.
      repeat (apply elem_of_cons in Hin as [Hin|Hin]; [try discriminate Hin|]).
      * injection Hin as ->. right. exists "B".
        split; [by vm_compute|discriminate].
      * by apply elem_of_nil in Hin.
  - by split.
Defined.

(** ** Static files *)

(** A disk with one readable file under the home folder, modified at [t]. *)
Definition demo_disk (t : Z) : world :=
  World 5000000 (λ _, 7%nat) 0 ∅ None None
    {[ "/srv/www/old.txt" := FileNode t (Some "data") ]} ∅ None [] [].

Definition demo_fileHandler : ctx → ctx * outcome :=
  fileHandler demo_path_join demo_Date_parse demo_toUTCString demo_mime_lookup
    demo_engineFunc demo_ListDir_body demo_settings demo_store 1.

Definition demo_handlePath : ctx → ctx * outcome :=
  handlePath demo_path_join demo_Date_parse demo_toUTCString demo_mime_lookup
    demo_engineFunc demo_ListDir_body demo_settings demo_store 1
    "/old.txt" "/srv/www/old.txt".

(** A request for the file that says it has the copy of [demo_date]. *)
Definition demo_conditional (w : world) : ctx :=
  Ctx (Request "/old.txt" {[ "if-modified-since" := demo_date ]} "" ∅ None
         BodyUndefined None None)
    fresh_response w.

(** C7 as stated fails: a file dated at the epoch and a request without an
    [If-Modified-Since] header, caching on: the answer is a 304 without a
    body, not a 200 with the content. *)
Lemma absent_header_epoch_file :
  cache demo_settings = true
  ∧ headers (request_for "/old.txt") !! "if-modified-since" = None
  ∧ (demo_fileHandler (Ctx (request_for "/old.txt") fresh_response (demo_disk 0))).2
    = NotModified
  ∧ statusCode
      (res (demo_fileHandler
              (Ctx (request_for "/old.txt") fresh_response (demo_disk 0))).1)
    = 304
  ∧ resBody
      (res (demo_fileHandler
              (Ctx (request_for "/old.txt") fresh_response (demo_disk 0))).1)
    = "".
Proof. repeat split; by vm_compute. Qed.

Lemma conditional_get_witness :
  (* the copy is as new as the file: 304 *)
  (∃ c', demo_handlePath (demo_conditional (demo_disk 10000)) = (c', NotModified)
         ∧ statusCode (res c') = 304 ∧ resBody (res c') = "")
  (* the file is newer than the copy: 200 with the content *)
  ∧ (∃ c', demo_handlePath (demo_conditional (demo_disk 20000)) = (c', FileServed)
           ∧ statusCode (res c') = 200 ∧ resBody (res c') = "data"
           ∧ resHeaders (res c') !! "Last-Modified"
             = Some (demo_toUTCString 20000))
  (* no header, a file of our days: 200 with the content *)
  ∧ (∃ c', demo_handlePath
             (Ctx (request_for "/old.txt") fresh_response (demo_disk 20000))
           = (c', FileServed)
           ∧ statusCode (res c') = 200 ∧ resBody (res c') = "data").
Proof.
  pose proof (conditional_get demo_path_join demo_Date_parse demo_toUTCString
                demo_mime_lookup demo_engineFunc demo_ListDir_body
                demo_settings demo_store 1 "/old.txt" "/srv/www/old.txt")
    as Get.
  split; [|split].
  - destruct (Get (demo_conditional (demo_disk 10000)) 10000 "data")
      as [H304 _]; [reflexivity|by repeat split|].
    destruct (H304 10000) as (c' & H1 & H2 & H3 & _);
      [reflexivity| |lia|by exists c'].
    exists demo_date. split; [reflexivity|]. split; [discriminate|reflexivity].
  - destruct (Get (demo_conditional (demo_disk 20000)) 20000 "data")
      as [_ H200]; [reflexivity|by repeat split|].
    destruct H200 as (c' & H1 & H2 & H3 & _ & H5); [|by exists c'].
    left. exists 10000. split; [|lia].
    exists demo_date. split; [reflexivity|]. split; [discriminate|reflexivity].
  - destruct (Get (Ctx (request_for "/old.txt") fresh_response (demo_disk 20000))
                20000 "data") as [_ H200]; [reflexivity|by repeat split|].
    destruct H200 as (c' & H1 & H2 & H3 & _); [|by exists c'].
    right. split; [reflexivity|lia].
Defined.

(** ** The 404 fallback *)

Lemma not_found_fallback_witness :
  ∃ fc c,
    requestHandler demo_JSON_parse demo_qs_parse demo_form_parse demo_path_join
      demo_Date_parse demo_toUTCString demo_toISOString demo_mime_lookup
      demo_engineFunc demo_ListDir_body demo_settings demo_store demo_filters
      demo_handlers 1 (request_for "/nothing?x=1") demo_world
    = (fc, c, NotFound)
    ∧ statusCode (res c) = 404
    ∧ resBody (res c) = "File not found!".
Proof.
  destruct (not_found_fallback demo_JSON_parse demo_qs_parse demo_form_parse
              demo_path_join demo_Date_parse demo_toUTCString demo_toISOString
              demo_mime_lookup demo_engineFunc demo_ListDir_body demo_settings
              demo_store demo_filters demo_handlers 1
              (request_for "/nothing?x=1") demo_world)
    as (fc & c & Hrun & Hstatus & _ & Hbody).
  - intros m Hm. unfold demo_filters in Hm.
    repeat (apply elem_of_cons in Hm as [->|Hm]; [by vm_compute|]).
    by apply elem_of_nil in Hm.
  - intros m Hm. unfold demo_handlers in Hm.
    repeat (apply elem_of_cons in Hm as [->|Hm]; [by vm_compute|]).
    by apply elem_of_nil in Hm.
  - by vm_compute.
  - exists fc, c. split; [exact Hrun|]. split; [exact Hstatus|].
    rewrite Hbody. by vm_compute.
Defined.

(** ** Running the model *)

Example decode_escape : Uri.decodeURIComponent "a%20b%2Fc" = Some "a b/c".
Proof. by vm_compute. Qed.

Example decode_malformed : Uri.decodeURIComponent "100%" = None.
Proof. by vm_compute. Qed.

Example decode_overlong : Uri.decodeURIComponent "%C0%80" = None.
Proof. by vm_compute. Qed.

Example capture_falls_back : capture (Some "100%") = "100%".
Proof. by vm_compute. Qed.

Example base36 : toString36 35 = "z" ∧ toString36 36 = "10" ∧ toString36 0 = "0".
Proof. by vm_compute. Qed.

Example newID_has_session_length :
  Js.length (newID demo_settings demo_world).1 = 36%nat.
Proof. by vm_compute. Qed.

Example cookies_parsed :
  parse_cookie_header (Some "a=1; _wsid=xyz;=skipped")
  = {[ "a" := "1"; "_wsid" := "xyz" ]}.
Proof. by vm_compute. Qed.

(** A handler for ['/home/:id'] that answers with [req.params.id]: the request
    ['/home/42?x=1'] reaches it with [id = "42"]. *)
Definition demo_echo_id (c : ctx) : ran :=
  Returned (res_end demo_store (default "" (params (req c) !! "id")) c) false.

Example handler_gets_parameter :
  let r := requestHandler demo_JSON_parse demo_qs_parse demo_form_parse
             demo_path_join demo_Date_parse demo_toUTCString demo_toISOString
             demo_mime_lookup demo_engineFunc demo_ListDir_body demo_settings
             demo_store []
             [demo_rule (EString "/home/:id") (HFunction demo_echo_id)]
             1 (request_for "/home/42?x=1") demo_world in
  r.2 = Invoked false ∧ resBody (res r.1.2) = "42".
Proof. by vm_compute. Qed.

(** ** Matching, on concrete requests *)

Lemma filter_literal_anywhere_witness :
  truthy (matchString (request_for "/a/x.svr?y=1") false ".svr").1 = true
  ∧ (matchString (request_for "/a/x.svr?y=1") false ".svr").2
    = request_for "/a/x.svr?y=1".
Proof.
  destruct (filter_literal_anywhere (request_for "/a/x.svr?y=1") ".svr")
    as [Hiff Hreq]; [by vm_compute|].
  split; [|exact Hreq]. apply Hiff. exists 4%nat. by vm_compute.
Defined.

Lemma strict_literal_exact_witness :
  truthy (matchString (request_for "m/x") true "m").1 = true
  ∧ truthy (matchString (request_for "/m/x") true "/x").1 ≠ true.
Proof.
  split.
  - apply (strict_literal_exact (request_for "m/x") "m"); [by vm_compute|].
    left. split; [by vm_compute|]. right. left. by vm_compute.
  - intros H.
    apply (strict_literal_exact (request_for "/m/x") "/x") in H;
      [|by vm_compute].
    destruct H as [[H _]|(_ & H & _)]; by vm_compute in H.
Defined.

Lemma array_expression_any_witness :
  Mapper_match (demo_rule (EArray ["/a"; "/m"; "/m/x"]) (HString "hello"))
    (request_for "/m/x") true
  = (MTrue, request_for "/m/x").
Proof.
  destruct (array_expression_any
              (demo_rule (EArray ["/a"; "/m"; "/m/x"]) (HString "hello"))
              (request_for "/m/x") true ["/a"; "/m"; "/m/x"] eq_refl)
    as [_ Hfirst].
  rewrite (Hfirst ["/a"] "/m" ["/m/x"]); [by vm_compute|reflexivity| |by vm_compute].
  intros e He. apply elem_of_cons in He as [->|He]; [by vm_compute|].
  by apply elem_of_nil in He.
Defined.

Lemma match_touches_params_only_witness :
  let rq := Request "/u/7" {[ "cookie" := "a=1" ]} "" {[ "lang" := "en" ]}
              None BodyUndefined None None in
  let rq' := (Mapper_match (demo_rule (EString "/u/:id") HOther) rq true).2 in
  url rq' = "/u/7" ∧ headers rq' = {[ "cookie" := "a=1" ]}
  ∧ is_Some (params rq' !! "lang").
Proof.
  intros rq rq'.
  destruct (match_touches_params_only (demo_rule (EString "/u/:id") HOther)
              rq true) as (Hu & Hh & _ & _ & _ & _ & _ & Hp & _).
  split; [exact Hu|]. split; [exact Hh|]. apply Hp. by eexists.
Defined.

Lemma cookie_header_read_witness :
  parse_cookie_header (Some "a=1;_wsid= xyz;a=2")
  = {[ "a" := "2"; "_wsid" := "xyz" ]}.
Proof.
  destruct (cookie_header_read [("a", "1"); ("_wsid", " xyz"); ("a", "2")])
    as [Hread _]; [discriminate| |].
  - intros k v Hin.
    repeat (apply elem_of_cons in Hin as [[= -> ->]|Hin];
            [by vm_compute; repeat split; try lia|]).
    by apply elem_of_nil in Hin.
  - transitivity (parse_cookie_header
                    (Some (join ";" (cookie_pair
                                       <$> [("a", "1"); ("_wsid", " xyz");
                                            ("a", "2")]))));
      [reflexivity|].
    rewrite Hread. by vm_compute.
Defined.

(** ** Session ids and stores *)

Lemma newID_shape_witness :
  Z.of_nat (Js.length (newID demo_settings demo_world).1) = 36
  ∧ (newID demo_settings demo_world).1 = demo_new_id.
Proof.
  destruct (newID_shape demo_settings demo_world) as (_ & Hfit & _).
  split; [apply Hfit; by vm_compute|by vm_compute].
Defined.

Lemma MemoryStore_laws_witness :
  MemoryStore_get demo_settings demo_sid
    (MemoryStore_set demo_settings demo_sid 0%nat (demo_stored 1000))
  = (MemoryStore_set demo_settings demo_sid 0%nat (demo_stored 1000),
     StoredSession 0%nat)
  ∧ the_list (MemoryStore_del demo_sid (demo_stored 1000)) !! demo_sid = None.
Proof.
  destruct (MemoryStore_laws demo_settings demo_sid "other" 0%nat
              (demo_stored 1000)) as (Hget & _ & _ & Hdel & _).
  split; [apply Hget; discriminate|].
  destruct Hdel as [Hgone _]; [by eexists|]. exact Hgone.
Defined.

Lemma sweep_removes_untimed_witness :
  let w := World 14401000 (λ _, 7%nat) 0
             {[ 0%nat := Session (Some 1000) ∅; 1%nat := Session None ∅ ]}
             (Some {[ "old" := 0%nat; "new" := 1%nat ]}) (Some 5760000)
             ∅ ∅ None [] [] in
  the_list (clearHandler demo_settings w) !! "new" = None
  ∧ the_list (clearHandler demo_settings w) !! "old" ≠ None
  ∧ objs (clearHandler demo_settings w) = objs w.
Proof.
  intros w.
  split; [|split].
  - destruct (sweep_removes_untimed demo_settings w
                {[ "old" := 0%nat; "new" := 1%nat ]} "new")
      as (Hin & _); [reflexivity|by vm_compute|].
    destruct (Hin 1%nat) as [Hiff _]; [by vm_compute|].
    apply Hiff. left. by vm_compute.
  - destruct (sweep_removes_untimed demo_settings w
                {[ "old" := 0%nat; "new" := 1%nat ]} "old")
      as (Hin & _); [reflexivity|by vm_compute|].
    destruct (Hin 0%nat) as [Hiff _]; [by vm_compute|].
    intros Hgone. apply Hiff in Hgone as [H|H]; by vm_compute in H.
  - destruct (sweep_removes_untimed demo_settings w
                {[ "old" := 0%nat; "new" := 1%nat ]} "old")
      as (_ & _ & Hobjs & _); [reflexivity|by vm_compute|].
    exact Hobjs.
Defined.

Lemma session_set_get_witness :
  ∃ w', SessionParser_set 0%nat "user" (JStr "ann") (demo_stored 1000) = Some w'
        ∧ (SessionParser_get 0%nat "user" w').2 = GotValue (JStr "ann")
        ∧ (SessionParser_get 0%nat "cart" w').2 = GotUndefined
        ∧ (SessionParser_get 0%nat "toString" w').2 = GotInherited "toString".
Proof.
  destruct (session_set_get 0%nat "user" (JStr "ann") (demo_stored 1000))
    as (w' & Hset & Hget & Hother & _); [discriminate..|].
  exists w'. split; [exact Hset|]. split; [exact Hget|].
  split.
  - rewrite (Hother "cart"); [by vm_compute|discriminate..].
  - rewrite (Hother "toString"); [by vm_compute|discriminate..].
Defined.

Lemma session_across_requests_witness :
  let c := setSession demo_toUTCString demo_settings (demo_ctx "/") in
  let back := set_cookies {[ sidKey := demo_new_id ]} (request_for "/cart") in
  ∃ ws,
    SessionParser_set 0%nat "user" (JStr "ann") (wld c) = Some ws
    ∧ let w1 := wld (res_end demo_store "" (Ctx (req c) (res c) ws)) in
      (* back within the timeout: the same session *)
      (SessionParser_get 0%nat "user"
         (wld (demo_init (Ctx back fresh_response (set_clock 5000100 w1))))).2
      = GotValue (JStr "ann")
      ∧ res (demo_init (Ctx back fresh_response (set_clock 5000100 w1)))
        = fresh_response
      (* back after the timeout: the id is gone from the store *)
      ∧ the_list
          (wld (demo_init (Ctx back fresh_response (set_clock 9000000 w1))))
        !! demo_new_id = None.
Proof.
  intros c back.
  destruct (session_across_requests demo_toUTCString demo_settings demo_store
              (demo_ctx "/") back fresh_response "user" (JStr "ann") 5000100)
    as (ws & Hset & _ & Hin & _);
    [reflexivity|discriminate|discriminate|discriminate|by vm_compute
    |discriminate|by vm_compute|].
  destruct (session_across_requests demo_toUTCString demo_settings demo_store
              (demo_ctx "/") back fresh_response "user" (JStr "ann") 9000000)
    as (ws' & Hset' & _ & _ & Hout);
    [reflexivity|discriminate|discriminate|discriminate|by vm_compute
    |discriminate|by vm_compute|].
  assert (ws' = ws) as -> by congruence.
  exists ws. split; [exact Hset|]. intros w1.
  destruct Hin as (_ & Hres & Hget & _); [by vm_compute|].
  destruct Hout as (_ & Hgone & _); [by vm_compute|].
  split; [exact Hget|]. split; [exact Hres|exact Hgone].
Defined.

Lemma FileStore_clear_by_issue_time_witness :
  (newID demo_settings demo_world).1 = demo_new_id
  ∧ ((newID demo_settings demo_world).1
     ∈ FileStore_clear demo_settings (Some ["readme.txt"; demo_new_id])
         39560001)
  ∧ ((newID demo_settings demo_world).1
     ∉ FileStore_clear demo_settings (Some ["readme.txt"; demo_new_id])
         39560000)
  ∧ ("readme.txt"
     ∉ FileStore_clear demo_settings (Some ["readme.txt"; demo_new_id])
         39560001).
Proof.
  split; [by vm_compute|].
  destruct (FileStore_clear_by_issue_time demo_settings demo_world 39560001
              ["readme.txt"; demo_new_id])
    as (_ & Hiff & Hlen & _); [by vm_compute|by vm_compute| |].
  { apply elem_of_cons. right. apply elem_of_cons. by left. }
  destruct (FileStore_clear_by_issue_time demo_settings demo_world 39560000
              ["readme.txt"; demo_new_id])
    as (_ & Hiff' & _); [by vm_compute|by vm_compute| |].
  { apply elem_of_cons. right. apply elem_of_cons. by left. }
  split; [|split].
  - apply Hiff. split; [discriminate|by vm_compute].
  - intros [_ Hlt]%Hiff'. by vm_compute in Hlt.
  - apply Hlen; [by vm_compute; repeat split; lia|by vm_compute].
Defined.

(** ** Stages, cookies and dispatch *)

Lemma Parser_gates_witness :
  let m := Mapper (EString "/up") (HFunction demo_report) None false false
             (Some (λ _ _, false)) in
  demo_Parser m (demo_ctx "/up")
  = (res_end demo_store "This is not a valid request"
       (Ctx (set_cookies ∅ (request_for "/up")) fresh_response demo_world),
     Rejected)
  ∧ (demo_Parser (demo_rule (EString "/up") (HFunction demo_report))
       (demo_ctx "/up")).2 = Invoked true.
Proof.
  intros m. split.
  - destruct (Parser_gates demo_JSON_parse demo_qs_parse demo_form_parse
                demo_toUTCString demo_toISOString demo_settings demo_store m
                (demo_ctx "/up")) as (Hrej & _).
    apply Hrej. reflexivity.
  - destruct (Parser_gates demo_JSON_parse demo_qs_parse demo_form_parse
                demo_toUTCString demo_toISOString demo_settings demo_store
                (demo_rule (EString "/up") (HFunction demo_report))
                (demo_ctx "/up")) as (_ & _ & Hr & Hf & Hin).
    destruct Hin as [(c1 & c' & nx & Hcall & Hp)|(msg & Hc)].
    + intros H. apply Hr in H. by vm_compute in H.
    + intros H. apply Hf in H as (_ & H & _). by vm_compute in H.
    + unfold demo_Parser. rewrite Hp. cbn [snd]. f_equal.
      unfold demo_rule in Hcall. unfold call_handler in Hcall.
      cbn [mhandler] in Hcall. unfold demo_report in Hcall.
      by injection Hcall as _ <-.
    + exfalso. revert Hc. by vm_compute.
Defined.

Lemma queued_cookies_at_end_witness :
  let r1 := Cookie demo_toUTCString "_wsid" (Some demo_new_id)
              (CookieOptions None "/" "" false true) fresh_response in
  setCookie (end_response "ok" r1)
  = ["_wsid=" +:+ demo_new_id +:+ "; path=/; httponly"]
  ∧ setCookie (end_response "ok" (writeHead 200 ∅ r1)) = [].
Proof.
  intros r1.
  destruct (queued_cookies_at_end demo_toUTCString demo_mime_lookup "_wsid"
              (Some demo_new_id) (CookieOptions None "/" "" false true)
              fresh_response "ok" 200 ∅)
    as ((text & Hq & _ & Hsent) & Hdrop & _); [reflexivity..|].
  split; [|exact Hdrop].
  fold r1 in Hq, Hsent. rewrite Hsent. by vm_compute in Hq |- *.
Defined.

Lemma first_handler_wins_witness :
  let hs1 := [demo_rule (EString "/a") (HString "A")] in
  let m := demo_rule (EString "/m") (HString "hello") in
  let hs2 := [demo_rule (EString "/m") (HString "later")] in
  ∃ c', handle_loop demo_JSON_parse demo_qs_parse demo_form_parse
          demo_path_join demo_toUTCString demo_toISOString demo_mime_lookup
          demo_settings demo_store (hs1 ++ m :: hs2) (demo_ctx "/m")
        = (c', Some Content)
        ∧ statusCode (res c') = 200 ∧ resBody (res c') = "hello".
Proof.
  intros hs1 m hs2.
  destruct (first_handler_wins demo_JSON_parse demo_qs_parse demo_form_parse
              demo_path_join demo_toUTCString demo_toISOString
              demo_mime_lookup demo_settings demo_store hs1 hs2 m
              (demo_ctx "/m")) as (Hfirst & _ & Hstr & _).
  - intros m' Hm'. apply elem_of_cons in Hm' as [->|Hm']; [by vm_compute|].
    by apply elem_of_nil in Hm'.
  - by vm_compute.
  - destruct (Hstr "hello" eq_refl) as (Ho & Hs & Hb & _); [by repeat split|].
    rewrite Hfirst. eexists. split; [|split; [exact Hs|exact Hb]].
    rewrite <- Ho. by destruct (handle_loop _ _ _ _ _ _ _ _ _ _ _).
Defined.

Lemma answering_filter_ends_request_witness :
  ∃ c',
    requestHandler demo_JSON_parse demo_qs_parse demo_form_parse demo_path_join
      demo_Date_parse demo_toUTCString demo_toISOString demo_mime_lookup
      demo_engineFunc demo_ListDir_body demo_settings demo_store demo_filters
      demo_handlers 1 (request_for "/api/m") demo_world
    = (FilterChain 2
         (completion demo_JSON_parse demo_qs_parse demo_form_parse
            demo_path_join demo_Date_parse demo_toUTCString demo_toISOString
            demo_mime_lookup demo_engineFunc demo_ListDir_body demo_settings
            demo_store demo_handlers 1),
       c', Invoked false).
Proof.
  eexists.
  apply (answering_filter_ends_request demo_JSON_parse demo_qs_parse
           demo_form_parse demo_path_join demo_Date_parse demo_toUTCString
           demo_toISOString demo_mime_lookup demo_engineFunc demo_ListDir_body
           demo_settings demo_store demo_filters demo_handlers 1
           (request_for "/api/m") demo_world
           [demo_rule (EString ".svr") (HFunction demo_continue)] []
           (demo_rule (EString "/api") (HFunction demo_continue))).
  - reflexivity.
  - intros m' Hm'. apply elem_of_cons in Hm' as [->|Hm']; [by vm_compute|].
    by apply elem_of_nil in Hm'.
  - by vm_compute.
  - reflexivity.
  - discriminate.
Defined.

(** ** Includes, directories and files *)

Lemma include_expanded_once_witness :
  (substitute demo_path_join demo_settings (scan demo_page 0) demo_site).2
  = "xy"
  ∧ (substitute demo_path_join demo_settings (scan "<b>plain</b>" 0)
       demo_site).2 = "<b>plain</b>".
Proof.
  destruct (include_expanded_once demo_path_join demo_settings "x" "b.tmpl" "y"
              demo_site) as (_ & _ & _ & Hnone);
    [by vm_compute|by vm_compute|discriminate|by vm_compute; repeat split
    |by vm_compute|].
  destruct (include_expanded_once demo_path_join demo_settings "<b>plain</b>"
              "b.tmpl" "y" demo_site) as (Hplain & _);
    [by vm_compute|by vm_compute|discriminate|by vm_compute; repeat split
    |by vm_compute|].
  split.
  - transitivity ("x" +:+ "y"); [|reflexivity]. rewrite <- Hnone; [|reflexivity].
    reflexivity.
  - by rewrite Hplain.
Defined.

Lemma include_one_render_behind_witness :
  let first := substitute demo_path_join demo_settings (scan demo_page 0)
                 demo_site in
  first.2 = "xy"
  ∧ (substitute demo_path_join demo_settings (scan demo_page 0)
       (demo_drain first.1)).2 = "xBy".
Proof.
  intros first.
  destruct (include_one_render_behind demo_path_join demo_settings "x" "b.tmpl"
              "y" "B" demo_site) as (_ & H1 & _ & _ & H2);
    [by vm_compute|by vm_compute|discriminate|by vm_compute; repeat split
    |by vm_compute|by vm_compute|reflexivity|by vm_compute|].
  split.
  - transitivity ("x" +:+ pooled demo_site "b.tmpl" +:+ "y"); [|reflexivity].
    rewrite <- H1. reflexivity.
  - transitivity ("x" +:+ "B" +:+ "y"); [|reflexivity].
    rewrite <- H2. reflexivity.
Defined.

(** A home folder with a directory without a default page, and one with. *)
Definition demo_dirs : world :=
  World 5000000 (λ _, 7%nat) 0 ∅ None None
    {[ "/srv/www/docs" := DirNode;
       "/srv/www/blog" := DirNode;
       "/srv/www/blog/index.html" := FileNode 2000 (Some "posts") ]}
    ∅ None [] [].

Lemma directory_request_witness :
  (∃ c', handlePath demo_path_join demo_Date_parse demo_toUTCString
           demo_mime_lookup demo_engineFunc demo_ListDir_body demo_settings
           demo_store 1 "/docs" "/srv/www/docs"
           (Ctx (request_for "/docs") fresh_response demo_dirs)
         = (c', Forbidden)
         ∧ statusCode (res c') = 403
         ∧ resBody (res c') = "Access forbidden!")
  ∧ (∃ c', handlePath demo_path_join demo_Date_parse demo_toUTCString
             demo_mime_lookup demo_engineFunc demo_ListDir_body demo_settings
             demo_store 1 "/blog" "/srv/www/blog"
             (Ctx (request_for "/blog") fresh_response demo_dirs)
           = (c', Redirected)
           ∧ statusCode (res c') = 302
           ∧ resHeaders (res c') !! "Location" = Some "/blog/").
Proof.
  split.
  - destruct (directory_request demo_path_join demo_Date_parse demo_toUTCString
                demo_mime_lookup demo_engineFunc demo_ListDir_body
                demo_settings demo_store 1 "/docs" "/srv/www/docs"
                (Ctx (request_for "/docs") fresh_response demo_dirs))
      as (_ & _ & Hforbid & _); [reflexivity|by repeat split|].
    destruct Hforbid as (c' & H1 & H2 & H3 & _); [|reflexivity|].
    + intros [_ [n Hn]]. by vm_compute in Hn.
    + by exists c'.
  - destruct (directory_request demo_path_join demo_Date_parse demo_toUTCString
                demo_mime_lookup demo_engineFunc demo_ListDir_body
                demo_settings demo_store 1 "/blog" "/srv/www/blog"
                (Ctx (request_for "/blog") fresh_response demo_dirs))
      as (Hredirect & _); [reflexivity|by repeat split|].
    destruct Hredirect as (c' & H1 & H2 & H3 & _).
    + split; [discriminate|]. by vm_compute; eexists.
    + by vm_compute.
    + by exists c'.
Defined.

Lemma static_file_answer_witness :
  let c := Ctx (Request "/old.txt" {[ "if-modified-since" := "yesterday" ]} ""
                  ∅ None BodyUndefined None None)
             fresh_response (demo_disk 20000) in
  ∃ c', demo_handlePath c = (c', FileServed)
        ∧ statusCode (res c') = 200 ∧ resBody (res c') = "data"
        ∧ resHeaders (res c') !! "Content-Type"
          = Some "text/plain; charset=utf-8".
Proof.
  intros c.
  destruct (static_file_answer demo_path_join demo_Date_parse demo_toUTCString
              demo_mime_lookup demo_engineFunc demo_ListDir_body demo_settings
              demo_store 1 "/old.txt" "/srv/www/old.txt" c 20000 (Some "data"))
    as [Hserved _]; [reflexivity|by repeat split| |].
  { right. exists "yesterday". split; [reflexivity|].
    split; [discriminate|reflexivity]. }
  destruct (Hserved "data" eq_refl) as (c' & H1 & H2 & H3 & _ & _ & H6 & _).
  exists c'. split; [exact H1|]. split; [exact H2|]. split; [exact H3|].
  rewrite H6; [reflexivity|discriminate].
Defined.
